(** * RecorderApp: the recorder window controller

    A shallow embedding of [src/server/supplements/recorder/recorderApp.ts].

    The class drives a separate application window through an external
    automation engine.  Everything the class does is a call into that engine, an
    emission on its own event emitter, or a write to the process output stream;
    the embedding threads a [World] that logs those effects, and lets the engine
    resolve or reject every awaited call as it pleases.

    Definitions:
    - [Base64]: [Buffer.prototype.toString('base64')] and its inverse;
    - [EventEmitter]: the Node emitter the class extends;
    - the engine interface, the host and its listeners, the world and the
      promise monad;
    - the methods of [RecorderApp], line by line;
    - the event loop: window signals and host calls;
    - the notions the properties are stated with, and sample worlds.

    Properties: base64, single calls and pushes, the asset interceptor,
    bootstrap and initialisation, the emitter and its emissions, the
    lifecycle; then who hears what, the path of [open] under the signals
    that arrive meanwhile, closing, subscribers, and what makes a method
    reject. *)

From Stdlib Require Import NArith Strings.Byte Ascii String Lia.
From stdpp Require Import base gmap strings list.

Local Open Scope string_scope.
Local Open Scope N_scope.
Local Open Scope list_scope.

(* ===================================================================== *)
(** ** Base64, as produced by [buffer.toString('base64')] *)
(* ===================================================================== *)

Module Base64.

(** The standard alphabet (RFC 4648, section 4), padded with [=]. *)
Definition alphabet : string :=
  "ABCDEFGHIJKLMNOPQRSTUVWXYZabcdefghijklmnopqrstuvwxyz0123456789+/".

Definition pad : ascii := "="%char.

(** The character of a six-bit value. *)
Definition digit (n : N) : ascii :=
  match String.get (N.to_nat n) alphabet with
  | Some c => c
  | None => pad
  end.

Fixpoint index_of (c : ascii) (s : string) : option N :=
  match s with
  | EmptyString => None
  | String a s' =>
      if Ascii.eqb a c then Some 0
      else match index_of c s' with
           | Some i => Some (N.succ i)
           | None => None
           end
  end.

(** The six-bit value of a character, if it is in the alphabet. *)
Definition value (c : ascii) : option N := index_of c alphabet.

(** The four sextets of a group of three octets. *)
Definition sextet1 (a : byte) : N := N.shiftr (Byte.to_N a) 2.
Definition sextet2 (a b : byte) : N :=
  N.lor (N.shiftl (N.land (Byte.to_N a) 3) 4) (N.shiftr (Byte.to_N b) 4).
Definition sextet3 (b c : byte) : N :=
  N.lor (N.shiftl (N.land (Byte.to_N b) 15) 2) (N.shiftr (Byte.to_N c) 6).
Definition sextet4 (c : byte) : N := N.land (Byte.to_N c) 63.

Fixpoint encode_list (bs : list byte) : list ascii :=
  match bs with
  | [] => []
  | [a] => [digit (sextet1 a); digit (sextet2 a x00); pad; pad]
  | [a; b] => [digit (sextet1 a); digit (sextet2 a b); digit (sextet3 b x00); pad]
  | a :: b :: c :: rest =>
      digit (sextet1 a) :: digit (sextet2 a b) :: digit (sextet3 b c)
        :: digit (sextet4 c) :: encode_list rest
  end.

Definition encode (bs : list byte) : string :=
  string_of_list_ascii (encode_list bs).

(** The three octets of a group of four sextets. *)
Definition octet1 (v1 v2 : N) : option byte :=
  Byte.of_N (N.lor (N.shiftl v1 2) (N.shiftr v2 4)).
Definition octet2 (v2 v3 : N) : option byte :=
  Byte.of_N (N.lor (N.shiftl (N.land v2 15) 4) (N.shiftr v3 2)).
Definition octet3 (v3 v4 : N) : option byte :=
  Byte.of_N (N.lor (N.shiftl (N.land v3 3) 6) v4).

(** The strict decoder: what the receiver of a body flagged [isBase64] applies
    to it.  Padding is accepted in the last group only. *)
Fixpoint decode_list (cs : list ascii) : option (list byte) :=
  match cs with
  | [] => Some []
  | c1 :: c2 :: c3 :: c4 :: rest =>
      v1 ← value c1;
      v2 ← value c2;
      b1 ← octet1 v1 v2;
      if Ascii.eqb c3 pad then
        if Ascii.eqb c4 pad
        then match rest with [] => Some [b1] | _ => None end
        else None
      else
        v3 ← value c3;
        b2 ← octet2 v2 v3;
        if Ascii.eqb c4 pad then
          match rest with [] => Some [b1; b2] | _ => None end
        else
          v4 ← value c4;
          b3 ← octet3 v3 v4;
          tl ← decode_list rest;
          Some (b1 :: b2 :: b3 :: tl)
  | _ => None
  end.

Definition decode (s : string) : option (list byte) :=
  decode_list (list_ascii_of_string s).

(** All 256 octets, for the exhaustive checks below. *)
Definition all_bytes : list byte :=
  omap (fun k => Byte.of_N (N.of_nat k)) (seq 0 256).

Definition for_all_bytes (p : byte -> bool) : bool := forallb p all_bytes.

Definition is_byte (o : option byte) (b : byte) : bool :=
  match o with
  | Some b' => Byte.eqb b' b
  | None => false
  end.

End Base64.

(* ===================================================================== *)
(** ** The Node event emitter *)
(* ===================================================================== *)

(** [RecorderApp] extends Node's [EventEmitter], and so does the [Page] it
    listens to.  The emitter keeps, per event name, the listeners in the order
    they were added; a listener added with [once] leaves the emitter when it
    is called.  Adding a listener warns, once per event name, when a positive
    limit is exceeded; a limit of zero means no limit.  The calling of the
    listeners needs the world they act on, and is [fire] below. *)

Module EventEmitter.

Section Emitter.
Context {L : Type} `{EqDecision L}.

Record entry := Entry { callback : L; isOnce : bool }.

Record t := Make {
  events : gmap string (list entry);
  maxListeners : option N;
  warned : list string
}.

Definition defaultMaxListeners : N := 10.

Definition create : t := Make ∅ None [].

Definition setMaxListeners (n : N) (e : t) : t :=
  Make (events e) (Some n) (warned e).

Definition getMaxListeners (e : t) : N :=
  match maxListeners e with
  | Some n => n
  | None => defaultMaxListeners
  end.

Definition registered (type : string) (e : t) : list entry :=
  match events e !! type with
  | Some l => l
  | None => []
  end.

Definition listeners (type : string) (e : t) : list L :=
  map callback (registered type e).

Definition listenerCount (type : string) (e : t) : nat :=
  length (registered type e).

(** [_addListener]: append, then check the limit. *)
Definition addListener (type : string) (en : entry) (e : t) : t :=
  let existing := registered type e ++ [en] in
  let m := getMaxListeners e in
  let warn := (0 <? m) && (m <? N.of_nat (length existing))
              && negb (bool_decide (type ∈ warned e)) in
  Make (<[type := existing]> (events e))
       (maxListeners e)
       (if warn then warned e ++ [type] else warned e).

Definition on (type : string) (l : L) : t -> t := addListener type (Entry l false).
Definition once (type : string) (l : L) : t -> t := addListener type (Entry l true).

(** What [once] wraps around a listener removes itself when it is called
    ([removeListener] of the wrapper): of the entries of the event, the first
    one-shot entry of that listener leaves. *)
Fixpoint withoutOnce (l : L) (ens : list entry) : list entry :=
  match ens with
  | [] => []
  | en :: rest =>
      if isOnce en && bool_decide (callback en = l) then rest
      else en :: withoutOnce l rest
  end.

Definition removeOnce (type : string) (l : L) (e : t) : t :=
  Make (alter (withoutOnce l) type (events e)) (maxListeners e) (warned e).

End Emitter.

Arguments entry : clear implicits.
Arguments t : clear implicits.

End EventEmitter.

(* ===================================================================== *)
(** ** Values exchanged with the window *)
(* ===================================================================== *)

(** A JSON-serialisable value.  The class never looks inside one. *)
Unset Elimination Schemes.
Inductive JSON :=
| JNull
| JBool (b : bool)
| JNumber (n : N)
| JString (s : string)
| JArray (items : list JSON)
| JObject (fields : list (string * JSON)).
Set Elimination Schemes.

(** [recorderTypes]: only the [text] of a [Source] is read by this class. *)
Definition EventData := JSON.
Definition CallLog := JSON.
Inductive Mode := none | recording | inspecting.
Record Source := { text : string; sourceRest : JSON }.

Definition Error := string.

(** A settled promise. *)
Inductive Outcome (A : Type) :=
| Resolved (a : A)
| Rejected (e : Error).
Arguments Resolved {A} a.
Arguments Rejected {A} e.

(** JavaScript truthiness of [process.env.NAME]: set, and not empty. *)
Definition truthy (v : option string) : bool :=
  match v with
  | Some (String _ _) => true
  | _ => false
  end.

(** The functions the page hooks evaluate inside the window. *)
Inductive PageCall :=
| playwrightSetMode (mode : Mode)
| playwrightSetFile (file : string)
| playwrightSetPaused (paused : bool)
| playwrightSetSources (sources : list Source)
| playwrightSetSelector (selector : string) (focus : option bool)
| playwrightUpdateLogs (callLogs : list CallLog).

(** The three closures [_init] hands to the page. *)
Inductive RouteHandler := serveRecorderAssets.   (* lines 58-74 *)
Inductive Binding := relayDispatch.              (* line 76 *)
Inductive PageListener := onPageClose.           (* lines 78-81 *)

#[global] Instance PageListener_eq_dec : EqDecision PageListener.
Proof. solve_decision. Defined.

Record LaunchOptions := {
  channel : option string;
  executablePath : option string;
  sdkLanguage : string;
  args : list string;
  noDefaultViewport : bool;
  headless : bool;
  useWebSocket : bool
}.

Record Response := {
  status : N;
  headers : list (string * option string);
  body : string;
  isBase64 : bool
}.

(** Every call the class makes into the automation engine. *)
Inductive EngineCall :=
| LaunchPersistentContext (userDataDir : string) (options : LaunchOptions)
| LoadDefaultContextAsIs
| InstallAppIcon
| SetServerRequestInterceptor (handler : RouteHandler)
| ExposeBinding (name : string) (needsHandle : bool) (handler : Binding)
| Goto (url : string)
| Eval (call : PageCall)
| ContextClose
| BringToFront
| RouteFulfill (response : Response)
| RouteContinue.

(** The inspected context, as far as [open] reads it. *)
Record BrowserContext := {
  isChromium : bool;
  browserChannel : option string;
  customExecutablePath : option string;
  headful : bool;
  contextSdkLanguage : string
}.

(** A listener of the controller is a function of the host, known here by
    its identity. *)
Definition Listener := nat.
Abbreviation Notification := (string * list EventData)%type.

(** A function handed over as an argument, as ['newListener'] does with the
    listener being added, stands for itself: it is passed by its identity. *)
Definition listenerRef (l : Listener) : EventData := JNumber (N.of_nat l).

(** The state the class and its collaborators share. *)
Record World := {
  calls : list EngineCall;
  app : EventEmitter.t Listener;
  emitted : list Notification;
  delivered : list (Listener * Notification);
  pageListeners : EventEmitter.t PageListener;
  interceptor : option RouteHandler;
  bindings : gmap string Binding;
  pageClosed : bool;
  window : list PageCall;
  stdout : list string;
  stderr : list Error
}.

(** The host process: environment, file system, module resolution, and the
    listeners it subscribes to the controller.  A listener that is called
    with a notification returns, or throws ([react]); it may decide by what
    has happened so far.  What else a listener does is its own business; a
    listener that calls back into the controller is not modelled. *)
Record Host := {
  env : string -> option string;
  isUnderTest : bool;
  existsAsync : string -> bool;
  defaultExecutablePath : option string -> string;
  require_resolve : string -> Outcome string;
  readFile : string -> Outcome (list byte);
  extname : string -> string;
  react : World -> Listener -> Notification -> option Error
}.

(** The engine settles each call as it likes, and knows the endpoint. *)
Record Engine := {
  settle : World -> EngineCall -> option Error;
  browserWsEndpoint : option string
}.

Definition Promise (A : Type) : Type := World -> Outcome A * World.

(* ===================================================================== *)
(** ** World updates and the promise monad *)
(* ===================================================================== *)

Definition logCall (c : EngineCall) (w : World) : World :=
  Build_World (calls w ++ [c]) (app w) (emitted w) (delivered w) (pageListeners w)
    (interceptor w) (bindings w) (pageClosed w) (window w) (stdout w) (stderr w).

Definition setApp (a : EventEmitter.t Listener) (w : World) : World :=
  Build_World (calls w) a (emitted w) (delivered w) (pageListeners w)
    (interceptor w) (bindings w) (pageClosed w) (window w) (stdout w) (stderr w).

(** An emission of the controller, and a call of one of its listeners. *)
Definition logEmission (n : Notification) (w : World) : World :=
  Build_World (calls w) (app w) (emitted w ++ [n]) (delivered w) (pageListeners w)
    (interceptor w) (bindings w) (pageClosed w) (window w) (stdout w) (stderr w).

Definition logDeliveries (ds : list (Listener * Notification)) (w : World) : World :=
  Build_World (calls w) (app w) (emitted w) (delivered w ++ ds)
    (pageListeners w) (interceptor w) (bindings w) (pageClosed w) (window w)
    (stdout w) (stderr w).

Definition logDelivery (l : Listener) (n : Notification) : World -> World :=
  logDeliveries [(l, n)].

Definition setPageListeners (p : EventEmitter.t PageListener) (w : World) : World :=
  Build_World (calls w) (app w) (emitted w) (delivered w) p
    (interceptor w) (bindings w) (pageClosed w) (window w) (stdout w) (stderr w).

Definition setInterceptor (h : RouteHandler) (w : World) : World :=
  Build_World (calls w) (app w) (emitted w) (delivered w) (pageListeners w)
    (Some h) (bindings w) (pageClosed w) (window w) (stdout w) (stderr w).

Definition addBinding (name : string) (b : Binding) (w : World) : World :=
  Build_World (calls w) (app w) (emitted w) (delivered w) (pageListeners w)
    (interceptor w) (<[name := b]> (bindings w)) (pageClosed w) (window w)
    (stdout w) (stderr w).

Definition markPageClosed (w : World) : World :=
  Build_World (calls w) (app w) (emitted w) (delivered w) (pageListeners w)
    (interceptor w) (bindings w) true (window w) (stdout w) (stderr w).

Definition reachWindow (c : PageCall) (w : World) : World :=
  Build_World (calls w) (app w) (emitted w) (delivered w) (pageListeners w)
    (interceptor w) (bindings w) (pageClosed w) (window w ++ [c]) (stdout w)
    (stderr w).

(** [process.stdout.write(chunk)] *)
Definition stdout_write (chunk : string) (w : World) : World :=
  Build_World (calls w) (app w) (emitted w) (delivered w) (pageListeners w)
    (interceptor w) (bindings w) (pageClosed w) (window w) (stdout w ++ [chunk])
    (stderr w).

(** [console.error(e)] *)
Definition console_error (e : Error) (w : World) : World :=
  Build_World (calls w) (app w) (emitted w) (delivered w) (pageListeners w)
    (interceptor w) (bindings w) (pageClosed w) (window w) (stdout w)
    (stderr w ++ [e]).

(** A world in which nothing has happened yet. *)
Definition pristine : World :=
  Build_World [] EventEmitter.create [] [] EventEmitter.create None ∅ false [] [] [].

Definition ret {A} (a : A) : Promise A := fun w => (Resolved a, w).

Definition throw {A} (e : Error) : Promise A := fun w => (Rejected e, w).

(** [await p; k]: a rejection of [p] skips [k]. *)
Definition bind {A B} (p : Promise A) (k : A -> Promise B) : Promise B :=
  fun w =>
    match p w with
    | (Resolved a, w') => k a w'
    | (Rejected e, w') => (Rejected e, w')
    end.

(** [p.catch(handler)] *)
Definition catch {A} (p : Promise A) (handler : Error -> Promise A) : Promise A :=
  fun w =>
    match p w with
    | (Resolved a, w') => (Resolved a, w')
    | (Rejected e, w') => handler e w'
    end.

(** A synchronous effect. *)
Definition effect (f : World -> World) : Promise unit := fun w => (Resolved tt, f w).

(** A settled value of the host, awaited. *)
Definition settled {A} (o : Outcome A) : Promise A := fun w => (o, w).

Declare Scope promise_scope.
Delimit Scope promise_scope with promise.
Notation "'await!' x := p 'in' k" := (bind p (fun x => k))
  (at level 10, x name, p at level 100, k at level 200) : promise_scope.
Notation "p ;; k" := (bind p (fun _ => k))
  (at level 100, k at level 200, right associativity) : promise_scope.
Local Open Scope promise_scope.

(* ===================================================================== *)
(** ** Emitting *)
(* ===================================================================== *)

(** [emitter.emit(type, ...)] of Node, from the copy it takes of the
    listeners of the event: they are called one after the other, in the
    order they were added.  A one-shot listener leaves the emitter right
    before it is called.  A listener that throws ends the emission: the
    listeners after it are not called, and its exception is the exception of
    [emit]. *)
Section Emission.
Context {L : Type} `{EqDecision L}.
Context (emitter : World -> EventEmitter.t L)
        (setEmitter : EventEmitter.t L -> World -> World)
        (invoke : L -> Promise unit).

Definition leave (type : string) (en : EventEmitter.entry L) (w : World) : World :=
  if EventEmitter.isOnce en
  then setEmitter
         (EventEmitter.removeOnce type (EventEmitter.callback en) (emitter w)) w
  else w.

Fixpoint fire (type : string) (ens : list (EventEmitter.entry L)) : Promise unit :=
  match ens with
  | [] => ret tt
  | en :: rest =>
      fun w => (invoke (EventEmitter.callback en) ;; fire type rest) (leave type en w)
  end.

End Emission.

(* ===================================================================== *)
(** ** The class *)
(* ===================================================================== *)

(** Lines 174-185.  The object is only read under what [path.extname]
    returns, which is empty or starts with a dot; no property inherited from
    [Object.prototype] has such a name, so the ten entries are all a read can
    find. *)
Definition extensionToMime : gmap string string :=
  list_to_map [
    (".css", "text/css");
    (".html", "text/html");
    (".jpeg", "image/jpeg");
    (".js", "application/javascript");
    (".png", "image/png");
    (".ttf", "font/ttf");
    (".svg", "image/svg+xml");
    (".webp", "image/webp");
    (".woff", "font/woff");
    (".woff2", "font/woff2")
  ].

Definition virtualPrefix : string := "https://playwright/".
Definition entryAddress : string := "https://playwright/index.html".
Definition bundleRoot : string := "../../../web/recorder/".

Definition newline : string := String (ascii_of_nat 10) EmptyString.

(** ['\n-------------8<-------------\n'] *)
Definition delimiter : string :=
  (newline ++ "-------------8<-------------" ++ newline)%string.

(** [s.substring(n)] *)
Definition substringFrom (n : nat) (s : string) : string :=
  String.substring n (String.length s - n) s.

(** What the caller of [open] holds. *)
Record RecorderApp := { wsEndpoint : option string }.

Section Controller.
Context (host : Host) (engine : Engine).

(** A call is logged, then settled by the engine. *)
Definition issue (c : EngineCall) : Promise unit :=
  fun w =>
    match settle engine w c with
    | None => (Resolved tt, logCall c w)
    | Some e => (Rejected e, logCall c w)
    end.

(** A listener of the host is called with a notification: it returns, or
    throws. *)
Definition callListener (n : Notification) (l : Listener) : Promise unit :=
  fun w =>
    match react host w l n with
    | None => (Resolved tt, logDelivery l n w)
    | Some e => (Rejected e, logDelivery l n w)
    end.

(** What Node throws for an ['error'] event that nobody listens to. *)
Definition unhandledError : Error := "ERR_UNHANDLED_ERROR".

(** [this.emit(type, ...args)], inherited from [EventEmitter]: the listeners
    of [type] are called as [fire] has it; the result tells whether there
    was one.  An exception of a listener is an exception of [emit]; and so is
    an ['error'] event that has no listener, which the class never emits. *)
Definition emit (type : string) (args : list EventData) : Promise bool :=
  fun w =>
    let ens := EventEmitter.registered type (app w) in
    (fire app setApp (callListener (type, args)) type ens ;;
     match ens with
     | [] => if String.eqb type "error" then throw unhandledError else ret false
     | _ => ret true
     end)
      (logEmission (type, args) w).

(** [this.on(type, listener)], inherited from [EventEmitter]: when there are
    listeners of ['newListener'], that event is emitted first, with the name
    of the event and the listener; then the listener is appended.  An
    exception of a ['newListener'] listener leaves [on] before the listener
    is added. *)
Definition on (type : string) (listener : Listener) : Promise unit :=
  (fun w =>
     match EventEmitter.registered "newListener" (app w) with
     | [] => ret tt w
     | _ => (emit "newListener" [JString type; listenerRef listener] ;; ret tt) w
     end) ;;
  effect (fun w => setApp (EventEmitter.on type listener (app w)) w).

(** Lines 78-81.  When [this.emit('close')] throws, line 80 is not reached.
    The close of the context is not awaited; its rejection goes to
    [console.error].  The page is closed when this runs, so the engine has no
    window left to close (see [runPageListener_calling]). *)
Definition runPageListener (l : PageListener) : Promise unit :=
  match l with
  | onPageClose =>
      emit "close" [] ;;
      effect (fun w =>
        snd (catch (issue ContextClose) (fun e => effect (console_error e)) w))
  end.

(** Modelled from the spec: [Page] is not among the sources; it is an
    [EventEmitter] too.  When the window closes the page emits its own
    [close] event, which calls the listeners subscribed to it as [fire] has
    it.  An exception of a listener stays with the engine, whose code made
    the emission. *)
Definition pageEmitClose (w : World) : World :=
  snd (fire pageListeners setPageListeners runPageListener "close"
         (EventEmitter.registered "close" (pageListeners w))
         (markPageClosed w)).

(** Modelled from the spec: what a call that the engine resolves does on the
    engine's side.  Closing the context tears the session down, which closes
    the window when it is still open. *)
Definition engineEffect (c : EngineCall) (w : World) : World :=
  match c with
  | SetServerRequestInterceptor h => setInterceptor h w
  | ExposeBinding name _ b => addBinding name b w
  | Eval pc => reachWindow pc w
  | ContextClose => if pageClosed w then w else pageEmitClose w
  | _ => w
  end.

Definition call (c : EngineCall) : Promise unit :=
  issue c ;; effect (engineEffect c).

(** Lines 51-53. *)
Definition close : Promise unit := call ContextClose.

(** Lines 58-74. *)
Definition serveRequest (url : string) : Promise unit :=
  if String.prefix virtualPrefix url then
    let uri := substringFrom (String.length virtualPrefix) url in
    await! file := settled (require_resolve host (bundleRoot ++ uri)%string) in
    await! buffer := settled (readFile host file) in
    call (RouteFulfill {|
      status := 200;
      headers := [("Content-Type", extensionToMime !! extname host file)];
      body := Base64.encode buffer;
      isBase64 := true
    |})
  else
    call RouteContinue.

Definition runRouteHandler (h : RouteHandler) (url : string) : Promise unit :=
  match h with
  | serveRecorderAssets => serveRequest url
  end.

(** Line 76. *)
Definition runBinding (b : Binding) (data : EventData) : Promise bool :=
  match b with
  | relayDispatch => emit "event" [data]
  end.

(** Lines 55-85.  No listener of the page of this model listens to
    ['newListener'], so [page.once] only appends. *)
Definition _init : Promise unit :=
  call InstallAppIcon ;;
  call (SetServerRequestInterceptor serveRecorderAssets) ;;
  call (ExposeBinding "dispatch" false relayDispatch) ;;
  effect (fun w =>
    setPageListeners (EventEmitter.once "close" onPageClose (pageListeners w)) w) ;;
  call (Goto entryAddress).

(** Lines 44-49. *)
Definition new_RecorderApp (ws : option string) : Promise RecorderApp :=
  effect (setApp (EventEmitter.setMaxListeners 0 EventEmitter.create)) ;;
  ret {| wsEndpoint := ws |}.

(** Lines 89-95. *)
Definition launchArgs : list string :=
  ["--app=data:text/html,"; "--window-size=600,600"; "--window-position=1280,10"]
  ++ match env host "PWTEST_RECORDER_PORT" with
     | Some (String c port) =>
         ["--remote-debugging-port=" ++ String c port]%string
     | _ => []
     end.

(** Lines 96-112. *)
Definition launchOptions (inspectedContext : BrowserContext) : LaunchOptions :=
  let channel :=
    if isChromium inspectedContext then browserChannel inspectedContext else None in
  let executablePath :=
    if isChromium inspectedContext then
      if existsAsync host (defaultExecutablePath host channel) then None
      else customExecutablePath inspectedContext
    else None in
  {| channel := channel;
     executablePath := executablePath;
     sdkLanguage := contextSdkLanguage inspectedContext;
     args := launchArgs;
     noDefaultViewport := true;
     headless := truthy (env host "PWTEST_CLI_HEADLESS")
                 || (isUnderTest host && negb (headful inspectedContext));
     useWebSocket := truthy (env host "PWTEST_RECORDER_PORT") |}.

(** Modelled from the spec: [ProgressController.run] is not among the
    sources.  It runs its task and rejects when the task does: a failure
    while the default context loads aborts the bootstrap. *)
Definition controller_run {A} (task : Promise A) : Promise A := task.

(** Lines 87-122. *)
Definition open (inspectedContext : BrowserContext) : Promise RecorderApp :=
  call (LaunchPersistentContext EmptyString (launchOptions inspectedContext)) ;;
  controller_run (call LoadDefaultContextAsIs) ;;
  await! result := new_RecorderApp (browserWsEndpoint engine) in
  _init ;;
  ret result.

(** [.catch(() => {})] *)
Definition swallow (p : Promise unit) : Promise unit :=
  catch p (fun _ => ret tt).

(** Lines 124-128. *)
Definition setMode (mode : Mode) : Promise unit :=
  swallow (call (Eval (playwrightSetMode mode))).

(** Lines 130-134. *)
Definition setFile (file : string) : Promise unit :=
  swallow (call (Eval (playwrightSetFile file))).

(** Lines 136-140. *)
Definition setPaused (paused : bool) : Promise unit :=
  swallow (call (Eval (playwrightSetPaused paused))).

(** Lines 142-155.  [sources[0]] of an empty list is [undefined], and reading
    its [text] would throw. *)
Definition setSources (sources : list Source) : Promise unit :=
  swallow (call (Eval (playwrightSetSources sources))) ;;
  if truthy (env host "PWTEST_CLI_EXIT") && negb (Nat.eqb (length sources) 0) then
    match head sources with
    | Some first =>
        effect (stdout_write delimiter) ;;
        effect (stdout_write (text first)) ;;
        effect (stdout_write delimiter)
    | None => throw "TypeError: Cannot read property 'text' of undefined"
    end
  else ret tt.

(** Lines 157-161. *)
Definition setSelector (selector : string) (focus : option bool) : Promise unit :=
  swallow (call (Eval (playwrightSetSelector selector focus))).

(** Lines 163-167. *)
Definition updateCallLogs (callLogs : list CallLog) : Promise unit :=
  swallow (call (Eval (playwrightUpdateLogs callLogs))).

(** Lines 169-171. *)
Definition bringToFront : Promise unit := call BringToFront.

End Controller.

(* ===================================================================== *)
(** ** The event loop *)
(* ===================================================================== *)

(** What reaches the class from the window, ... *)
Inductive Signal :=
| WindowClosed
| DispatchCalled (data : EventData)
| RequestIssued (url : string).

(** ... and what its owner asks of it. *)
Inductive HostCall :=
| CallClose
| CallSetMode (mode : Mode)
| CallSetFile (file : string)
| CallSetPaused (paused : bool)
| CallSetSources (sources : list Source)
| CallSetSelector (selector : string) (focus : option bool)
| CallUpdateCallLogs (callLogs : list CallLog)
| CallBringToFront
| CallOn (type : string) (listener : Listener).

Inductive Turn :=
| FromWindow (s : Signal)
| FromHost (c : HostCall).

Section EventLoop.
Context (host : Host) (engine : Engine).

Definition signal (s : Signal) (w : World) : World :=
  match s with
  | WindowClosed => pageEmitClose host engine w
  | DispatchCalled data =>
      match bindings w !! "dispatch" with
      | Some b => snd (runBinding host b data w)
      | None => w
      end
  | RequestIssued url =>
      match interceptor w with
      | Some h => snd (runRouteHandler host engine h url w)
      | None => w
      end
  end.

Definition method (c : HostCall) : Promise unit :=
  match c with
  | CallClose => close host engine
  | CallSetMode mode => setMode host engine mode
  | CallSetFile file => setFile host engine file
  | CallSetPaused paused => setPaused host engine paused
  | CallSetSources sources => setSources host engine sources
  | CallSetSelector selector focus => setSelector host engine selector focus
  | CallUpdateCallLogs callLogs => updateCallLogs host engine callLogs
  | CallBringToFront => bringToFront host engine
  | CallOn type listener => on host type listener
  end.

Definition turn (t : Turn) (w : World) : World :=
  match t with
  | FromWindow s => signal s w
  | FromHost c => snd (method c w)
  end.

(** Turns run one after the other, each to completion. *)
Definition run (ts : list Turn) (w : World) : World :=
  fold_left (fun w t => turn t w) ts w.

End EventLoop.

(** The notifications of one type, and their payloads. *)
Definition ofType (type : string) (ns : list Notification) : list Notification :=
  filter (fun n => n.1 = type) ns.

Definition closeCount (w : World) : nat := length (ofType "close" (emitted w)).

Definition dispatched (ts : list Turn) : list EventData :=
  omap (fun t => match t with
                 | FromWindow (DispatchCalled data) => Some data
                 | _ => None
                 end) ts.

(** The calls a run issued on top of those already logged. *)
Definition issuedSince (before after : World) : list EngineCall :=
  drop (length (calls before)) (calls after).

(** The calls of a successful [_init], in order. *)
Definition initCalls : list EngineCall :=
  [ InstallAppIcon;
    SetServerRequestInterceptor serveRecorderAssets;
    ExposeBinding "dispatch" false relayDispatch;
    Goto entryAddress ].

(* ===================================================================== *)
(** ** Signals while [open] is in flight *)
(* ===================================================================== *)

(** [open] and [_init] above run from one await to the next without a signal
    in between.  For a method with a single await, as [close] and the pushes,
    that loses nothing: a signal that arrives during the await is a turn
    right after the method.  [open] has several awaits; here each of them
    takes the signals that arrive while it is pending. *)

Section Opening.
Context (host : Host) (engine : Engine).

Definition signals (ss : list Signal) (w : World) : World :=
  fold_left (fun w s => signal host engine s w) ss w.

Definition awaitWith {A} (ss : list Signal) (p : Promise A) : Promise A :=
  fun w => let '(r, w') := p w in (r, signals ss w').

Definition _initWith (arrivals : nat -> list Signal) : Promise unit :=
  awaitWith (arrivals 2%nat) (call host engine InstallAppIcon) ;;
  awaitWith (arrivals 3%nat)
    (call host engine (SetServerRequestInterceptor serveRecorderAssets)) ;;
  awaitWith (arrivals 4%nat)
    (call host engine (ExposeBinding "dispatch" false relayDispatch)) ;;
  effect (fun w =>
    setPageListeners (EventEmitter.once "close" onPageClose (pageListeners w)) w) ;;
  awaitWith (arrivals 5%nat) (call host engine (Goto entryAddress)).

Definition openWith (arrivals : nat -> list Signal)
    (inspectedContext : BrowserContext) : Promise RecorderApp :=
  awaitWith (arrivals 0%nat)
    (call host engine (LaunchPersistentContext EmptyString
                         (launchOptions host inspectedContext))) ;;
  awaitWith (arrivals 1%nat)
    (controller_run (call host engine LoadDefaultContextAsIs)) ;;
  await! result := new_RecorderApp (browserWsEndpoint engine) in
  _initWith arrivals ;;
  ret result.

End Opening.

(* ===================================================================== *)
(** ** Notions the properties are stated with *)
(* ===================================================================== *)

(** What [setSources] writes for a given switch and source list. *)
Definition diagnosticOutput (switch : option string) (sources : list Source)
  : list string :=
  match sources with
  | first :: _ => if truthy switch then [delimiter; text first; delimiter] else []
  | [] => []
  end.

(** The response the interceptor builds for a bundle file. *)
Definition assetResponse (host : Host) (file : string) (buffer : list byte)
  : Response := {|
  status := 200;
  headers := [("Content-Type", extensionToMime !! extname host file)];
  body := Base64.encode buffer;
  isBase64 := true
|}.

(** The world [_init] leaves behind when its [k]-th call is the last one it
    issued. *)
Definition initWorld (k : nat) (w : World) : World :=
  let w1 := logCall InstallAppIcon w in
  let w2 := logCall (SetServerRequestInterceptor serveRecorderAssets) w1 in
  let w3 := logCall (ExposeBinding "dispatch" false relayDispatch)
              (setInterceptor serveRecorderAssets w2) in
  let w4 := logCall (Goto entryAddress)
              (setPageListeners
                 (EventEmitter.once "close" onPageClose (pageListeners w3))
                 (addBinding "dispatch" relayDispatch w3)) in
  match k with
  | 1 => w1
  | 2 => w2
  | 3 => w3
  | _ => w4
  end%nat.



(** The first call of [open]. *)
Definition launchCall (host : Host) (inspectedContext : BrowserContext)
  : EngineCall :=
  LaunchPersistentContext EmptyString (launchOptions host inspectedContext).

(** The world in which [open] constructs the [RecorderApp] and starts
    [_init]. *)
Definition bootWorld (host : Host) (inspectedContext : BrowserContext)
    (w : World) : World :=
  setApp (EventEmitter.setMaxListeners 0 EventEmitter.create)
         (logCall LoadDefaultContextAsIs
            (logCall (launchCall host inspectedContext) w)).

(** No listener of the emitter is one-shot. *)
Definition plain {L} (e : EventEmitter.t L) : Prop :=
  forall type,
    Forall (fun en => EventEmitter.isOnce en = false) (EventEmitter.registered type e).

(** The listeners of an event of the controller. *)
Definition hearers (w : World) (type : string) : list Listener :=
  EventEmitter.listeners type (app w).

(** Subscriptions, in order. *)
Definition subscribe {L} (subs : list (string * L)) (e : EventEmitter.t L)
  : EventEmitter.t L :=
  fold_left (fun e s => EventEmitter.on s.1 s.2 e) subs e.

Definition subscribedTo {L} (type : string) (subs : list (string * L)) : list L :=
  map snd (filter (fun s => s.1 = type) subs).

Definition subscriptions (subs : list (string * Listener)) : list Turn :=
  map (fun s => FromHost (CallOn s.1 s.2)) subs.

(** The part of the world the lifecycle depends on: the page, the bindings,
    and the [close] and [event] notifications emitted so far. *)
Definition life (w : World)
  : EventEmitter.t PageListener * bool * gmap string Binding
    * list Notification * list Notification :=
  (pageListeners w, pageClosed w, bindings w,
   ofType "close" (emitted w), ofType "event" (emitted w)).

(** Everything but the emitter of the controller and the record of the
    calls of its listeners. *)
Definition outside (w : World) :=
  (calls w, emitted w, pageListeners w, interceptor w, bindings w, pageClosed w,
   window w, stdout w, stderr w).

(** A listener that returns whenever it is called with a notification, one
    that throws whenever it is, and one that returns whatever it is called
    with. *)
Definition returns (host : Host) (n : Notification) (l : Listener) : Prop :=
  forall w, react host w l n = None.

Definition throws (host : Host) (n : Notification) (l : Listener) : Prop :=
  forall w, react host w l n <> None.

Definition obliging (host : Host) (l : Listener) : Prop :=
  forall w n, react host w l n = None.

(** The listeners waiting for the page to close. *)
Definition pending (w : World) : list (EventEmitter.entry PageListener) :=
  EventEmitter.registered "close" (pageListeners w).

Definition closeNote : Notification := ("close", []).
Definition eventNote (data : EventData) : Notification := ("event", [data]).
Definition newListenerNote (type : string) (l : Listener) : Notification :=
  ("newListener", [JString type; listenerRef l]).

Definition closeListener : EventEmitter.entry PageListener :=
  EventEmitter.Entry onPageClose true.

(** The listener of lines 78-81 with the engine's side of its call to
    [context().close()] spelled out; on a closed page this is
    [runPageListener] (see [runPageListener_calling]). *)
Definition runPageListenerCalling (host : Host) (engine : Engine)
    (l : PageListener) : Promise unit :=
  match l with
  | onPageClose =>
      emit host "close" [] ;;
      effect (fun w =>
        snd (catch (call host engine ContextClose)
                   (fun e => effect (console_error e)) w))
  end.

(** The single-shot guard: what is waiting is one-shot, and what is waiting
    plus what has fired is at most one. *)
Definition guarded (w : World) : Prop :=
  Forall (fun en => EventEmitter.isOnce en = true) (pending w)
  /\ (closeCount w + length (pending w) <= 1)%nat.

(** The guard of a controller that [open] has handed out: the listener waits
    as long as the page is open, and has fired once it is closed. *)
Definition armed (w : World) : Prop :=
  guarded w
  /\ (if pageClosed w then closeCount w = 1%nat else length (pending w) = 1%nat).

(** Nothing waiting and nothing fired: the state before the listener is
    subscribed. *)
Definition unarmed (w : World) : Prop :=
  pending w = [] /\ closeCount w = 0%nat.

(** Calls that touch neither the page listeners, the bindings nor the
    emitter. *)
Definition quietCall (c : EngineCall) : bool :=
  match c with
  | ContextClose | ExposeBinding _ _ _ => false
  | _ => true
  end.

(* ===================================================================== *)
(** ** Sample hosts and engines *)
(* ===================================================================== *)

(** A host whose bundle holds [index.html] and [notes.txt], and whose
    listeners return. *)
Definition sampleHost : Host := {|
  env := fun name => if String.eqb name "PWTEST_CLI_EXIT" then Some "1" else None;
  isUnderTest := true;
  existsAsync := fun _ => true;
  defaultExecutablePath := fun _ => "/opt/chromium/chrome";
  require_resolve := fun request =>
    if String.eqb request "../../../web/recorder/index.html"
    then Resolved "/lib/web/recorder/index.html"
    else if String.eqb request "../../../web/recorder/notes.txt"
    then Resolved "/lib/web/recorder/notes.txt"
    else Rejected "Cannot find module";
  readFile := fun file =>
    if String.eqb file "/lib/web/recorder/index.html"
    then Resolved ["<"; "p"; ">"]%byte
    else if String.eqb file "/lib/web/recorder/notes.txt"
    then Resolved ["h"; "i"]%byte
    else Rejected "ENOENT";
  extname := fun file =>
    if String.eqb file "/lib/web/recorder/index.html" then ".html"
    else if String.eqb file "/lib/web/recorder/notes.txt" then ".txt"
    else EmptyString;
  react := fun _ _ _ => None
|}.

(** The same host without the diagnostic switch. *)
Definition quietHost : Host := {|
  env := fun _ => None;
  isUnderTest := isUnderTest sampleHost;
  existsAsync := existsAsync sampleHost;
  defaultExecutablePath := defaultExecutablePath sampleHost;
  require_resolve := require_resolve sampleHost;
  readFile := readFile sampleHost;
  extname := extname sampleHost;
  react := react sampleHost
|}.

(** An engine that resolves every call. *)
Definition obligingEngine : Engine :=
  {| settle := fun _ _ => None; browserWsEndpoint := None |}.

(** An engine that rejects every call. *)
Definition brokenEngine : Engine :=
  {| settle := fun _ _ => Some "Target closed"; browserWsEndpoint := None |}.

(** An engine that launches, then fails to load the default context. *)
Definition stallingEngine : Engine :=
  {| settle := fun _ c =>
       match c with
       | LaunchPersistentContext _ _ => None
       | _ => Some "Protocol error"
       end;
     browserWsEndpoint := None |}.

(** An engine that rejects whatever is asked of a closed page. *)
Definition strictEngine : Engine :=
  {| settle := fun w c =>
       match c with
       | Eval _ | BringToFront | Goto _ =>
           if pageClosed w then Some "Target closed" else None
       | _ => None
       end;
     browserWsEndpoint := Some "ws://127.0.0.1:9222/devtools" |}.

Definition sampleContext : BrowserContext := {|
  isChromium := true;
  browserChannel := None;
  customExecutablePath := None;
  headful := true;
  contextSdkLanguage := "javascript"
|}.

(** The world once [open] has resolved on the strict engine. *)
Definition readyWorld : World :=
  snd (open sampleHost strictEngine sampleContext pristine).

Definition someSource : Source := {| text := "page.click()"; sourceRest := JNull |}.


(** An explicit close, the window's own close signal, and a second explicit
    close. *)
Definition race : list Turn :=
  [ FromHost CallClose; FromWindow WindowClosed; FromHost CallClose ].

(** The world after the window has closed by itself. *)
Definition closedWorld : World :=
  run sampleHost strictEngine [FromWindow WindowClosed] readyWorld.

(* ===================================================================== *)
(** ** Notions of the further properties *)
(* ===================================================================== *)

(** The push that evaluates a given window hook. *)
Definition pushOf (pc : PageCall) : HostCall :=
  match pc with
  | playwrightSetMode mode => CallSetMode mode
  | playwrightSetFile file => CallSetFile file
  | playwrightSetPaused paused => CallSetPaused paused
  | playwrightSetSources sources => CallSetSources sources
  | playwrightSetSelector selector focus => CallSetSelector selector focus
  | playwrightUpdateLogs callLogs => CallUpdateCallLogs callLogs
  end.

Definition pushes (pcs : list PageCall) : list Turn :=
  map (fun pc => FromHost (pushOf pc)) pcs.

(** What a turn writes to the output stream. *)
Definition written (host : Host) (t : Turn) : list string :=
  match t with
  | FromHost (CallSetSources sources) =>
      diagnosticOutput (env host "PWTEST_CLI_EXIT") sources
  | _ => []
  end.

(** The world in which the close listener is called: the page is closed and
    the listener has left it. *)
Definition firingWorld (w : World) : World :=
  setPageListeners
    (EventEmitter.removeOnce "close" onPageClose (pageListeners w))
    (markPageClosed w).

(** The outcome of [this.emit('close')] on line 79, and the world it leaves:
    the one in which the listener calls [context().close()], if it gets
    there. *)
Definition closeEmission (host : Host) (w : World) : Outcome bool * World :=
  emit host "close" [] (firingWorld w).

(** What [console.error] receives from a settled promise. *)
Definition reported (o : option Error) : list Error :=
  match o with
  | Some e => [e]
  | None => []
  end.

(** How often a listener occurs among listeners. *)
Definition times (l : Listener) (ls : list Listener) : nat :=
  length (filter (fun l' => l' = l) ls).

(** The notifications a listener has been called with, oldest first. *)
Definition received (l : Listener) (w : World) : list Notification :=
  map snd (filter (fun d => d.1 = l) (delivered w)).

(** The calls that emitting [notes] makes on the listeners [hs]. *)
Definition audience (hs : string -> list Listener) (notes : list Notification)
  : list (Listener * Notification) :=
  flat_map (fun n => map (fun l => (l, n)) (hs n.1)) notes.

Definition subscriptionOf (t : Turn) : list (string * Listener) :=
  match t with
  | FromHost (CallOn type l) => [(type, l)]
  | _ => []
  end.

Definition emittedSince (before after : World) : list Notification :=
  drop (length (emitted before)) (emitted after).

(** What a listener receives when every notification reaches every listener
    of its event. *)
Definition share (l : Listener) (hs : string -> list Listener)
    (notes : list Notification) : list Notification :=
  flat_map (fun n => repeat n (times l (hs n.1))) notes.

(** The notifications the controller emits: the two of the class, and the
    one of [on]. *)
Definition knownNote (n : Notification) : Prop :=
  n = closeNote
  \/ (exists data, n = eventNote data)
  \/ (exists type l, n = newListenerNote type l).

(** None of the listeners of the controller ever throws. *)
Definition polite (host : Host) (w : World) : Prop :=
  forall type l, In l (hearers w type) -> obliging host l.

(** From [w] to [w'] the controller has emitted [notes], and no listener
    has come or gone: each notification has reached a first part of the
    listeners of its event, and all of them if none of the listeners
    throws. *)
Definition heard (host : Host) (w w' : World) (notes : list Notification) : Prop :=
  emitted w' = emitted w ++ notes
  /\ plain (app w')
  /\ (forall type, hearers w' type = hearers w type)
  /\ exists ds,
       delivered w' = delivered w ++ ds
       /\ (forall l, map snd (filter (fun d => d.1 = l) ds)
                     `sublist_of` share l (hearers w) notes)
       /\ (polite host w -> ds = audience (hearers w) notes).

(** The listeners the turns of a run subscribe. *)
Definition subscribing (ts : list Turn) : list Listener :=
  map snd (flat_map subscriptionOf ts).

(** The arguments every launch passes. *)
Definition baseArgs : list string :=
  ["--app=data:text/html,"; "--window-size=600,600"; "--window-position=1280,10"].

(** The calls of a successful [open], in order. *)
Definition openCalls (host : Host) (inspectedContext : BrowserContext)
  : list EngineCall :=
  launchCall host inspectedContext :: LoadDefaultContextAsIs :: initCalls.

(** The calls that [open] and the methods issue themselves, as opposed to
    those of the route handler and of the close listener. *)
Definition own (c : EngineCall) : bool :=
  match c with
  | RouteFulfill _ | RouteContinue | ContextClose => false
  | _ => true
  end.

Definition ownCalls (w : World) : list EngineCall :=
  filter (fun c => own c = true) (calls w).

(** What [open] does by itself right before its call number [k], counting
    from 0: it constructs the controller before it installs the icon, and
    subscribes the close listener before it navigates. *)
Definition betweenCalls (k : nat) (w : World) : World :=
  match k with
  | 2%nat => setApp (EventEmitter.setMaxListeners 0 EventEmitter.create) w
  | 5%nat =>
      setPageListeners (EventEmitter.once "close" onPageClose (pageListeners w)) w
  | _ => w
  end.

(** The world in which [open] issues its call number [k], counting from 0,
    when the engine has carried out the calls before it; [arrivals j] are the
    signals that arrive while call [j] is pending. *)
Fixpoint stage (host : Host) (engine : Engine) (arrivals : nat -> list Signal)
    (inspectedContext : BrowserContext) (k : nat) : World :=
  match k with
  | O => pristine
  | S j =>
      match openCalls host inspectedContext !! j with
      | Some c =>
          betweenCalls (S j)
            (signals host engine (arrivals j)
               (engineEffect host engine c
                  (logCall c (stage host engine arrivals inspectedContext j))))
      | None => stage host engine arrivals inspectedContext j
      end
  end.

(* ===================================================================== *)
(** ** Further sample hosts and engines *)
(* ===================================================================== *)

(** The sample host with a bundle file it may not read. *)
Definition lockedHost : Host := {|
  env := env sampleHost;
  isUnderTest := isUnderTest sampleHost;
  existsAsync := existsAsync sampleHost;
  defaultExecutablePath := defaultExecutablePath sampleHost;
  require_resolve := fun request =>
    if String.eqb request "../../../web/recorder/app.js"
    then Resolved "/lib/web/recorder/app.js"
    else require_resolve sampleHost request;
  readFile := fun file =>
    if String.eqb file "/lib/web/recorder/app.js"
    then Rejected "EACCES"
    else readFile sampleHost file;
  extname := extname sampleHost;
  react := react sampleHost
|}.

(** The sample host with a listener, number 13, that throws whenever it is
    called. *)
Definition touchyHost : Host := {|
  env := env sampleHost;
  isUnderTest := isUnderTest sampleHost;
  existsAsync := existsAsync sampleHost;
  defaultExecutablePath := defaultExecutablePath sampleHost;
  require_resolve := require_resolve sampleHost;
  readFile := readFile sampleHost;
  extname := extname sampleHost;
  react := fun _ l _ => if Nat.eqb l 13 then Some "boom" else None
|}.

(** The window calls the binding while [open] exposes it, and asks for a
    page while [open] navigates. *)
Definition busyArrivals (k : nat) : list Signal :=
  match k with
  | 4%nat => [DispatchCalled JNull]
  | 5%nat => [RequestIssued "https://playwright/index.html"]
  | _ => []
  end.

(** An engine that carries out everything but the close of the context. *)
Definition stubbornEngine : Engine :=
  {| settle := fun _ c =>
       match c with
       | ContextClose => Some "Browser has been closed"
       | _ => None
       end;
     browserWsEndpoint := None |}.

(* ===================================================================== *)
(** ** Properties: base64 *)
(* ===================================================================== *)

Module Base64Facts.
Import Base64.

Lemma all_bytes_nth (b : byte) :
  nth_error all_bytes (N.to_nat (Byte.to_N b)) = Some b.
Proof. destruct b; vm_compute; reflexivity. Qed.

Lemma for_all_bytes_spec (p : byte -> bool) :
  for_all_bytes p = true -> forall b, p b = true.
Proof.
  unfold for_all_bytes. intros H b.
  rewrite forallb_forall in H. apply H.
  eapply nth_error_In, all_bytes_nth.
Qed.

Lemma digit_value (n : N) : n < 64 -> value (digit n) = Some n.
Proof.
  intros Hn.
  assert (Hall : forallb (fun k => match value (digit (N.of_nat k)) with
                                   | Some m => N.eqb m (N.of_nat k)
                                   | None => false
                                   end) (seq 0 64) = true)
    by (vm_compute; reflexivity).
  rewrite forallb_forall in Hall.
  specialize (Hall (N.to_nat n)).
  rewrite N2Nat.id in Hall.
  destruct (value (digit n)) as [m|].
  - f_equal. apply N.eqb_eq, Hall, in_seq. lia.
  - discriminate Hall. apply in_seq. lia.
Qed.

Lemma digit_not_pad (n : N) : n < 64 -> Ascii.eqb (digit n) pad = false.
Proof.
  intros Hn.
  assert (Hall : forallb (fun k => negb (Ascii.eqb (digit (N.of_nat k)) pad))
                         (seq 0 64) = true)
    by (vm_compute; reflexivity).
  rewrite forallb_forall in Hall.
  specialize (Hall (N.to_nat n)).
  rewrite N2Nat.id in Hall.
  apply negb_true_iff, Hall, in_seq. lia.
Qed.

(** Facts about one group, checked over all octets. *)

Lemma sextet1_lt (a : byte) : sextet1 a < 64.
Proof.
  apply N.ltb_lt. revert a. apply for_all_bytes_spec.
  vm_compute; reflexivity.
Qed.

Lemma sextet4_lt (c : byte) : sextet4 c < 64.
Proof.
  apply N.ltb_lt. revert c. apply for_all_bytes_spec.
  vm_compute; reflexivity.
Qed.

Lemma sextet2_lt (a b : byte) : sextet2 a b < 64.
Proof.
  apply N.ltb_lt. revert b.
  apply (for_all_bytes_spec (fun b => N.ltb (sextet2 a b) 64)).
  revert a.
  apply (for_all_bytes_spec
           (fun a => for_all_bytes (fun b => N.ltb (sextet2 a b) 64))).
  vm_compute; reflexivity.
Qed.

Lemma sextet3_lt (b c : byte) : sextet3 b c < 64.
Proof.
  apply N.ltb_lt. revert c.
  apply (for_all_bytes_spec (fun c => N.ltb (sextet3 b c) 64)).
  revert b.
  apply (for_all_bytes_spec
           (fun b => for_all_bytes (fun c => N.ltb (sextet3 b c) 64))).
  vm_compute; reflexivity.
Qed.

Lemma is_byte_spec (o : option byte) (b : byte) : is_byte o b = true -> o = Some b.
Proof.
  destruct o as [b'|]; simpl; [|discriminate].
  intros H. f_equal. now apply Byte.byte_dec_bl.
Qed.

Lemma octet1_sextets (a b : byte) : octet1 (sextet1 a) (sextet2 a b) = Some a.
Proof.
  apply is_byte_spec. revert b.
  apply (for_all_bytes_spec
           (fun b => is_byte (octet1 (sextet1 a) (sextet2 a b)) a)).
  revert a.
  apply (for_all_bytes_spec
           (fun a => for_all_bytes
                       (fun b => is_byte (octet1 (sextet1 a) (sextet2 a b)) a))).
  vm_compute; reflexivity.
Qed.

(** The second octet mixes three input octets; it is checked in two halves. *)
Lemma sextet2_low (a b : byte) :
  N.land (sextet2 a b) 15 = N.shiftr (Byte.to_N b) 4.
Proof.
  apply N.eqb_eq. revert b.
  apply (for_all_bytes_spec
           (fun b => N.eqb (N.land (sextet2 a b) 15) (N.shiftr (Byte.to_N b) 4))).
  revert a.
  apply (for_all_bytes_spec
           (fun a => for_all_bytes
              (fun b => N.eqb (N.land (sextet2 a b) 15) (N.shiftr (Byte.to_N b) 4)))).
  vm_compute; reflexivity.
Qed.

Lemma sextet3_high (b c : byte) :
  N.shiftr (sextet3 b c) 2 = N.land (Byte.to_N b) 15.
Proof.
  apply N.eqb_eq. revert c.
  apply (for_all_bytes_spec
           (fun c => N.eqb (N.shiftr (sextet3 b c) 2) (N.land (Byte.to_N b) 15))).
  revert b.
  apply (for_all_bytes_spec
           (fun b => for_all_bytes
              (fun c => N.eqb (N.shiftr (sextet3 b c) 2) (N.land (Byte.to_N b) 15)))).
  vm_compute; reflexivity.
Qed.

Lemma nibbles_join (b : byte) :
  Byte.of_N (N.lor (N.shiftl (N.shiftr (Byte.to_N b) 4) 4)
                   (N.land (Byte.to_N b) 15)) = Some b.
Proof.
  apply is_byte_spec. revert b. apply for_all_bytes_spec.
  vm_compute; reflexivity.
Qed.

Lemma octet2_sextets (a b c : byte) : octet2 (sextet2 a b) (sextet3 b c) = Some b.
Proof.
  unfold octet2. rewrite sextet2_low, sextet3_high. apply nibbles_join.
Qed.

Lemma octet3_sextets (b c : byte) : octet3 (sextet3 b c) (sextet4 c) = Some c.
Proof.
  apply is_byte_spec. revert c.
  apply (for_all_bytes_spec
           (fun c => is_byte (octet3 (sextet3 b c) (sextet4 c)) c)).
  revert b.
  apply (for_all_bytes_spec
           (fun b => for_all_bytes
                       (fun c => is_byte (octet3 (sextet3 b c) (sextet4 c)) c))).
  vm_compute; reflexivity.
Qed.

(** Lists are consumed three octets at a time. *)
Lemma list_ind3 {A} (P : list A -> Prop) :
  P [] ->
  (forall a, P [a]) ->
  (forall a b, P [a; b]) ->
  (forall a b c l, P l -> P (a :: b :: c :: l)) ->
  forall l, P l.
Proof.
  intros H0 H1 H2 H3.
  assert (Hall : forall l,
             P l /\ (forall a, P (a :: l)) /\ (forall a b, P (a :: b :: l))).
  { induction l as [|x l (IH0 & IH1 & IH2)].
    - repeat split; auto.
    - repeat split; auto. }
  intros l. apply Hall.
Qed.

Lemma decode_encode_list (bs : list byte) :
  decode_list (encode_list bs) = Some bs.
Proof.
  induction bs as [|a|a b|a b c rest IH] using list_ind3.
  - reflexivity.
  - cbn [encode_list decode_list].
    rewrite (digit_value _ (sextet1_lt a)), (digit_value _ (sextet2_lt a x00)).
    cbn [mbind option_bind]. rewrite octet1_sextets.
    cbn [mbind option_bind]. now rewrite !Ascii.eqb_refl.
  - cbn [encode_list decode_list].
    rewrite (digit_value _ (sextet1_lt a)), (digit_value _ (sextet2_lt a b)).
    cbn [mbind option_bind]. rewrite octet1_sextets.
    cbn [mbind option_bind].
    rewrite (digit_not_pad _ (sextet3_lt b x00)).
    rewrite (digit_value _ (sextet3_lt b x00)).
    cbn [mbind option_bind]. rewrite octet2_sextets.
    cbn [mbind option_bind]. now rewrite Ascii.eqb_refl.
  - cbn [encode_list decode_list].
    rewrite (digit_value _ (sextet1_lt a)), (digit_value _ (sextet2_lt a b)).
    cbn [mbind option_bind]. rewrite octet1_sextets.
    cbn [mbind option_bind].
    rewrite (digit_not_pad _ (sextet3_lt b c)).
    rewrite (digit_value _ (sextet3_lt b c)).
    cbn [mbind option_bind]. rewrite octet2_sextets.
    cbn [mbind option_bind].
    rewrite (digit_not_pad _ (sextet4_lt c)).
    rewrite (digit_value _ (sextet4_lt c)).
    cbn [mbind option_bind]. rewrite octet3_sextets.
    cbn [mbind option_bind]. rewrite IH. reflexivity.
Qed.

(** Decoding the encoded buffer gives the buffer back: the encoding is
    binary-safe. *)
Lemma decode_encode (bs : list byte) : decode (encode bs) = Some bs.
Proof.
  unfold decode, encode.
  rewrite list_ascii_of_string_of_list_ascii. apply decode_encode_list.
Qed.

Lemma encode_inj (bs bs' : list byte) : encode bs = encode bs' -> bs = bs'.
Proof.
  intros H. apply (f_equal decode) in H.
  rewrite !decode_encode in H. congruence.
Qed.

Example encode_foobar :
  encode ["f"; "o"; "o"; "b"; "a"; "r"]%byte = "Zm9vYmFy"
  /\ encode ["f"; "o"; "o"; "b"; "a"]%byte = "Zm9vYmE="
  /\ encode ["f"; "o"; "o"; "b"]%byte = "Zm9vYg=="
  /\ encode [xff; xfe; x00]%byte = "//4A".
Proof. repeat split; reflexivity. Qed.

End Base64Facts.

(* ===================================================================== *)
(** ** Properties: strings and logs *)
(* ===================================================================== *)

Lemma prefix_app (p s : string) : String.prefix p (p ++ s)%string = true.
Proof.
  induction p as [|a p IH]; simpl.
  - now destruct s.
  - destruct (ascii_dec a a) as [_|Hne]; [exact IH | now destruct Hne].
Qed.

Lemma substring_all (s : string) : String.substring 0 (String.length s) s = s.
Proof. induction s as [|a s IH]; simpl; [reflexivity | now rewrite IH]. Qed.

(** Stripping the prefix of [prefix + path] leaves [path]. *)
Lemma substringFrom_app (p s : string) :
  substringFrom (String.length p) (p ++ s)%string = s.
Proof.
  unfold substringFrom. induction p as [|a p IH]; simpl.
  - rewrite Nat.sub_0_r. apply substring_all.
  - exact IH.
Qed.

Lemma issuedSince_app (w w' : World) (cs : list EngineCall) :
  calls w' = calls w ++ cs -> issuedSince w w' = cs.
Proof. unfold issuedSince. intros ->. apply drop_app_length. Qed.

Lemma issuedSince_refl (w w' : World) :
  calls w' = calls w -> issuedSince w w' = [].
Proof.
  intros H. apply issuedSince_app. now rewrite app_nil_r.
Qed.

(* ===================================================================== *)
(** ** Properties: the promise monad and single calls *)
(* ===================================================================== *)

Section Calls.
Context (host : Host) (engine : Engine).

Lemma issue_world (c : EngineCall) (w : World) :
  snd (issue engine c w) = logCall c w.
Proof. unfold issue. now destruct (settle engine w c). Qed.

Lemma issue_outcome (c : EngineCall) (w : World) :
  fst (issue engine c w) =
  match settle engine w c with None => Resolved tt | Some e => Rejected e end.
Proof. unfold issue. now destruct (settle engine w c). Qed.

(** A call either resolves, with its effect on the engine's side, or rejects,
    with none. *)
Lemma call_cases (c : EngineCall) (w : World) :
  (settle engine w c = None
   /\ call host engine c w = (Resolved tt, engineEffect host engine c (logCall c w)))
  \/ (exists e, settle engine w c = Some e
      /\ call host engine c w = (Rejected e, logCall c w)).
Proof.
  unfold call, bind, issue, effect.
  destruct (settle engine w c) as [e|]; [right; eauto | left; auto].
Qed.

(** Whatever the promise does, [.catch(() => {})] resolves. *)
Lemma swallow_resolves (p : Promise unit) (w : World) :
  fst (swallow p w) = Resolved tt.
Proof.
  unfold swallow, catch, ret.
  destruct (p w) as [[[]|e] w']; reflexivity.
Qed.

Lemma swallow_world (p : Promise unit) (w : World) :
  snd (swallow p w) = snd (p w).
Proof.
  unfold swallow, catch, ret.
  destruct (p w) as [[[]|e] w']; reflexivity.
Qed.

(** An evaluation in the page leaves everything but the call log and the
    window alone. *)
Lemma eval_stdout (pc : PageCall) (w : World) :
  stdout (snd (call host engine (Eval pc) w)) = stdout w.
Proof.
  destruct (call_cases (Eval pc) w) as [[_ ->]|(e & _ & ->)]; reflexivity.
Qed.

Lemma head_nonempty {A} (l : list A) :
  Nat.eqb (length l) 0 = false -> exists x, head l = Some x.
Proof. destruct l as [|x l]; [discriminate | eauto]. Qed.

(** C1: each of the six push operations resolves, for every argument, in
    every world and whatever the engine does with the evaluation; a rejection
    of the evaluation is swallowed. *)
Theorem push_never_rejects (w : World) :
  (forall mode, fst (setMode host engine mode w) = Resolved tt)
  /\ (forall file, fst (setFile host engine file w) = Resolved tt)
  /\ (forall paused, fst (setPaused host engine paused w) = Resolved tt)
  /\ (forall sources, fst (setSources host engine sources w) = Resolved tt)
  /\ (forall selector focus, fst (setSelector host engine selector focus w) = Resolved tt)
  /\ (forall callLogs, fst (updateCallLogs host engine callLogs w) = Resolved tt).
Proof.
  repeat split; intros; try apply swallow_resolves.
  unfold setSources, bind.
  pose proof (swallow_resolves
                (call host engine (Eval (playwrightSetSources sources))) w) as Hs.
  destruct (swallow _ w) as [r w']. simpl in Hs. subst r.
  destruct (truthy _); simpl; [|reflexivity].
  destruct (Nat.eqb (length sources) 0) eqn:Hlen; simpl; [reflexivity|].
  destruct (head_nonempty _ Hlen) as [first ->].
  reflexivity.
Qed.

(** C6: with the switch [PWTEST_CLI_EXIT] set and a source list that is not
    empty, [setSources] writes the delimiter, the text of the first source and
    the delimiter again to the output stream, whether the engine resolved or
    rejected the push; with the switch unset or the list empty it writes
    nothing. *)
Theorem setSources_diagnostic_output (sources : list Source) (w : World) :
  stdout (snd (setSources host engine sources w))
  = stdout w ++ diagnosticOutput (env host "PWTEST_CLI_EXIT") sources.
Proof.
  unfold setSources, bind, diagnosticOutput.
  pose proof (swallow_resolves
                (call host engine (Eval (playwrightSetSources sources))) w) as Hs.
  pose proof (swallow_world (call host engine (Eval (playwrightSetSources sources))) w) as Hw.
  pose proof (eval_stdout (playwrightSetSources sources) w) as Ho.
  destruct (swallow _ w) as [r w']. simpl in Hs, Hw. subst r.
  rewrite <- Hw in Ho. clear Hw.
  destruct sources as [|first rest]; simpl.
  - rewrite andb_false_r. simpl. now rewrite app_nil_r.
  - rewrite andb_true_r.
    destruct (truthy (env host "PWTEST_CLI_EXIT")); simpl.
    + rewrite Ho. now rewrite <- !app_assoc.
    + now rewrite app_nil_r.
Qed.

End Calls.

Example diagnostic_written_though_push_failed :
  fst (setSources sampleHost brokenEngine [someSource] pristine) = Resolved tt
  /\ window (snd (setSources sampleHost brokenEngine [someSource] pristine)) = []
  /\ stdout (snd (setSources sampleHost brokenEngine [someSource] pristine))
     = [delimiter; "page.click()"; delimiter].
Proof. repeat split; reflexivity. Qed.

Example diagnostic_silent :
  stdout (snd (setSources quietHost obligingEngine [someSource] pristine)) = []
  /\ stdout (snd (setSources sampleHost obligingEngine [] pristine)) = [].
Proof. split; reflexivity. Qed.

(* ===================================================================== *)
(** ** Properties: the asset interceptor *)
(* ===================================================================== *)

Section Interceptor.
Context (host : Host) (engine : Engine).

Lemma call_route_calls (c : EngineCall) (w : World) :
  match c with RouteFulfill _ | RouteContinue => True | _ => False end ->
  calls (snd (call host engine c w)) = calls w ++ [c].
Proof.
  intros Hc.
  destruct (call_cases host engine c w) as [[_ ->]|(e & _ & ->)];
    destruct c; try contradiction; reflexivity.
Qed.

Lemma serveRequest_virtual (path file : string) (buffer : list byte) (w : World) :
  require_resolve host (bundleRoot ++ path)%string = Resolved file ->
  readFile host file = Resolved buffer ->
  serveRequest host engine (virtualPrefix ++ path)%string w
  = call host engine (RouteFulfill (assetResponse host file buffer)) w.
Proof.
  intros Hfile Hread. unfold serveRequest.
  rewrite prefix_app, substringFrom_app.
  unfold bind, settled. rewrite Hfile, Hread. reflexivity.
Qed.

(** C2: a request for [https://playwright/<path>] whose path resolves to a
    bundle file is answered by one [route.fulfill] with status 200, a
    [Content-Type] header looked up in the table under the extension of the
    resolved file, and the base64 text of the file, which decodes to exactly
    the bytes read; a request whose address does not start with the prefix is
    answered by one [route.continue], which takes no overrides. *)
Theorem interceptor_serves_bundle (w : World) :
  (forall path file buffer,
      require_resolve host (bundleRoot ++ path)%string = Resolved file ->
      readFile host file = Resolved buffer ->
      let w' := snd (serveRequest host engine (virtualPrefix ++ path)%string w) in
      exists response,
        issuedSince w w' = [RouteFulfill response]
        /\ status response = 200
        /\ headers response = [("Content-Type", extensionToMime !! extname host file)]
        /\ isBase64 response = true
        /\ Base64.decode (body response) = Some buffer)
  /\ (forall url,
        String.prefix virtualPrefix url = false ->
        issuedSince w (snd (serveRequest host engine url w)) = [RouteContinue]).
Proof.
  split.
  - intros path file buffer Hfile Hread w'. subst w'.
    rewrite (serveRequest_virtual _ _ _ _ Hfile Hread).
    exists (assetResponse host file buffer). repeat split.
    + apply issuedSince_app. now apply call_route_calls.
    + apply Base64Facts.decode_encode.
  - intros url Hurl. unfold serveRequest. rewrite Hurl.
    apply issuedSince_app. now apply call_route_calls.
Qed.

(** C9, as the code has it: when the extension of the resolved file is not a
    key of the table, the value of the [Content-Type] header of the response
    is undefined; no fallback is put in its place. *)
Theorem unlisted_extension_undefined_header
    (path file : string) (buffer : list byte) (w : World) :
  require_resolve host (bundleRoot ++ path)%string = Resolved file ->
  readFile host file = Resolved buffer ->
  extensionToMime !! extname host file = None ->
  exists response,
    issuedSince w (snd (serveRequest host engine (virtualPrefix ++ path)%string w))
    = [RouteFulfill response]
    /\ headers response = [("Content-Type", None)].
Proof.
  intros Hfile Hread Hext.
  rewrite (serveRequest_virtual _ _ _ _ Hfile Hread).
  exists (assetResponse host file buffer). split.
  - apply issuedSince_app. now apply call_route_calls.
  - unfold assetResponse. simpl. now rewrite Hext.
Qed.

End Interceptor.

(** The table, entry by entry. *)
Example extensionToMime_entries :
  map (fun ext => extensionToMime !! ext)
      [".css"; ".html"; ".jpeg"; ".js"; ".png"; ".ttf"; ".svg"; ".webp";
       ".woff"; ".woff2"; ".txt"; EmptyString]
  = [Some "text/css"; Some "text/html"; Some "image/jpeg";
     Some "application/javascript"; Some "image/png"; Some "font/ttf";
     Some "image/svg+xml"; Some "image/webp"; Some "font/woff";
     Some "font/woff2"; None; None].
Proof. vm_compute. reflexivity. Qed.

Lemma interceptor_serves_bundle_witness :
  exists response,
    issuedSince pristine
      (snd (serveRequest sampleHost obligingEngine
              "https://playwright/index.html" pristine))
    = [RouteFulfill response]
    /\ status response = 200
    /\ headers response = [("Content-Type", Some "text/html")]
    /\ isBase64 response = true
    /\ Base64.decode (body response) = Some ["<"; "p"; ">"]%byte.
Proof.
  destruct (interceptor_serves_bundle sampleHost obligingEngine pristine) as [H _].
  exact (H "index.html" "/lib/web/recorder/index.html" ["<"; "p"; ">"]%byte
           eq_refl eq_refl).
Defined.

(** C9, as claimed, fails: [notes.txt] is served with an undefined
    [Content-Type], not with an octet-stream fallback. *)
Lemma unlisted_extension_no_fallback :
  extensionToMime !! extname sampleHost "/lib/web/recorder/notes.txt" = None
  /\ issuedSince pristine
       (snd (serveRequest sampleHost obligingEngine
               "https://playwright/notes.txt" pristine))
     = [RouteFulfill {| status := 200;
                        headers := [("Content-Type", None)];
                        body := "aGk=";
                        isBase64 := true |}]
  /\ (None : option string) <> Some "application/octet-stream".
Proof.
  split; [vm_compute; reflexivity|].
  split; [vm_compute; reflexivity | discriminate].
Qed.

Lemma unlisted_extension_undefined_header_witness :
  exists response,
    issuedSince pristine
      (snd (serveRequest sampleHost obligingEngine
              "https://playwright/notes.txt" pristine))
    = [RouteFulfill response]
    /\ headers response = [("Content-Type", None)].
Proof.
  exact (unlisted_extension_undefined_header sampleHost obligingEngine
           "notes.txt" "/lib/web/recorder/notes.txt" ["h"; "i"]%byte pristine
           eq_refl eq_refl eq_refl).
Defined.

(* ===================================================================== *)
(** ** Properties: bootstrap and initialisation *)
(* ===================================================================== *)

Section Bootstrap.
Context (host : Host) (engine : Engine).

(** [_init] issues its calls in order and stops at the first rejection. *)
Lemma init_cases (w : World) :
  exists k, (1 <= k <= 4)%nat
    /\ snd (_init host engine w) = initWorld k w
    /\ ((k < 4)%nat -> exists e, fst (_init host engine w) = Rejected e)
    /\ (forall e, fst (_init host engine w) = Rejected e ->
        exists c w0, nth_error initCalls (k - 1) = Some c
                     /\ settle engine w0 c = Some e).
Proof.
  unfold _init, bind, effect.
  destruct (call_cases host engine InstallAppIcon w) as [[_ ->]|(e & He & ->)];
    [|exists 1%nat; repeat split; eauto; try lia;
      intros e' [= <-]; simpl; eauto].
  cbn [engineEffect].
  destruct (call_cases host engine (SetServerRequestInterceptor serveRecorderAssets)
              (logCall InstallAppIcon w)) as [[_ ->]|(e & He & ->)];
    [|exists 2%nat; repeat split; eauto; try lia;
      intros e' [= <-]; simpl; eauto].
  cbn [engineEffect].
  match goal with
  | |- context [call host engine (ExposeBinding ?n ?h ?b) ?w0] =>
      destruct (call_cases host engine (ExposeBinding n h b) w0)
        as [[_ ->]|(e & He & ->)];
      [|exists 3%nat; repeat split; eauto; try lia;
        intros e' [= <-]; simpl; eauto]
  end.
  cbn [engineEffect].
  match goal with
  | |- context [call host engine (Goto ?u) ?w0] =>
      destruct (call_cases host engine (Goto u) w0) as [[_ ->]|(e & He & ->)]
  end.
  - exists 4%nat. repeat split; try lia. intros e [=].
  - exists 4%nat. repeat split; eauto; try lia.
    intros e' [= <-]; simpl; eauto.
Qed.



End Bootstrap.

Section Open.
Context (host : Host) (engine : Engine) (inspectedContext : BrowserContext).

Local Abbreviation launch := (launchCall host inspectedContext).
Local Abbreviation boot := (bootWorld host inspectedContext).

Lemma engineEffect_launchCall (w : World) :
  engineEffect host engine launch w = w.
Proof. reflexivity. Qed.

Lemma open_launch_rejected (w : World) (e : Error) :
  settle engine w launch = Some e ->
  open host engine inspectedContext w = (Rejected e, logCall launch w).
Proof.
  intros He. unfold open, controller_run, bind. fold launch.
  destruct (call_cases host engine launch w) as [[Hn _]|(e' & He' & ->)];
    congruence.
Qed.

Lemma open_load_rejected (w : World) (e : Error) :
  settle engine w launch = None ->
  settle engine (logCall launch w) LoadDefaultContextAsIs = Some e ->
  open host engine inspectedContext w
  = (Rejected e, logCall LoadDefaultContextAsIs (logCall launch w)).
Proof.
  intros Hl He. unfold open, controller_run, bind. fold launch.
  destruct (call_cases host engine launch w) as [[_ ->]|(e' & He' & _)];
    [|congruence].
  rewrite engineEffect_launchCall.
  destruct (call_cases host engine LoadDefaultContextAsIs (logCall launch w))
    as [[Hn _]|(e' & He' & ->)]; congruence.
Qed.

(** Once the session is up, [open] is [_init] on the boot world. *)
Lemma open_booted (w : World) :
  settle engine w launch = None ->
  settle engine (logCall launch w) LoadDefaultContextAsIs = None ->
  snd (open host engine inspectedContext w) = snd (_init host engine (boot w))
  /\ (forall result,
        fst (open host engine inspectedContext w) = Resolved result ->
        fst (_init host engine (boot w)) = Resolved tt).
Proof.
  intros Hl Hd. unfold open, controller_run, bind. fold launch.
  destruct (call_cases host engine launch w) as [[_ ->]|(e' & He' & _)];
    [|congruence].
  rewrite engineEffect_launchCall.
  destruct (call_cases host engine LoadDefaultContextAsIs (logCall launch w))
    as [[_ ->]|(e' & He' & _)]; [|congruence].
  cbn [engineEffect new_RecorderApp bind effect ret].
  fold (boot w).
  destruct (_init host engine (boot w)) as [[[]|e] w']; simpl.
  - split; [reflexivity | intros; reflexivity].
  - split; [reflexivity | intros result [=]].
Qed.

(** C7: when the launch of the persistent context is rejected, or the launch
    resolves and the loading of the default context is rejected, [open]
    rejects with that very error, and the failed call is the last thing it
    did: no second attempt, no further call, no other effect. *)
Theorem open_propagates_bootstrap_failure (w : World) (e : Error) :
  (settle engine w launch = Some e ->
     open host engine inspectedContext w = (Rejected e, logCall launch w)
     /\ issuedSince w (snd (open host engine inspectedContext w)) = [launch])
  /\ (settle engine w launch = None ->
      settle engine (logCall launch w) LoadDefaultContextAsIs = Some e ->
      open host engine inspectedContext w
      = (Rejected e, logCall LoadDefaultContextAsIs (logCall launch w))
      /\ issuedSince w (snd (open host engine inspectedContext w))
         = [launch; LoadDefaultContextAsIs]).
Proof.
  split.
  - intros He. rewrite (open_launch_rejected w e He). split; [reflexivity|].
    now apply issuedSince_app.
  - intros Hl He. rewrite (open_load_rejected w e Hl He). split; [reflexivity|].
    apply issuedSince_app. simpl. now rewrite <- app_assoc.
Qed.

End Open.

Lemma open_propagates_bootstrap_failure_witness :
  (open sampleHost brokenEngine sampleContext pristine
   = (Rejected "Target closed",
      logCall (launchCall sampleHost sampleContext) pristine)
   /\ issuedSince pristine (snd (open sampleHost brokenEngine sampleContext pristine))
      = [launchCall sampleHost sampleContext])
  /\ (open sampleHost stallingEngine sampleContext pristine
      = (Rejected "Protocol error",
         logCall LoadDefaultContextAsIs
           (logCall (launchCall sampleHost sampleContext) pristine))
      /\ issuedSince pristine
           (snd (open sampleHost stallingEngine sampleContext pristine))
         = [launchCall sampleHost sampleContext; LoadDefaultContextAsIs]).
Proof.
  split.
  - exact (proj1 (open_propagates_bootstrap_failure sampleHost brokenEngine
                    sampleContext pristine "Target closed") eq_refl).
  - exact (proj2 (open_propagates_bootstrap_failure sampleHost stallingEngine
                    sampleContext pristine "Protocol error") eq_refl eq_refl).
Defined.

(* ===================================================================== *)
(** ** Properties: the emitter *)
(* ===================================================================== *)

Section EmitterFacts.
Context {L : Type} `{EqDecision L}.
Implicit Types (e : EventEmitter.t L) (l : L) (type : string).

Lemma registered_addListener_eq type en e :
  EventEmitter.registered type (EventEmitter.addListener type en e)
  = EventEmitter.registered type e ++ [en].
Proof.
  unfold EventEmitter.registered at 1, EventEmitter.addListener. simpl.
  now rewrite lookup_insert_eq.
Qed.

Lemma registered_addListener_ne type type' en e :
  type <> type' ->
  EventEmitter.registered type' (EventEmitter.addListener type en e)
  = EventEmitter.registered type' e.
Proof.
  intros Hne.
  unfold EventEmitter.registered, EventEmitter.addListener. simpl.
  now rewrite lookup_insert_ne.
Qed.

Lemma listeners_on type type' l e :
  EventEmitter.listeners type' (EventEmitter.on type l e)
  = EventEmitter.listeners type' e ++ (if decide (type = type') then [l] else []).
Proof.
  unfold EventEmitter.listeners, EventEmitter.on.
  destruct (decide (type = type')) as [<-|Hne].
  - rewrite registered_addListener_eq. now rewrite map_app.
  - rewrite registered_addListener_ne by assumption. now rewrite app_nil_r.
Qed.

Lemma maxListeners_addListener type en e :
  EventEmitter.maxListeners (EventEmitter.addListener type en e)
  = EventEmitter.maxListeners e.
Proof. reflexivity. Qed.

(** With the limit at zero, adding a listener never warns. *)
Lemma warned_addListener_unlimited type en e :
  EventEmitter.getMaxListeners e = 0 ->
  EventEmitter.warned (EventEmitter.addListener type en e) = EventEmitter.warned e.
Proof.
  intros Hm. unfold EventEmitter.addListener. simpl. now rewrite Hm.
Qed.

Lemma subscribe_listeners type subs e :
  EventEmitter.listeners type (subscribe subs e)
  = EventEmitter.listeners type e ++ subscribedTo type subs.
Proof.
  revert e. induction subs as [|[t l] subs IH]; intros e; simpl.
  - now rewrite app_nil_r.
  - rewrite IH, listeners_on. unfold subscribedTo.
    rewrite filter_cons. simpl.
    destruct (decide (t = type)); simpl.
    + now rewrite <- app_assoc.
    + now rewrite app_nil_r.
Qed.

Lemma subscribe_unlimited subs e :
  EventEmitter.getMaxListeners e = 0 ->
  EventEmitter.getMaxListeners (subscribe subs e) = 0
  /\ EventEmitter.warned (subscribe subs e) = EventEmitter.warned e.
Proof.
  revert e. induction subs as [|[t l] subs IH]; intros e Hm; simpl; [auto|].
  destruct (IH (EventEmitter.on t l e)) as [IHm IHw]; [exact Hm|].
  split; [exact IHm|].
  rewrite IHw. now apply warned_addListener_unlimited.
Qed.

(** A one-shot listener that is called leaves its event, and no other. *)
Lemma registered_removeOnce_eq type l e :
  EventEmitter.registered type (EventEmitter.removeOnce type l e)
  = EventEmitter.withoutOnce l (EventEmitter.registered type e).
Proof.
  unfold EventEmitter.registered, EventEmitter.removeOnce. simpl.
  rewrite lookup_alter_eq.
  now destruct (EventEmitter.events e !! type).
Qed.

Lemma registered_removeOnce_ne type type' l e :
  type <> type' ->
  EventEmitter.registered type' (EventEmitter.removeOnce type l e)
  = EventEmitter.registered type' e.
Proof.
  intros Hne. unfold EventEmitter.registered, EventEmitter.removeOnce. simpl.
  now rewrite lookup_alter_ne.
Qed.

Lemma withoutOnce_plain l (ens : list (EventEmitter.entry L)) :
  Forall (fun en => EventEmitter.isOnce en = false) ens ->
  EventEmitter.withoutOnce l ens = ens.
Proof.
  induction 1 as [|en ens Hen _ IH]; [reflexivity|].
  simpl. rewrite Hen. simpl. now rewrite IH.
Qed.

Lemma plain_on e type l :
  plain e -> plain (EventEmitter.on type l e).
Proof.
  intros Hp type'. unfold EventEmitter.on.
  destruct (decide (type = type')) as [<-|Hne].
  - rewrite registered_addListener_eq. apply Forall_app. split; [apply Hp|].
    repeat constructor.
  - rewrite registered_addListener_ne by exact Hne. apply Hp.
Qed.

Lemma plain_new : plain (EventEmitter.setMaxListeners 0 (@EventEmitter.create L)).
Proof. intros type. constructor. Qed.

Lemma plain_create : plain (@EventEmitter.create L).
Proof. intros type. constructor. Qed.

End EmitterFacts.

(** Under the default limit of ten, the eleventh listener of an event draws
    the warning that [setMaxListeners(0)] turns off. *)
Example default_limit_warns :
  EventEmitter.warned
    (subscribe (map (fun l => ("event", l)) (seq 0 10)) EventEmitter.create) = []
  /\ EventEmitter.warned
       (subscribe (map (fun l => ("event", l)) (seq 0 11)) EventEmitter.create)
     = ["event"]
  /\ EventEmitter.warned
       (subscribe (map (fun l => ("event", l)) (seq 0 11))
          (EventEmitter.setMaxListeners 0 EventEmitter.create)) = [].
Proof. repeat split; vm_compute; reflexivity. Qed.

(* ===================================================================== *)
(** ** Properties: emitting *)
(* ===================================================================== *)

Lemma logDeliveries_nil (w : World) : logDeliveries [] w = w.
Proof. destruct w. unfold logDeliveries. simpl. now rewrite app_nil_r. Qed.

Lemma logDeliveries_app (ds ds' : list (Listener * Notification)) (w : World) :
  logDeliveries ds' (logDeliveries ds w) = logDeliveries (ds ++ ds') w.
Proof. unfold logDeliveries. simpl. now rewrite app_assoc. Qed.

Section FireFacts.
Context {L : Type} `{EqDecision L}.
Context (emitter : World -> EventEmitter.t L)
        (setEmitter : EventEmitter.t L -> World -> World)
        (invoke : L -> Promise unit).

Local Abbreviation fire' := (fire emitter setEmitter invoke).
Local Abbreviation leave' := (leave emitter setEmitter).

Lemma fire_cons (type : string) (en : EventEmitter.entry L)
    (rest : list (EventEmitter.entry L)) (w : World) :
  fire' type (en :: rest) w
  = match invoke (EventEmitter.callback en) (leave' type en w) with
    | (Resolved _, w') => fire' type rest w'
    | (Rejected e, w') => (Rejected e, w')
    end.
Proof. reflexivity. Qed.

Lemma leave_plain (type : string) (en : EventEmitter.entry L) (w : World) :
  EventEmitter.isOnce en = false -> leave' type en w = w.
Proof. unfold leave. now intros ->. Qed.

(** What a listener leaving and a listener being called preserve, the
    emission preserves. *)
Lemma fire_preserves (P : World -> Prop) (type : string) :
  (forall en w, P w -> P (leave' type en w)) ->
  (forall l w, P w -> P (snd (invoke l w))) ->
  forall ens w, P w -> P (snd (fire' type ens w)).
Proof.
  intros Hleave Hinvoke ens.
  induction ens as [|en rest IH]; intros w Hw; [exact Hw|].
  rewrite fire_cons.
  pose proof (Hinvoke (EventEmitter.callback en) _ (Hleave en w Hw)) as Hi.
  destruct (invoke (EventEmitter.callback en) (leave' type en w)) as [[[]|e] w'];
    simpl in Hi; [now apply IH | exact Hi].
Qed.

End FireFacts.

Section AppEmission.
Context (host : Host).

Lemma callListener_cases (n : Notification) (l : Listener) (w : World) :
  callListener host n l w
  = (match react host w l n with None => Resolved tt | Some e => Rejected e end,
     logDelivery l n w).
Proof. unfold callListener. now destruct (react host w l n). Qed.

Lemma callListener_world (n : Notification) (l : Listener) (w : World) :
  snd (callListener host n l w) = logDeliveries [(l, n)] w.
Proof. unfold callListener. now destruct (react host w l n). Qed.

Lemma leave_app_outside (type : string) (en : EventEmitter.entry Listener)
    (w : World) :
  outside (leave app setApp type en w) = outside w
  /\ delivered (leave app setApp type en w) = delivered w.
Proof. unfold leave. now destruct (EventEmitter.isOnce en). Qed.

(** An emission touches the emitter, the record of the emissions and the
    record of the calls of the listeners, and nothing else. *)
Lemma emit_outside (type : string) (args : list EventData) (w : World) :
  outside (snd (emit host type args w)) = outside (logEmission (type, args) w).
Proof.
  unfold emit, bind, ret.
  set (w0 := logEmission (type, args) w).
  pose proof (fire_preserves app setApp (callListener host (type, args))
                (fun w' => outside w' = outside w0) type) as Hf.
  specialize (Hf (fun en w' Hw' =>
                    eq_trans (proj1 (leave_app_outside type en w')) Hw')).
  assert (Hcall : forall l w', outside w' = outside w0 ->
                    outside (snd (callListener host (type, args) l w')) = outside w0).
  { intros l w' Hw'. now rewrite callListener_world. }
  specialize (Hf Hcall (EventEmitter.registered type (app w)) w0 eq_refl).
  destruct (fire _ _ _ _ _ w0) as [[[]|e] w']; [|exact Hf].
  destruct (EventEmitter.registered type (app w));
    [destruct (String.eqb type "error")|]; exact Hf.
Qed.

Lemma emit_emitted (type : string) (args : list EventData) (w : World) :
  emitted (snd (emit host type args w)) = emitted w ++ [(type, args)].
Proof.
  pose proof (emit_outside type args w) as H.
  unfold outside in H. now injection H as _ -> _ _ _ _ _ _ _.
Qed.

(** With no one-shot listener around, an emission leaves the emitter as it
    is and calls a first part of the listeners of the event, in order: all of
    them when it returns, and at least one when it throws. *)
Lemma fire_app_plain (n : Notification) (type : string)
    (ens : list (EventEmitter.entry Listener)) (w : World) :
  Forall (fun en => EventEmitter.isOnce en = false) ens ->
  let r := fire app setApp (callListener host n) type ens w in
  exists k, (k <= length ens)%nat
    /\ snd r = logDeliveries
                 (map (fun l => (l, n)) (take k (map EventEmitter.callback ens))) w
    /\ (fst r = Resolved tt -> k = length ens)
    /\ (forall e, fst r = Rejected e -> (1 <= k)%nat).
Proof.
  intros Hplain. revert w.
  induction Hplain as [|en rest Hen _ IH]; intros w r; subst r.
  - exists 0%nat. simpl. rewrite logDeliveries_nil.
    repeat split; [lia | discriminate].
  - rewrite fire_cons, leave_plain by exact Hen.
    rewrite callListener_cases.
    destruct (react host w (EventEmitter.callback en) n) as [e|].
    + exists 1%nat. simpl.
      repeat split; [lia | discriminate | lia].
    + cbv beta iota.
      destruct (IH (logDelivery (EventEmitter.callback en) n w))
        as (k & Hk & Hw & Hres & Hrej).
      exists (S k).
      split; [simpl; lia|].
      split; [rewrite Hw; unfold logDelivery; rewrite logDeliveries_app;
              reflexivity|].
      split; [intros Hr; simpl; now rewrite (Hres Hr) | intros e He; lia].
Qed.

Lemma fire_app_returns (n : Notification) (type : string)
    (ens : list (EventEmitter.entry Listener)) (w : World) :
  Forall (fun en => EventEmitter.isOnce en = false) ens ->
  Forall (returns host n) (map EventEmitter.callback ens) ->
  fire app setApp (callListener host n) type ens w
  = (Resolved tt,
     logDeliveries (map (fun l => (l, n)) (map EventEmitter.callback ens)) w).
Proof.
  intros Hplain. revert w.
  induction Hplain as [|en rest Hen _ IH]; intros w Hret.
  - simpl. now rewrite logDeliveries_nil.
  - inversion Hret as [|? ? Hl Hrest]; subst.
    rewrite fire_cons, leave_plain by exact Hen.
    rewrite callListener_cases, (Hl w).
    rewrite (IH _ Hrest). unfold logDelivery. now rewrite logDeliveries_app.
Qed.

Lemma fire_app_throws (n : Notification) (type : string)
    (ens : list (EventEmitter.entry Listener)) (w : World) :
  Forall (fun en => EventEmitter.isOnce en = false) ens ->
  Exists (throws host n) (map EventEmitter.callback ens) ->
  exists e, fst (fire app setApp (callListener host n) type ens w) = Rejected e.
Proof.
  intros Hplain. revert w.
  induction Hplain as [|en rest Hen _ IH]; intros w Hthrow.
  - inversion Hthrow.
  - rewrite fire_cons, leave_plain by exact Hen.
    rewrite callListener_cases.
    destruct (react host w (EventEmitter.callback en) n) as [e|] eqn:Hr;
      [eauto|].
    inversion Hthrow as [? ? Hl|? ? Hrest]; subst.
    + now destruct (Hl w).
    + now apply IH.
Qed.

Lemma hearers_nil (type : string) (w : World) :
  hearers w type = [] <-> EventEmitter.registered type (app w) = [].
Proof.
  unfold hearers, EventEmitter.listeners.
  destruct (EventEmitter.registered type (app w)); simpl; split; congruence.
Qed.

(** An event nobody listens to: [emit] returns [false]; unless it is
    ['error'], and [emit] throws. *)
Lemma emit_nobody (type : string) (args : list EventData) (w : World) :
  type <> "error" ->
  hearers w type = [] ->
  emit host type args w = (Resolved false, logEmission (type, args) w).
Proof.
  intros Hne Hn. apply hearers_nil in Hn. unfold emit. rewrite Hn.
  unfold bind. simpl. now destruct (String.eqb_spec type "error").
Qed.

Lemma emit_unhandled (args : list EventData) (w : World) :
  hearers w "error" = [] ->
  emit host "error" args w
  = (Rejected unhandledError, logEmission ("error", args) w).
Proof.
  intros Hn. apply hearers_nil in Hn. unfold emit. now rewrite Hn.
Qed.

Lemma emit_plain (type : string) (args : list EventData) (w : World) :
  plain (app w) ->
  let r := emit host type args w in
  exists k, (k <= length (hearers w type))%nat
    /\ snd r = logDeliveries
                 (map (fun l => (l, (type, args))) (take k (hearers w type)))
                 (logEmission (type, args) w)
    /\ (forall b, fst r = Resolved b -> k = length (hearers w type))
    /\ (forall e, fst r = Rejected e ->
        (1 <= k)%nat \/ (type = "error" /\ hearers w type = [])).
Proof.
  intros Hp r. subst r. unfold emit, bind, ret, throw.
  destruct (fire_app_plain (type, args) type
              (EventEmitter.registered type (app w))
              (logEmission (type, args) w) (Hp type))
    as (k & Hk & Hw & Hres & Hrej).
  exists k. unfold hearers, EventEmitter.listeners.
  rewrite length_map. split; [exact Hk|].
  destruct (fire _ _ _ _ _ (logEmission (type, args) w)) as [[[]|e] w'];
    simpl in *.
  - destruct (EventEmitter.registered type (app w)) as [|en ens];
      [destruct (String.eqb_spec type "error")|]; simpl;
      (split; [exact Hw|]); (split; [intros b _; now apply Hres|]);
      intros e' He; try discriminate He.
    right. now split.
  - repeat split; [exact Hw | discriminate | intros e' _; left; now apply (Hrej e)].
Qed.

(** When the listeners of the event return, each of them is called, and
    [emit] returns. *)
Lemma emit_returns_world (type : string) (args : list EventData) (w : World) :
  plain (app w) ->
  Forall (returns host (type, args)) (hearers w type) ->
  snd (emit host type args w)
  = logDeliveries (map (fun l => (l, (type, args))) (hearers w type))
      (logEmission (type, args) w).
Proof.
  intros Hp Hret. unfold emit, bind, ret, throw.
  rewrite (fire_app_returns _ _ _ _ (Hp type) Hret).
  unfold hearers, EventEmitter.listeners.
  destruct (EventEmitter.registered type (app w));
    [destruct (String.eqb type "error")|]; reflexivity.
Qed.

Lemma emit_returns (type : string) (args : list EventData) (w : World) :
  plain (app w) ->
  Forall (returns host (type, args)) (hearers w type) ->
  type <> "error" \/ hearers w type <> [] ->
  emit host type args w
  = (Resolved (match hearers w type with [] => false | _ => true end),
     logDeliveries (map (fun l => (l, (type, args))) (hearers w type))
       (logEmission (type, args) w)).
Proof.
  intros Hp Hret Hsome. unfold emit, bind, ret, throw.
  rewrite (fire_app_returns _ _ _ _ (Hp type) Hret).
  unfold hearers, EventEmitter.listeners in *.
  destruct (EventEmitter.registered type (app w)); [|reflexivity].
  destruct (String.eqb_spec type "error"); [|reflexivity].
  now destruct Hsome as [Hne|Hne].
Qed.

(** When one of them throws, so does [emit]. *)
Lemma emit_throws (type : string) (args : list EventData) (w : World) :
  plain (app w) ->
  Exists (throws host (type, args)) (hearers w type) ->
  exists e, fst (emit host type args w) = Rejected e.
Proof.
  intros Hp Hthrow. unfold emit, bind, ret.
  destruct (fire_app_throws (type, args) type _ (logEmission (type, args) w)
              (Hp type) Hthrow) as [e He].
  destruct (fire _ _ _ _ _ (logEmission (type, args) w)) as [[[]|e'] w'];
    simpl in *; [discriminate | eauto].
Qed.

(** [on] with nobody listening to ['newListener'], and with somebody. *)
Lemma on_unannounced (type : string) (l : Listener) (w : World) :
  hearers w "newListener" = [] ->
  on host type l w = (Resolved tt, setApp (EventEmitter.on type l (app w)) w).
Proof.
  intros Hn. apply hearers_nil in Hn. unfold on, bind, effect, ret.
  now rewrite Hn.
Qed.

Lemma on_announced (type : string) (l : Listener) (w : World) :
  hearers w "newListener" <> [] ->
  on host type l w
  = match emit host "newListener" [JString type; listenerRef l] w with
    | (Resolved _, w') =>
        (Resolved tt, setApp (EventEmitter.on type l (app w')) w')
    | (Rejected e, w') => (Rejected e, w')
    end.
Proof.
  intros Hn. unfold on, bind, effect, ret.
  destruct (EventEmitter.registered "newListener" (app w)) eqn:Hr.
  - destruct Hn. now apply hearers_nil.
  - now destruct (emit host "newListener" _ w) as [[b|e'] w'].
Qed.

End AppEmission.

Section Listeners.
Context (host : Host) (engine : Engine).

Lemma run_cons (t : Turn) (ts : list Turn) (w : World) :
  run host engine (t :: ts) w = run host engine ts (turn host engine t w).
Proof. reflexivity. Qed.

Lemma run_app (ts ts' : list Turn) (w : World) :
  run host engine (ts ++ ts') w = run host engine ts' (run host engine ts w).
Proof. apply fold_left_app. Qed.

(** A subscription on an emitter without one-shot listeners: the listener is
    appended, unless a listener of ['newListener'] throws. *)
Lemma on_plain (type : string) (l : Listener) (w : World) :
  plain (app w) ->
  let r := on host type l w in
  (fst r = Resolved tt /\ app (snd r) = EventEmitter.on type l (app w))
  \/ (hearers w "newListener" <> []
      /\ (exists e, fst r = Rejected e) /\ app (snd r) = app w).
Proof.
  intros Hp r. subst r.
  destruct (hearers w "newListener") as [|h hs] eqn:Hn.
  - left. rewrite (on_unannounced host type l w Hn). split; reflexivity.
  - rewrite on_announced by (rewrite Hn; discriminate).
    destruct (emit_plain host "newListener" [JString type; listenerRef l] w Hp)
      as (k & _ & Hw & _).
    destruct (emit host "newListener" _ w) as [[b|e] w']; simpl in Hw; subst w'.
    + left. split; reflexivity.
    + right. split; [discriminate|]. split; [eauto | reflexivity].
Qed.

Lemma on_returns (type : string) (l : Listener) (w : World) :
  plain (app w) ->
  Forall (returns host (newListenerNote type l)) (hearers w "newListener") ->
  fst (on host type l w) = Resolved tt
  /\ app (snd (on host type l w)) = EventEmitter.on type l (app w).
Proof.
  intros Hp Hret.
  destruct (hearers w "newListener") as [|h hs] eqn:Hn.
  - rewrite (on_unannounced host type l w Hn). split; reflexivity.
  - rewrite on_announced by (rewrite Hn; discriminate).
    rewrite <- Hn in Hret.
    rewrite (emit_returns host "newListener" _ w Hp Hret)
      by (left; discriminate).
    split; reflexivity.
Qed.

(** Subscriptions keep the emitter free of one-shot listeners and of
    warnings; the listeners subscribed are all appended when those of
    ['newListener'] return. *)
Lemma run_subscriptions (subs : list (string * Listener)) (w : World) :
  plain (app w) ->
  EventEmitter.getMaxListeners (app w) = 0 ->
  let w1 := run host engine (subscriptions subs) w in
  plain (app w1)
  /\ EventEmitter.getMaxListeners (app w1) = 0
  /\ EventEmitter.warned (app w1) = EventEmitter.warned (app w)
  /\ (Forall (fun h => forall n, returns host n h) (hearers w "newListener") ->
      Forall (fun s => s.1 = "newListener" -> forall n, returns host n s.2) subs ->
      forall type, hearers w1 type = hearers w type ++ subscribedTo type subs).
Proof.
  revert w. induction subs as [|[t l] subs IH]; intros w Hp Hm w1; subst w1.
  - repeat split; try assumption. intros _ _ type. simpl.
    unfold subscribedTo. simpl. now rewrite app_nil_r.
  - change (subscriptions ((t, l) :: subs))
      with (FromHost (CallOn t l) :: subscriptions subs).
    rewrite run_cons. simpl turn.
    assert (Hstep : plain (app (snd (on host t l w)))
                    /\ EventEmitter.getMaxListeners (app (snd (on host t l w))) = 0
                    /\ EventEmitter.warned (app (snd (on host t l w)))
                       = EventEmitter.warned (app w)).
    { destruct (on_plain t l w Hp) as [[_ ->]|(_ & _ & ->)].
      - split; [now apply plain_on|]. split; [exact Hm|].
        now apply warned_addListener_unlimited.
      - repeat split; assumption. }
    destruct Hstep as (Hp' & Hm' & Hw').
    destruct (IH (snd (on host t l w)) Hp' Hm') as (IHp & IHm & IHw & IHl).
    split; [exact IHp|]. split; [exact IHm|]. split; [now rewrite IHw|].
    intros Hret Hsubs type.
    inversion Hsubs as [|? ? Hs Hrest]; subst. simpl in Hs.
    assert (Happ : app (snd (on host t l w)) = EventEmitter.on t l (app w)).
    { apply on_returns; [exact Hp|].
      eapply Forall_impl; [exact Hret|]. intros h Hh. apply Hh. }
    assert (Hh : forall type', hearers (snd (on host t l w)) type'
                 = hearers w type' ++ (if decide (t = type') then [l] else [])).
    { intros type'. unfold hearers. rewrite Happ. apply listeners_on. }
    rewrite IHl; [| |exact Hrest].
    + rewrite Hh. unfold subscribedTo. rewrite filter_cons. simpl.
      destruct (decide (t = type)); simpl; now rewrite <- app_assoc.
    + rewrite Hh. apply Forall_app. split; [exact Hret|].
      destruct (decide (t = "newListener")) as [Ht|_]; [|constructor].
      constructor; [now apply Hs | constructor].
Qed.

(** C10: the constructor sets the listener limit to zero, which for the
    emitter means no limit: however many listeners subscribe, to whatever
    events, no warning is raised and all of them are kept, in order.  An
    emission is then delivered to every listener of its event, in that
    order, when these listeners return.  (A listener that throws ends an
    emission in Node whatever the limit; in general an emission reaches a
    first part of the listeners of its event.  A subscription is lost only
    to a listener of ['newListener'] that throws.) *)
Theorem listeners_unbounded
    (ws : option string) (subs : list (string * Listener))
    (type : string) (args : list EventData) (w : World) :
  let w0 := snd (new_RecorderApp ws w) in
  let w1 := run host engine (subscriptions subs) w0 in
  EventEmitter.maxListeners (app w0) = Some 0
  /\ EventEmitter.warned (app w1) = []
  /\ (Forall (fun s => s.1 = "newListener" -> forall n, returns host n s.2) subs ->
      EventEmitter.listeners type (app w1) = subscribedTo type subs)
  /\ (Forall (returns host (type, args)) (EventEmitter.listeners type (app w1)) ->
      delivered (snd (emit host type args w1))
      = delivered w1
        ++ map (fun l => (l, (type, args))) (EventEmitter.listeners type (app w1)))
  /\ (exists k,
        delivered (snd (emit host type args w1))
        = delivered w1
          ++ map (fun l => (l, (type, args)))
               (take k (EventEmitter.listeners type (app w1)))).
Proof.
  intros w0 w1.
  assert (Hp0 : plain (app w0)) by apply plain_new.
  destruct (run_subscriptions subs w0 Hp0 eq_refl) as (Hp & _ & Hw & Hl).
  fold w1 in Hp, Hw, Hl.
  split; [reflexivity|].
  split; [rewrite Hw; reflexivity|].
  split; [intros Hsubs; apply (Hl (List.Forall_nil _) Hsubs type)|].
  split.
  - intros Hret. now rewrite (emit_returns_world host type args w1 Hp Hret).
  - destruct (emit_plain host type args w1 Hp) as (k & _ & -> & _).
    exists k. reflexivity.
Qed.

End Listeners.

(** Twelve listeners of [event], two beyond the default limit: all are
    kept, none draws a warning, and each is called. *)
Lemma listeners_unbounded_witness :
  let subs := map (fun l => ("event", l)) (seq 0 12) in
  let w1 := run sampleHost obligingEngine (subscriptions subs)
              (snd (new_RecorderApp None pristine)) in
  EventEmitter.warned (app w1) = []
  /\ EventEmitter.listeners "event" (app w1) = seq 0 12
  /\ delivered (snd (emit sampleHost "event" [JNull] w1))
     = map (fun l => (l, eventNote JNull)) (seq 0 12).
Proof.
  intros subs w1.
  destruct (listeners_unbounded sampleHost obligingEngine None subs
              "event" [JNull] pristine) as (_ & Hw & Hl & Hd & _).
  fold w1 in Hw, Hl, Hd.
  assert (Hls : EventEmitter.listeners "event" (app w1) = seq 0 12).
  { rewrite Hl; [vm_compute; reflexivity|].
    apply Forall_forall. intros s _ _ n w0. reflexivity. }
  split; [exact Hw|]. split; [exact Hls|].
  rewrite Hd; [rewrite Hls; vm_compute; reflexivity|].
  apply Forall_forall. intros l _ w0. reflexivity.
Defined.

(* ===================================================================== *)
(** ** Properties: the lifecycle *)
(* ===================================================================== *)

Lemma life_pending (w w' : World) :
  pageListeners w' = pageListeners w -> pending w' = pending w.
Proof. unfold pending. now intros ->. Qed.

Lemma ofType_app (type : string) (ns ns' : list Notification) :
  ofType type (ns ++ ns') = ofType type ns ++ ofType type ns'.
Proof. apply filter_app. Qed.


Lemma closeCount_app (w w' : World) (ns : list Notification) :
  emitted w' = emitted w ++ ns ->
  closeCount w' = (closeCount w + length (ofType "close" ns))%nat.
Proof.
  unfold closeCount. intros ->. now rewrite ofType_app, length_app.
Qed.

(** A notification of another event counts neither as [close] nor as
    [event]. *)
Lemma ofType_other (type : string) (n : Notification) (ns : list Notification) :
  n.1 <> type -> ofType type (ns ++ [n]) = ofType type ns.
Proof.
  intros Hne. rewrite ofType_app. unfold ofType at 2.
  rewrite filter_cons_False by exact Hne. simpl. apply app_nil_r.
Qed.

Lemma ofType_same (type : string) (n : Notification) (ns : list Notification) :
  n.1 = type -> ofType type (ns ++ [n]) = ofType type ns ++ [n].
Proof.
  intros He. rewrite ofType_app. unfold ofType at 2.
  now rewrite filter_cons_True by exact He.
Qed.

Lemma life_closeCount (w w' : World) : life w' = life w -> closeCount w' = closeCount w.
Proof. unfold life, closeCount. now intros [= _ _ _ -> _]. Qed.

Section Lifecycle.
Context (host : Host) (engine : Engine).

Lemma emit_life (type : string) (args : list EventData) (w : World) :
  life (snd (emit host type args w))
  = (pageListeners w, pageClosed w, bindings w,
     ofType "close" (emitted w ++ [(type, args)]),
     ofType "event" (emitted w ++ [(type, args)])).
Proof.
  pose proof (emit_outside host type args w) as H.
  unfold outside in H. injection H as _ He Hp _ Hb Hc _ _ _.
  unfold life. now rewrite He, Hp, Hb, Hc.
Qed.

Lemma emit_calls (type : string) (args : list EventData) (w : World) :
  calls (snd (emit host type args w)) = calls w.
Proof.
  pose proof (emit_outside host type args w) as H.
  unfold outside in H. now injection H as -> _ _ _ _ _ _ _ _.
Qed.

Lemma issue_life (c : EngineCall) (w : World) :
  life (snd (issue engine c w)) = life w.
Proof. now rewrite issue_world. Qed.

(** The close of the context that the listener does not wait for. *)
Lemma closing_listener_world (w0 : World) :
  let w' := snd (catch (issue engine ContextClose)
                       (fun e => effect (console_error e)) w0) in
  emitted w' = emitted w0
  /\ calls w' = calls w0 ++ [ContextClose]
  /\ stderr w' = stderr w0 ++ reported (settle engine w0 ContextClose)
  /\ pageClosed w' = pageClosed w0
  /\ pageListeners w' = pageListeners w0
  /\ bindings w' = bindings w0
  /\ interceptor w' = interceptor w0
  /\ window w' = window w0
  /\ stdout w' = stdout w0
  /\ app w' = app w0
  /\ delivered w' = delivered w0.
Proof.
  unfold catch, issue, effect.
  destruct (settle engine w0 ContextClose); simpl; repeat split.
  now rewrite app_nil_r.
Qed.

(** The listener of lines 78-81: line 80 is reached when line 79 returns. *)
Lemma runPageListener_cases (l : PageListener) (w : World) :
  runPageListener host engine l w
  = match emit host "close" [] w with
    | (Resolved _, w1) =>
        (Resolved tt,
         snd (catch (issue engine ContextClose)
                    (fun e => effect (console_error e)) w1))
    | (Rejected e, w1) => (Rejected e, w1)
    end.
Proof.
  destruct l. unfold runPageListener, bind, effect.
  now destruct (emit host "close" [] w) as [[b|e] w1].
Qed.

(** It emits [close], once, and issues one close of the context at most. *)
Lemma runPageListener_world (l : PageListener) (w : World) :
  let w' := snd (runPageListener host engine l w) in
  emitted w' = emitted w ++ [closeNote]
  /\ (exists j, (j <= 1)%nat /\ calls w' = calls w ++ repeat ContextClose j)
  /\ pageClosed w' = pageClosed w
  /\ pageListeners w' = pageListeners w
  /\ bindings w' = bindings w
  /\ interceptor w' = interceptor w
  /\ window w' = window w
  /\ stdout w' = stdout w.
Proof.
  intros w'. subst w'. rewrite runPageListener_cases.
  pose proof (emit_outside host "close" [] w) as H.
  unfold outside in H. injection H as Hcalls He Hp Hi Hb Hc Hwin Hout Herr.
  destruct (emit host "close" [] w) as [[b|e] w1]; simpl in *.
  - destruct (closing_listener_world w1)
      as (-> & -> & _ & -> & -> & -> & -> & -> & -> & _).
    rewrite He, Hcalls, Hp, Hi, Hb, Hc, Hwin, Hout.
    repeat split. exists 1%nat. split; [lia | reflexivity].
  - rewrite He, Hcalls, Hp, Hi, Hb, Hc, Hwin, Hout.
    repeat split. exists 0%nat. split; [lia | now rewrite app_nil_r].
Qed.

(** On a closed page the close of the context is the bare call: the engine
    has no window left to close. *)
Lemma call_ContextClose_closed (w : World) :
  pageClosed w = true ->
  call host engine ContextClose w = issue engine ContextClose w.
Proof.
  intros Hc. unfold call, bind, issue, effect.
  destruct (settle engine w ContextClose); [reflexivity|].
  simpl. now rewrite Hc.
Qed.

(** So the listener, which runs on a closed page, does call
    [context().close()] in full. *)
Lemma runPageListener_calling (l : PageListener) (w : World) :
  pageClosed w = true ->
  runPageListener host engine l w = runPageListenerCalling host engine l w.
Proof.
  intros Hc. rewrite runPageListener_cases.
  destruct l. unfold runPageListenerCalling, bind, effect.
  pose proof (emit_outside host "close" [] w) as H.
  unfold outside in H. injection H as _ _ _ _ _ Hcl _ _ _.
  destruct (emit host "close" [] w) as [[b|e] w1]; [|reflexivity].
  simpl in Hcl. unfold catch.
  rewrite call_ContextClose_closed by now rewrite Hcl.
  reflexivity.
Qed.

(** What the close of the window does in general: the page is closed, which
    it stays; [close] is emitted once by every listener that is called, and
    nothing else is; the only calls issued are closes of the context. *)
Lemma firePage_world (ens : list (EventEmitter.entry PageListener)) (w : World) :
  let w' := snd (fire pageListeners setPageListeners (runPageListener host engine)
                   "close" ens w) in
  (exists k, (k <= length ens)%nat /\ emitted w' = emitted w ++ repeat closeNote k)
  /\ (exists j, calls w' = calls w ++ repeat ContextClose j)
  /\ pageClosed w' = pageClosed w
  /\ bindings w' = bindings w
  /\ interceptor w' = interceptor w
  /\ window w' = window w
  /\ stdout w' = stdout w.
Proof.
  revert w. induction ens as [|en rest IH]; intros w w'; subst w'.
  - simpl. repeat split; [exists 0%nat | exists 0%nat]; simpl;
      rewrite ?app_nil_r; auto.
  - rewrite fire_cons.
    set (w0 := leave pageListeners setPageListeners "close" en w).
    assert (H0 : emitted w0 = emitted w /\ calls w0 = calls w
                 /\ pageClosed w0 = pageClosed w /\ bindings w0 = bindings w
                 /\ interceptor w0 = interceptor w /\ window w0 = window w
                 /\ stdout w0 = stdout w).
    { unfold w0, leave. destruct (EventEmitter.isOnce en); repeat split. }
    destruct H0 as (He0 & Hc0 & Hcl0 & Hb0 & Hi0 & Hw0 & Ho0).
    destruct (runPageListener_world (EventEmitter.callback en) w0)
      as (He1 & (j1 & Hj1 & Hc1) & Hcl1 & _ & Hb1 & Hi1 & Hw1 & Ho1).
    destruct (runPageListener host engine (EventEmitter.callback en) w0)
      as [[[]|e] w1]; simpl in *.
    + destruct (IH w1)
        as ((k & Hk & He) & (j & Hc) & Hcl & Hb & Hi & Hw & Ho).
      rewrite He, Hc, Hcl, Hb, Hi, Hw, Ho.
      rewrite He1, Hc1, Hcl1, Hb1, Hi1, Hw1, Ho1.
      rewrite He0, Hc0, Hcl0, Hb0, Hi0, Hw0, Ho0.
      repeat split.
      * exists (S k). split; [lia|]. now rewrite <- app_assoc.
      * exists (j1 + j)%nat. now rewrite repeat_app, app_assoc.
    + rewrite He1, Hc1, Hcl1, Hb1, Hi1, Hw1, Ho1.
      rewrite He0, Hc0, Hcl0, Hb0, Hi0, Hw0, Ho0.
      repeat split; [exists 1%nat; split; [lia | reflexivity] | eauto].
Qed.

Lemma pageEmitClose_world (w : World) :
  let w' := pageEmitClose host engine w in
  (exists k, (k <= length (pending w))%nat
             /\ emitted w' = emitted w ++ repeat closeNote k)
  /\ (exists j, calls w' = calls w ++ repeat ContextClose j)
  /\ pageClosed w' = true
  /\ bindings w' = bindings w
  /\ interceptor w' = interceptor w
  /\ window w' = window w
  /\ stdout w' = stdout w.
Proof.
  intros w'. subst w'. unfold pageEmitClose.
  fold (pending w).
  destruct (firePage_world (pending w) (markPageClosed w))
    as (He & Hc & Hcl & Hb & Hi & Hw & Ho).
  repeat split; assumption.
Qed.

(** With no listener waiting the close of the window only closes the page;
    with the one of lines 78-81 waiting, that listener leaves and runs. *)
Lemma pageEmitClose_idle (w : World) :
  pending w = [] -> pageEmitClose host engine w = markPageClosed w.
Proof. intros Hp. unfold pageEmitClose. fold (pending w). now rewrite Hp. Qed.

Lemma pageEmitClose_fires (w : World) :
  pending w = [closeListener] ->
  pageEmitClose host engine w
  = snd (runPageListener host engine onPageClose (firingWorld w)).
Proof.
  intros Hp. unfold pageEmitClose. fold (pending w). rewrite Hp.
  rewrite fire_cons. change (fire _ _ _ _ [] ?w) with (Resolved tt, w).
  change (leave pageListeners setPageListeners "close" closeListener
            (markPageClosed w)) with (firingWorld w).
  now destruct (runPageListener host engine _ (firingWorld w)) as [[[]|e] w1].
Qed.

Lemma pending_firingWorld (w : World) :
  pending w = [closeListener] -> pending (firingWorld w) = [].
Proof.
  intros Hp. unfold pending, firingWorld. simpl.
  rewrite registered_removeOnce_eq. fold (pending w). now rewrite Hp.
Qed.

Lemma call_quiet (c : EngineCall) (w : World) :
  quietCall c = true -> life (snd (call host engine c w)) = life w.
Proof.
  intros Hq.
  destruct (call_cases host engine c w) as [[_ ->]|(e & _ & ->)];
    destruct c; try discriminate Hq; reflexivity.
Qed.

Lemma push_quiet (pc : PageCall) (w : World) :
  life (snd (swallow (call host engine (Eval pc)) w)) = life w.
Proof. rewrite swallow_world. now apply call_quiet. Qed.

Lemma setSources_quiet (sources : list Source) (w : World) :
  life (snd (setSources host engine sources w)) = life w.
Proof.
  unfold setSources, bind.
  pose proof (swallow_resolves
                (call host engine (Eval (playwrightSetSources sources))) w) as Hs.
  pose proof (push_quiet (playwrightSetSources sources) w) as Hl.
  destruct (swallow _ w) as [r w']. simpl in Hs, Hl. subst r.
  destruct (truthy _ && _); [|exact Hl].
  destruct (head sources); exact Hl.
Qed.

Lemma serveRequest_quiet (url : string) (w : World) :
  life (snd (serveRequest host engine url w)) = life w.
Proof.
  unfold serveRequest.
  destruct (String.prefix virtualPrefix url); [|now apply call_quiet].
  unfold bind, settled.
  destruct (require_resolve host _) as [file|e]; [|reflexivity].
  destruct (readFile host file) as [buffer|e]; [|reflexivity].
  now apply call_quiet.
Qed.

(** A subscription emits ['newListener'] at most, which is neither [close]
    nor [event]. *)
Lemma on_life (type : string) (l : Listener) (w : World) :
  life (snd (on host type l w)) = life w.
Proof.
  destruct (hearers w "newListener") as [|h hs] eqn:Hn.
  - now rewrite (on_unannounced host type l w Hn).
  - rewrite on_announced by (rewrite Hn; discriminate).
    pose proof (emit_life "newListener" [JString type; listenerRef l] w) as Hl.
    rewrite !ofType_other in Hl by discriminate.
    now destruct (emit host "newListener" _ w) as [[b|e] w'].
Qed.

(** An explicit close either leaves the lifecycle alone (the engine rejected
    it, or the page was closed already), or closes the window. *)
Lemma close_cases (w : World) :
  (life (snd (close host engine w)) = life w
   /\ calls (snd (close host engine w)) = calls w ++ [ContextClose]
   /\ emitted (snd (close host engine w)) = emitted w
   /\ (settle engine w ContextClose = None -> pageClosed w = true))
  \/ (settle engine w ContextClose = None
      /\ pageClosed w = false
      /\ snd (close host engine w)
         = pageEmitClose host engine (logCall ContextClose w)).
Proof.
  unfold close.
  destruct (call_cases host engine ContextClose w) as [[Hs ->]|(e & Hs & ->)].
  - simpl. destruct (pageClosed w) eqn:Hc.
    + left. repeat split.
    + right. repeat split; assumption.
  - left. repeat split. congruence.
Qed.

(** The three shapes a turn can have, seen from the lifecycle. *)
Lemma turn_life (t : Turn) (w : World) :
  (life (turn host engine t w) = life w
   /\ (dispatched [t] = [] \/ bindings w !! "dispatch" = None))
  \/ (dispatched [t] = []
      /\ exists w0, life w0 = life w
                   /\ turn host engine t w = pageEmitClose host engine w0)
  \/ (exists data, dispatched [t] = [data]
                  /\ bindings w !! "dispatch" = Some relayDispatch
                  /\ life (turn host engine t w)
                     = (pageListeners w, pageClosed w, bindings w,
                        ofType "close" (emitted w),
                        ofType "event" (emitted w) ++ [eventNote data])).
Proof.
  destruct t as [[|data|url]|c].
  - right; left. split; [reflexivity|]. exists w. split; reflexivity.
  - simpl. destruct (bindings w !! "dispatch") as [[]|] eqn:Hb.
    + right; right. exists data. split; [reflexivity|]. split; [reflexivity|].
      simpl. rewrite emit_life.
      rewrite ofType_other by discriminate.
      now rewrite ofType_same by reflexivity.
    + left. split; [reflexivity | now right].
  - left. split; [|now left]. simpl.
    destruct (interceptor w) as [[]|]; [|reflexivity].
    apply serveRequest_quiet.
  - destruct c; simpl;
      try (left; split; [|now left];
           first [apply push_quiet | apply setSources_quiet
                 | now apply call_quiet | apply on_life]).
    destruct (close_cases w) as [(Hl & _ & _)|(_ & _ & Hw)].
    + left. split; [exact Hl | now left].
    + right; left. split; [reflexivity|].
      exists (logCall ContextClose w). split; [reflexivity | exact Hw].
Qed.

End Lifecycle.

Section Invariants.
Context (host : Host) (engine : Engine).

Lemma guarded_life (w w' : World) : life w' = life w -> guarded w -> guarded w'.
Proof.
  intros Hl. pose proof (life_closeCount w w' Hl) as Hc.
  unfold life in Hl. injection Hl as Hp _ _ _ _.
  unfold guarded, pending. now rewrite Hp, Hc.
Qed.

Lemma armed_life (w w' : World) : life w' = life w -> armed w -> armed w'.
Proof.
  intros Hl [Hg Ha]. split; [now apply (guarded_life w)|].
  pose proof (life_closeCount w w' Hl) as Hcc.
  unfold life in Hl. injection Hl as Hp Hc _ _ _.
  unfold pending in *. now rewrite Hp, Hc, Hcc.
Qed.

(** What waits under the guard is nothing, or the listener of lines 78-81. *)
Lemma guarded_pending (w : World) :
  guarded w ->
  (pending w = [] \/ (pending w = [closeListener] /\ closeCount w = 0%nat)).
Proof.
  intros [Honce Hle].
  destruct (pending w) as [|[[] once] [|? ?]]; simpl in Hle; [now left| |lia].
  right. inversion Honce as [|? ? Ho _]. simpl in Ho. subst once.
  split; [reflexivity | lia].
Qed.

(** The close of the window while the listener waits: it has left the page,
    the page is closed, and [close] has been emitted once more. *)
Lemma pageEmitClose_waiting (w : World) :
  pending w = [closeListener] ->
  let w' := pageEmitClose host engine w in
  pending w' = []
  /\ pageClosed w' = true
  /\ emitted w' = emitted w ++ [closeNote]
  /\ bindings w' = bindings w.
Proof.
  intros Hp w'. subst w'. rewrite (pageEmitClose_fires host engine w Hp).
  destruct (runPageListener_world host engine onPageClose (firingWorld w))
    as (He & _ & Hcl & Hpl & Hb & _).
  split; [unfold pending; rewrite Hpl; now apply pending_firingWorld|].
  split; [rewrite Hcl; reflexivity|].
  split; [rewrite He; reflexivity | rewrite Hb; reflexivity].
Qed.

(** Closing the window fires what is waiting, once, and leaves nothing
    waiting. *)
Lemma pageEmitClose_guarded (w : World) :
  guarded w ->
  pending (pageEmitClose host engine w) = []
  /\ closeCount (pageEmitClose host engine w)
     = (closeCount w + length (pending w))%nat
  /\ guarded (pageEmitClose host engine w).
Proof.
  intros Hg.
  assert (H : pending (pageEmitClose host engine w) = []
              /\ closeCount (pageEmitClose host engine w)
                 = (closeCount w + length (pending w))%nat).
  { destruct (guarded_pending w Hg) as [Hp|[Hp Hc]].
    - rewrite (pageEmitClose_idle host engine w Hp), Hp.
      split; [exact Hp | simpl; unfold closeCount; simpl; lia].
    - destruct (pageEmitClose_waiting w Hp) as (Hp' & _ & He & _).
      split; [exact Hp'|].
      rewrite (closeCount_app w _ _ He), Hp. reflexivity. }
  destruct H as [Hp Hc]. split; [exact Hp|]. split; [exact Hc|].
  destruct Hg as [_ Hle]. unfold guarded. rewrite Hp, Hc.
  split; [constructor | simpl; lia].
Qed.

Lemma event_guarded (w w' : World) (data : EventData) :
  life w' = (pageListeners w, pageClosed w, bindings w,
             ofType "close" (emitted w),
             ofType "event" (emitted w) ++ [eventNote data]) ->
  closeCount w' = closeCount w /\ pending w' = pending w /\ pageClosed w' = pageClosed w.
Proof.
  unfold life. intros [= Hp Hc _ He _].
  unfold closeCount, pending. now rewrite Hp, Hc, He.
Qed.

Lemma turn_guarded (t : Turn) (w : World) :
  guarded w -> guarded (turn host engine t w).
Proof.
  intros Hg.
  destruct (turn_life host engine t w)
    as [[Hl _]|[(_ & w0 & Hl & ->)|(data & _ & _ & Hl)]].
  - now apply (guarded_life w).
  - apply pageEmitClose_guarded. now apply (guarded_life w).
  - destruct (event_guarded _ _ _ Hl) as (Hc & Hp & _).
    unfold guarded. now rewrite Hc, Hp.
Qed.

Lemma turn_armed (t : Turn) (w : World) :
  armed w -> armed (turn host engine t w).
Proof.
  intros Ha.
  destruct (turn_life host engine t w)
    as [[Hl _]|[(_ & w0 & Hl & ->)|(data & _ & _ & Hl)]].
  - now apply (armed_life w).
  - apply (armed_life w w0 Hl) in Ha. destruct Ha as [Hg Ha].
    destruct (pageEmitClose_guarded w0 Hg) as (Hp & Hc & Hg').
    destruct (pageEmitClose_world host engine w0) as (_ & _ & Hcl & _).
    split; [exact Hg'|]. rewrite Hcl, Hc.
    destruct Hg as [_ Hle].
    destruct (pageClosed w0); lia.
  - destruct Ha as [Hg Ha].
    destruct (event_guarded _ _ _ Hl) as (Hc & Hp & Hcl).
    split.
    + unfold guarded. rewrite Hc, Hp. exact Hg.
    + now rewrite Hcl, Hc, Hp.
Qed.

Lemma turn_closed (t : Turn) (w : World) :
  pageClosed w = true -> pageClosed (turn host engine t w) = true.
Proof.
  intros Hc.
  destruct (turn_life host engine t w)
    as [[Hl _]|[(_ & w0 & Hl & ->)|(data & _ & _ & Hl)]].
  - unfold life in Hl. injection Hl as _ -> _ _ _. exact Hc.
  - now destruct (pageEmitClose_world host engine w0) as (_ & _ & -> & _).
  - unfold life in Hl. injection Hl as _ -> _ _ _. exact Hc.
Qed.



(** Runs preserve what turns preserve. *)
Lemma run_guarded (ts : list Turn) (w : World) :
  guarded w -> guarded (run host engine ts w).
Proof.
  revert w. induction ts as [|t ts IH]; intros w Hg; [exact Hg|].
  rewrite run_cons. apply IH. now apply turn_guarded.
Qed.

Lemma run_armed (ts : list Turn) (w : World) :
  armed w -> armed (run host engine ts w).
Proof.
  revert w. induction ts as [|t ts IH]; intros w Ha; [exact Ha|].
  rewrite run_cons. apply IH. now apply turn_armed.
Qed.

Lemma run_closed (ts : list Turn) (w : World) :
  pageClosed w = true -> pageClosed (run host engine ts w) = true.
Proof.
  revert w. induction ts as [|t ts IH]; intros w Hc; [exact Hc|].
  rewrite run_cons. apply IH. now apply turn_closed.
Qed.

Lemma dispatched_cons (t : Turn) (ts : list Turn) :
  dispatched (t :: ts) = dispatched [t] ++ dispatched ts.
Proof.
  unfold dispatched. simpl.
  destruct t as [[|data|url]|c]; reflexivity.
Qed.


End Invariants.

(* ===================================================================== *)
(** ** Properties: a controller from [open] on *)
(* ===================================================================== *)

Section Opened.
Context (host : Host) (engine : Engine) (inspectedContext : BrowserContext).

Lemma initWorld_life (k : nat) (w : World) :
  (1 <= k <= 4)%nat ->
  emitted (initWorld k w) = emitted w
  /\ pageClosed (initWorld k w) = pageClosed w
  /\ pending (initWorld k w)
     = (if decide (k = 4%nat) then pending w ++ [closeListener] else pending w)
  /\ (k = 4%nat -> bindings (initWorld k w) !! "dispatch" = Some relayDispatch).
Proof.
  intros Hk.
  assert (Hcases : k = 1%nat \/ k = 2%nat \/ k = 3%nat \/ k = 4%nat) by lia.
  destruct Hcases as [-> | [-> | [-> | ->]]]; simpl;
    repeat split; try discriminate.
  - unfold pending. simpl. apply registered_addListener_eq.
  - intros _. apply lookup_insert_eq.
Qed.

(** What [open] leaves behind: nothing emitted, the page as it was, and the
    close listener subscribed once at most, and subscribed when [open]
    resolves, with [dispatch] exposed. *)
Lemma open_life (w : World) :
  let w1 := snd (open host engine inspectedContext w) in
  emitted w1 = emitted w
  /\ pageClosed w1 = pageClosed w
  /\ (pending w1 = pending w \/ pending w1 = pending w ++ [closeListener])
  /\ (forall result,
        fst (open host engine inspectedContext w) = Resolved result ->
        pending w1 = pending w ++ [closeListener]
        /\ bindings w1 !! "dispatch" = Some relayDispatch).
Proof.
  intros w1. subst w1.
  destruct (settle engine w (launchCall host inspectedContext)) as [e|] eqn:Hl.
  { rewrite (open_launch_rejected host engine inspectedContext w e Hl).
    split; [reflexivity|]. split; [reflexivity|]. split; [now left|].
    intros result [=]. }
  destruct (settle engine (logCall (launchCall host inspectedContext) w)
              LoadDefaultContextAsIs) as [e|] eqn:Hd.
  { rewrite (open_load_rejected host engine inspectedContext w e Hl Hd).
    split; [reflexivity|]. split; [reflexivity|]. split; [now left|].
    intros result [=]. }
  destruct (open_booted host engine inspectedContext w Hl Hd) as [-> Hres].
  destruct (init_cases host engine (bootWorld host inspectedContext w))
    as (k & Hk & -> & Hrej & _).
  destruct (initWorld_life k (bootWorld host inspectedContext w) Hk)
    as (He & Hc & Hp & Hb).
  change (pending (bootWorld host inspectedContext w)) with (pending w) in Hp.
  rewrite He, Hc, Hp.
  split; [reflexivity|]. split; [reflexivity|]. split.
  - destruct (decide (k = 4%nat)); auto.
  - intros result Hr. specialize (Hres result Hr).
    destruct (decide (k = 4%nat)) as [Hk4|Hne].
    + split; [reflexivity | now apply Hb].
    + destruct Hrej as [e He']; [lia | congruence].
Qed.

Lemma open_guarded :
  guarded (snd (open host engine inspectedContext pristine)).
Proof.
  destruct (open_life pristine) as (He & _ & Hp & _).
  unfold guarded, closeCount. rewrite He.
  destruct Hp as [-> | ->]; simpl; split; try lia; repeat constructor.
Qed.

Lemma open_armed (result : RecorderApp) :
  fst (open host engine inspectedContext pristine) = Resolved result ->
  armed (snd (open host engine inspectedContext pristine))
  /\ bindings (snd (open host engine inspectedContext pristine)) !! "dispatch"
     = Some relayDispatch
  /\ emitted (snd (open host engine inspectedContext pristine)) = [].
Proof.
  intros Hres.
  destruct (open_life pristine) as (He & Hc & _ & Hr).
  destruct (Hr result Hres) as [Hp Hb].
  split; [|split; assumption].
  split; [apply open_guarded|].
  rewrite Hc, Hp. reflexivity.
Qed.


(** C4: however the turns fall, [close] is emitted at most once; and on a
    controller that [open] has handed out it has been emitted exactly once
    when the window is closed and not at all while it is open, whether the
    window closed by itself, or by an explicit [close] that the engine
    carried out, or both. *)
Theorem close_emitted_once (ts : list Turn) :
  let opened := open host engine inspectedContext pristine in
  let w := run host engine ts (snd opened) in
  (closeCount w <= 1)%nat
  /\ (forall result, fst opened = Resolved result ->
        (pageClosed w = true -> closeCount w = 1%nat)
        /\ (pageClosed w = false -> closeCount w = 0%nat)
        /\ (In (FromWindow WindowClosed) ts -> closeCount w = 1%nat)
        /\ (forall ts1 ts2,
              ts = ts1 ++ FromHost CallClose :: ts2 ->
              settle engine (run host engine ts1 (snd opened)) ContextClose = None ->
              closeCount w = 1%nat)).
Proof.
  intros opened w. subst opened w.
  set (w1 := snd (open host engine inspectedContext pristine)).
  split.
  { destruct (run_guarded host engine ts w1 open_guarded) as [_ Hle]. lia. }
  intros result Hres.
  destruct (open_armed result Hres) as (Ha & _ & _). fold w1 in Ha.
  assert (Hclosed : forall ts0 : list Turn,
             pageClosed (run host engine ts0 w1) = true ->
             closeCount (run host engine ts0 w1) = 1%nat).
  { intros ts0 Hc.
    destruct (run_armed host engine ts0 w1 Ha) as [_ Hrun].
    now rewrite Hc in Hrun. }
  split; [apply Hclosed|].
  split.
  { intros Hc.
    destruct (run_armed host engine ts w1 Ha) as [[_ Hle] Hrun].
    rewrite Hc in Hrun. lia. }
  split.
  - intros Hin. apply Hclosed.
    destruct (in_split _ _ Hin) as (ts1 & ts2 & ->).
    rewrite run_app, run_cons. apply run_closed. simpl.
    now destruct (pageEmitClose_world host engine (run host engine ts1 w1))
      as (_ & _ & -> & _).
  - intros ts1 ts2 -> Hs. apply Hclosed.
    rewrite run_app, run_cons. apply run_closed. simpl.
    destruct (close_cases host engine (run host engine ts1 w1))
      as [(Hl & _ & _ & Hc)|(_ & _ & ->)].
    + unfold life in Hl. injection Hl as _ -> _ _ _. now apply Hc.
    + now destruct (pageEmitClose_world host engine
                      (logCall ContextClose (run host engine ts1 w1)))
        as (_ & _ & -> & _).
Qed.

(** C5, as the code has it: once [close] has been emitted, an explicit
    [close] emits nothing more, and yet it is not a no-op on the session: it
    issues one more close of the context. *)
Theorem close_after_close_issues_one_call (ts : list Turn) :
  let w := run host engine ts (snd (open host engine inspectedContext pristine)) in
  closeCount w = 1%nat ->
  issuedSince w (snd (close host engine w)) = [ContextClose]
  /\ emitted (snd (close host engine w)) = emitted w.
Proof.
  intros w Hone.
  assert (Hg : guarded w) by apply run_guarded, open_guarded.
  assert (Hp : pending w = []).
  { destruct Hg as [_ Hle]. apply nil_length_inv. lia. }
  destruct (close_cases host engine w) as [(_ & Hc & He & _)|(_ & _ & ->)].
  - split; [now apply issuedSince_app | exact He].
  - rewrite (pageEmitClose_idle host engine (logCall ContextClose w)) by exact Hp.
    split; [now apply issuedSince_app | reflexivity].
Qed.

End Opened.

(* ===================================================================== *)
(** ** The properties on sample runs *)
(* ===================================================================== *)

Lemma dispatched_invocations (payloads : list EventData) :
  dispatched (map (fun data => FromWindow (DispatchCalled data)) payloads) = payloads.
Proof.
  induction payloads as [|data payloads IH]; [reflexivity|].
  cbn [map]. rewrite dispatched_cons, IH. reflexivity.
Qed.


Lemma close_emitted_once_witness :
  (closeCount (run sampleHost strictEngine race readyWorld) <= 1)%nat
  /\ closeCount (run sampleHost strictEngine race readyWorld) = 1%nat
  /\ closeCount (run sampleHost strictEngine [FromHost CallClose] readyWorld) = 1%nat
  /\ closeCount (run sampleHost strictEngine [FromHost (CallSetPaused true)] readyWorld)
     = 0%nat.
Proof.
  split; [exact (proj1 (close_emitted_once sampleHost strictEngine sampleContext race))|].
  split.
  - destruct (close_emitted_once sampleHost strictEngine sampleContext race) as [_ H].
    destruct (H _ eq_refl) as (_ & _ & Hw & _).
    apply Hw. simpl. auto.
  - split.
    + destruct (close_emitted_once sampleHost strictEngine sampleContext
                  [FromHost CallClose]) as [_ H].
      destruct (H _ eq_refl) as (_ & _ & _ & He).
      exact (He [] [] eq_refl eq_refl).
    + destruct (close_emitted_once sampleHost strictEngine sampleContext
                  [FromHost (CallSetPaused true)]) as [_ H].
      destruct (H _ eq_refl) as (_ & Ho & _).
      exact (Ho eq_refl).
Defined.

(** C5, as claimed, fails: with [close] emitted, the listener of lines 78-81
    has itself issued a close of the context, after emitting; a later explicit
    [close] issues another; and a later push still issues its evaluation. *)
Lemma closed_controller_still_calls_session :
  emitted closedWorld = [closeNote]
  /\ issuedSince readyWorld closedWorld = [ContextClose]
  /\ issuedSince closedWorld (snd (close sampleHost strictEngine closedWorld)) = [ContextClose]
  /\ issuedSince closedWorld (snd (setFile sampleHost strictEngine "x" closedWorld))
     = [Eval (playwrightSetFile "x")].
Proof. repeat split; vm_compute; reflexivity. Qed.

Lemma close_after_close_issues_one_call_witness :
  issuedSince closedWorld (snd (close sampleHost strictEngine closedWorld)) = [ContextClose]
  /\ emitted (snd (close sampleHost strictEngine closedWorld)) = emitted closedWorld.
Proof.
  exact (close_after_close_issues_one_call sampleHost strictEngine sampleContext
           [FromWindow WindowClosed] eq_refl).
Defined.


(** When the engine rejects the exposure of the binding, no navigation is
    issued. *)
Example init_stops_at_rejection :
  let engine := {| settle := fun _ c =>
                     match c with
                     | ExposeBinding _ _ _ => Some "already registered"
                     | _ => None
                     end;
                   browserWsEndpoint := None |} in
  _init sampleHost engine pristine
  = (Rejected "already registered", initWorld 3 pristine)
  /\ issuedSince pristine (initWorld 3 pristine)
     = [ InstallAppIcon;
         SetServerRequestInterceptor serveRecorderAssets;
         ExposeBinding "dispatch" false relayDispatch ].
Proof. split; vm_compute; reflexivity. Qed.

(** The scenario of the specification: open, two pushes, the window closes,
    a push that resolves without reaching the window, and a close. *)
Example scenario :
  let w1 := run sampleHost strictEngine
              [ FromHost (CallSetMode recording);
                FromHost (CallSetPaused true);
                FromWindow WindowClosed ] readyWorld in
  let pushed := setFile sampleHost strictEngine "x" w1 in
  let closed := close sampleHost strictEngine (snd pushed) in
  window w1 = [playwrightSetMode recording; playwrightSetPaused true]
  /\ fst pushed = Resolved tt
  /\ window (snd pushed) = window w1
  /\ fst closed = Resolved tt
  /\ emitted (snd closed) = [closeNote]
  /\ issuedSince (snd pushed) (snd closed) = [ContextClose].
Proof. repeat split; vm_compute; reflexivity. Qed.

(* ===================================================================== *)
(** ** Properties: signals while [open] is in flight *)
(* ===================================================================== *)

Section OpeningFacts.
Context (host : Host) (engine : Engine).

Lemma awaitWith_none {A} (p : Promise A) (w : World) : awaitWith host engine [] p w = p w.
Proof. unfold awaitWith. now destruct (p w). Qed.

Lemma openWith_atomic (inspectedContext : BrowserContext) (w : World) :
  openWith host engine (fun _ => []) inspectedContext w
  = open host engine inspectedContext w.
Proof.
  unfold openWith, open, controller_run, _initWith, _init, bind.
  repeat (rewrite awaitWith_none;
          match goal with
          | |- context [call host engine ?c ?w0] =>
              destruct (call host engine c w0) as [[[]|e] ?]; [|reflexivity]
          end; simpl).
  reflexivity.
Qed.

Lemma signals_run (ss : list Signal) (w : World) :
  signals host engine ss w = run host engine (map FromWindow ss) w.
Proof.
  revert w. induction ss as [|s ss IH]; intros w; [reflexivity|].
  simpl. rewrite <- IH. reflexivity.
Qed.

Lemma unarmed_guarded (w : World) : unarmed w -> guarded w.
Proof.
  intros [Hp Hc]. unfold guarded. rewrite Hp, Hc. split; [constructor | simpl; lia].
Qed.

Lemma turn_unarmed (t : Turn) (w : World) :
  unarmed w -> unarmed (turn host engine t w).
Proof.
  intros [Hp Hc].
  destruct (turn_life host engine t w)
    as [[Hl _]|[(_ & w0 & Hl & ->)|(data & _ & _ & Hl)]].
  - unfold life in Hl. injection Hl as Hp' _ _ He.
    unfold unarmed, pending, closeCount in *. now rewrite Hp', He.
  - assert (Hu : unarmed w0).
    { unfold life in Hl. injection Hl as Hp' _ _ He.
      unfold unarmed, pending, closeCount in *. now rewrite Hp', He. }
    destruct (pageEmitClose_guarded host engine w0 (unarmed_guarded w0 Hu))
      as (Hp0 & Hc0 & _).
    destruct Hu as [Hu1 Hu2]. split; [exact Hp0|].
    rewrite Hc0, Hu1, Hu2. reflexivity.
  - destruct (event_guarded _ _ _ Hl) as (Hc' & Hp' & _).
    unfold unarmed. now rewrite Hc', Hp'.
Qed.

Lemma signals_unarmed (ss : list Signal) (w : World) :
  unarmed w -> unarmed (signals host engine ss w).
Proof.
  revert w. induction ss as [|s ss IH]; intros w Hu; [exact Hu|].
  simpl. apply IH. exact (turn_unarmed (FromWindow s) w Hu).
Qed.

Lemma signals_guarded (ss : list Signal) (w : World) :
  guarded w -> guarded (signals host engine ss w).
Proof. rewrite signals_run. apply run_guarded. Qed.

(** A call other than the close of the context touches neither the close
    listeners nor what was emitted. *)
Lemma call_pending (c : EngineCall) (w : World) :
  c <> ContextClose ->
  pending (snd (call host engine c w)) = pending w
  /\ closeCount (snd (call host engine c w)) = closeCount w.
Proof.
  intros Hc.
  destruct (call_cases host engine c w) as [[_ ->]|(e & _ & ->)];
    destruct c; try congruence; split; reflexivity.
Qed.

Lemma await_call_unarmed (ss : list Signal) (c : EngineCall) (w : World) :
  c <> ContextClose -> unarmed w ->
  unarmed (snd (awaitWith host engine ss (call host engine c) w)).
Proof.
  intros Hc [Hp Hn]. unfold awaitWith.
  destruct (call_pending c w Hc) as [Hp' Hn'].
  destruct (call host engine c w) as [r w']. simpl in *.
  apply signals_unarmed. unfold unarmed. now rewrite Hp', Hn'.
Qed.

Lemma await_call_guarded (ss : list Signal) (c : EngineCall) (w : World) :
  c <> ContextClose -> guarded w ->
  guarded (snd (awaitWith host engine ss (call host engine c) w)).
Proof.
  intros Hc Hg. unfold awaitWith.
  destruct (call_pending c w Hc) as [Hp' Hn'].
  destruct (call host engine c w) as [r w']. simpl in *.
  apply signals_guarded. unfold guarded. now rewrite Hp', Hn'.
Qed.

(** What holds of the world after [p] and of every world [k] leads to holds
    of the world after [p ;; k]. *)
Lemma bind_world {A B} (p : Promise A) (k : A -> Promise B)
    (P Q : World -> Prop) (w : World) :
  P (snd (p w)) ->
  (forall w', P w' -> Q w') ->
  (forall a w', P w' -> Q (snd (k a w'))) ->
  Q (snd (bind p k w)).
Proof.
  intros Hp Hrej Hres. unfold bind.
  destruct (p w) as [[a|e] w']; simpl in *; auto.
Qed.

Lemma subscribe_close_guarded (w : World) :
  unarmed w ->
  guarded (setPageListeners
             (EventEmitter.once "close" onPageClose (pageListeners w)) w).
Proof.
  intros [Hp Hc].
  set (w' := setPageListeners _ w).
  assert (Hp' : pending w' = [closeListener]).
  { unfold pending, w'. cbn [pageListeners setPageListeners].
    unfold EventEmitter.once. rewrite registered_addListener_eq.
    fold (pending w). now rewrite Hp. }
  assert (Hc' : closeCount w' = closeCount w) by reflexivity.
  unfold guarded. rewrite Hp', Hc', Hc.
  split; [repeat constructor | simpl; lia].
Qed.

Lemma initWith_guarded (arrivals : nat -> list Signal) (w : World) :
  unarmed w -> guarded (snd (_initWith host engine arrivals w)).
Proof.
  intros Hu. unfold _initWith.
  apply (bind_world _ _ unarmed guarded);
    [now apply await_call_unarmed | apply unarmed_guarded | clear w Hu; intros _ w Hu].
  apply (bind_world _ _ unarmed guarded);
    [now apply await_call_unarmed | apply unarmed_guarded | clear w Hu; intros _ w Hu].
  apply (bind_world _ _ unarmed guarded);
    [now apply await_call_unarmed | apply unarmed_guarded | clear w Hu; intros _ w Hu].
  apply (bind_world _ _ guarded guarded); [|auto|].
  - now apply subscribe_close_guarded.
  - clear w Hu. intros _ w Hg. now apply await_call_guarded.
Qed.

Lemma openWith_guarded (arrivals : nat -> list Signal)
    (inspectedContext : BrowserContext) :
  guarded (snd (openWith host engine arrivals inspectedContext pristine)).
Proof.
  unfold openWith, controller_run.
  apply (bind_world _ _ unarmed guarded);
    [apply await_call_unarmed; [discriminate | split; reflexivity]
    | apply unarmed_guarded | intros _ w Hu].
  apply (bind_world _ _ unarmed guarded);
    [now apply await_call_unarmed | apply unarmed_guarded
    | clear w Hu; intros _ w Hu].
  unfold new_RecorderApp, bind, effect, ret.
  set (w0 := setApp _ w).
  assert (Hu0 : unarmed w0) by exact Hu.
  pose proof (initWith_guarded arrivals w0 Hu0) as Hg.
  now destruct (_initWith host engine arrivals w0) as [[[]|e] w'].
Qed.

(** However the window closes or calls while [open] is in flight, and
    whatever turns follow, [close] is emitted at most once. *)
Lemma close_at_most_once_while_opening
    (arrivals : nat -> list Signal) (inspectedContext : BrowserContext)
    (ts : list Turn) :
  (closeCount (run host engine ts
                 (snd (openWith host engine arrivals inspectedContext pristine)))
   <= 1)%nat.
Proof.
  destruct (run_guarded host engine ts _ (openWith_guarded arrivals inspectedContext))
    as [_ Hle].
  lia.
Qed.

End OpeningFacts.

(** The window closes while the navigation is pending: the listener fires,
    once, whatever follows. *)
Example window_closes_during_navigation :
  let arrivals := fun k => if Nat.eqb k 5 then [WindowClosed] else [] in
  let opened := openWith sampleHost strictEngine arrivals sampleContext pristine in
  fst opened = Resolved {| wsEndpoint := Some "ws://127.0.0.1:9222/devtools" |}
  /\ emitted (snd opened) = [closeNote]
  /\ closeCount (run sampleHost strictEngine race (snd opened)) = 1%nat.
Proof. repeat split; vm_compute; reflexivity. Qed.

(** The window closes before the listener is subscribed: the navigation is
    rejected, [open] rejects, and [close] is never emitted. *)
Example window_closes_before_subscription :
  let arrivals := fun k => if Nat.eqb k 3 then [WindowClosed] else [] in
  let opened := openWith sampleHost strictEngine arrivals sampleContext pristine in
  fst opened = Rejected "Target closed"
  /\ pending (snd opened) = [closeListener]
  /\ closeCount (run sampleHost strictEngine [FromHost CallClose] (snd opened))
     = 0%nat.
Proof. repeat split; vm_compute; reflexivity. Qed.

(* ===================================================================== *)
(** ** Further properties: the asset interceptor *)
(* ===================================================================== *)

Section InterceptorEdges.
Context (host : Host) (engine : Engine).

(** X1: a request under the virtual prefix whose path does not resolve, or
    whose file cannot be read, is answered by no route call at all: the
    handler rejects with the error of [require.resolve] or of [readFile], and
    leaves the world as it found it. *)
Theorem interceptor_rejects_unserved (path : string) (e : Error) (w : World) :
  (require_resolve host (bundleRoot ++ path)%string = Rejected e ->
     serveRequest host engine (virtualPrefix ++ path)%string w = (Rejected e, w))
  /\ (forall file,
        require_resolve host (bundleRoot ++ path)%string = Resolved file ->
        readFile host file = Rejected e ->
        serveRequest host engine (virtualPrefix ++ path)%string w = (Rejected e, w)).
Proof.
  split.
  - intros Hres. unfold serveRequest.
    rewrite prefix_app, substringFrom_app.
    unfold bind, settled. now rewrite Hres.
  - intros file Hres Hread. unfold serveRequest.
    rewrite prefix_app, substringFrom_app.
    unfold bind, settled. now rewrite Hres, Hread.
Qed.

(** X2: whatever the address and whatever the host and the engine do, the
    handler answers a request at most once: it issues no call and rejects, or
    it issues one [route.fulfill] (only for an address under the virtual
    prefix, always with status 200 and a base64 body), or it issues one
    [route.continue] (only for an address outside the prefix).  It never
    issues both, and never any other call. *)
Theorem interceptor_single_answer (url : string) (w : World) :
  let r := serveRequest host engine url w in
  (exists e, r = (Rejected e, w)
             /\ String.prefix virtualPrefix url = true)
  \/ (exists response,
        issuedSince w (snd r) = [RouteFulfill response]
        /\ String.prefix virtualPrefix url = true
        /\ status response = 200
        /\ isBase64 response = true
        /\ map fst (headers response) = ["Content-Type"])
  \/ (issuedSince w (snd r) = [RouteContinue]
      /\ String.prefix virtualPrefix url = false).
Proof.
  intros r. subst r. unfold serveRequest.
  destruct (String.prefix virtualPrefix url) eqn:Hp.
  - unfold bind, settled.
    destruct (require_resolve host _) as [file|e]; [|left; eauto].
    destruct (readFile host file) as [buffer|e]; [|left; eauto].
    right; left. eexists. split.
    + apply issuedSince_app. now apply call_route_calls.
    + repeat split.
  - right; right. split; [|reflexivity].
    apply issuedSince_app. now apply call_route_calls.
Qed.

End InterceptorEdges.

Lemma interceptor_rejects_unserved_witness :
  serveRequest sampleHost obligingEngine "https://playwright/missing.css" pristine
  = (Rejected "Cannot find module", pristine)
  /\ serveRequest lockedHost obligingEngine "https://playwright/app.js" pristine
     = (Rejected "EACCES", pristine).
Proof.
  split.
  - exact (proj1 (interceptor_rejects_unserved sampleHost obligingEngine
                    "missing.css" "Cannot find module" pristine) eq_refl).
  - exact (proj2 (interceptor_rejects_unserved lockedHost obligingEngine
                    "app.js" "EACCES" pristine)
             "/lib/web/recorder/app.js" eq_refl eq_refl).
Defined.

(* ===================================================================== *)
(** ** Further properties: the pushes and the output stream *)
(* ===================================================================== *)

Section Pushes.
Context (host : Host) (engine : Engine).

Lemma setSources_world (sources : list Source) (w : World) :
  let w1 := snd (call host engine (Eval (playwrightSetSources sources)) w) in
  let w' := snd (setSources host engine sources w) in
  calls w' = calls w1 /\ window w' = window w1
  /\ interceptor w' = interceptor w1 /\ app w' = app w1
  /\ delivered w' = delivered w1 /\ stderr w' = stderr w1.
Proof.
  intros w1 w'. subst w1 w'. unfold setSources, bind.
  pose proof (swallow_resolves
                (call host engine (Eval (playwrightSetSources sources))) w) as Hs.
  pose proof (swallow_world
                (call host engine (Eval (playwrightSetSources sources))) w) as Hw.
  destruct (swallow _ w) as [r w']. simpl in Hs, Hw. subst r w'.
  destruct (truthy _ && _); [|repeat split].
  destruct (head sources); repeat split.
Qed.

Lemma eval_world (pc : PageCall) (w : World) :
  let w' := snd (call host engine (Eval pc) w) in
  calls w' = calls w ++ [Eval pc]
  /\ window w'
     = window w ++ match settle engine w (Eval pc) with
                   | None => [pc]
                   | Some _ => []
                   end.
Proof.
  intros w'. subst w'.
  destruct (call_cases host engine (Eval pc) w) as [[Hs ->]|(e & Hs & ->)];
    rewrite Hs; simpl; [auto|].
  now rewrite app_nil_r.
Qed.

Lemma push_world (pc : PageCall) (w : World) :
  let w' := snd (method host engine (pushOf pc) w) in
  calls w' = calls w ++ [Eval pc]
  /\ window w'
     = window w ++ match settle engine w (Eval pc) with
                   | None => [pc]
                   | Some _ => []
                   end.
Proof.
  intros w'. subst w'.
  destruct (eval_world pc w) as [Hc Hw].
  destruct pc; simpl;
    try (unfold setMode, setFile, setPaused, setSelector, updateCallLogs;
         rewrite swallow_world; auto).
  destruct (setSources_world sources w) as (-> & -> & _). auto.
Qed.

(** X3: a sequence of pushes issues exactly one evaluation per push, in the
    order of the pushes and with the arguments as given, whatever the engine
    answers: no push is retried or skipped.  When the engine resolves every
    evaluation the window has received exactly these calls, in order; when it
    rejects every one (a closed window) the window has received none. *)
Theorem pushes_in_order (pcs : list PageCall) (w : World) :
  let w' := run host engine (pushes pcs) w in
  issuedSince w w' = map Eval pcs
  /\ ((forall w0 pc, settle engine w0 (Eval pc) = None) ->
      window w' = window w ++ pcs)
  /\ ((forall w0 pc, exists e, settle engine w0 (Eval pc) = Some e) ->
      window w' = window w).
Proof.
  intros w'. subst w'.
  assert (Hcalls : forall pcs w,
             calls (run host engine (pushes pcs) w) = calls w ++ map Eval pcs).
  { clear. intros pcs. induction pcs as [|pc pcs IH]; intros w.
    - simpl. now rewrite app_nil_r.
    - change (pushes (pc :: pcs)) with (FromHost (pushOf pc) :: pushes pcs).
      rewrite run_cons, IH. simpl turn.
      destruct (push_world pc w) as [-> _]. now rewrite <- app_assoc. }
  split; [apply issuedSince_app, Hcalls|].
  split.
  - intros Hok. revert w. induction pcs as [|pc pcs IH]; intros w.
    + simpl. now rewrite app_nil_r.
    + change (pushes (pc :: pcs)) with (FromHost (pushOf pc) :: pushes pcs).
      rewrite run_cons, IH. simpl turn.
      destruct (push_world pc w) as [_ ->]. rewrite Hok.
      now rewrite <- app_assoc.
  - intros Hno. revert w. induction pcs as [|pc pcs IH]; intros w.
    + reflexivity.
    + change (pushes (pc :: pcs)) with (FromHost (pushOf pc) :: pushes pcs).
      rewrite run_cons, IH. simpl turn.
      destruct (push_world pc w) as [_ ->].
      destruct (Hno w pc) as [e ->]. now rewrite app_nil_r.
Qed.

End Pushes.

Lemma pushes_in_order_witness :
  window (run sampleHost obligingEngine
            (pushes [playwrightSetMode recording; playwrightSetSelector "#ok" None])
            pristine)
  = [playwrightSetMode recording; playwrightSetSelector "#ok" None]
  /\ window (run sampleHost brokenEngine
               (pushes [playwrightSetMode recording; playwrightSetSelector "#ok" None])
               pristine)
     = [].
Proof.
  split.
  - exact (proj1 (proj2 (pushes_in_order sampleHost obligingEngine
                           [playwrightSetMode recording;
                            playwrightSetSelector "#ok" None] pristine))
             (fun _ _ => eq_refl)).
  - exact (proj2 (proj2 (pushes_in_order sampleHost brokenEngine
                           [playwrightSetMode recording;
                            playwrightSetSelector "#ok" None] pristine))
             (fun _ _ => ex_intro _ "Target closed" eq_refl)).
Defined.

Section Frames.
Context (host : Host) (engine : Engine).

Lemma pageEmitClose_frame (w : World) :
  stdout (pageEmitClose host engine w) = stdout w
  /\ interceptor (pageEmitClose host engine w) = interceptor w
  /\ window (pageEmitClose host engine w) = window w.
Proof.
  destruct (pageEmitClose_world host engine w) as (_ & _ & _ & _ & Hi & Hw & Ho).
  repeat split; assumption.
Qed.

Lemma call_interceptor (c : EngineCall) (w : World) :
  (forall h, c <> SetServerRequestInterceptor h) ->
  interceptor (snd (call host engine c w)) = interceptor w.
Proof.
  intros Hc.
  destruct (call_cases host engine c w) as [[_ ->]|(e & _ & ->)]; [|reflexivity].
  destruct c; try reflexivity.
  - now destruct (Hc handler).
  - simpl. destruct (pageClosed w); [reflexivity|].
    now destruct (pageEmitClose_frame (logCall ContextClose w)) as (_ & -> & _).
Qed.

(** A call other than the close of the context leaves the page and what was
    emitted alone; it adds a binding at most. *)
Lemma call_page (c : EngineCall) (w : World) :
  c <> ContextClose ->
  emitted (snd (call host engine c w)) = emitted w
  /\ pageClosed (snd (call host engine c w)) = pageClosed w
  /\ pageListeners (snd (call host engine c w)) = pageListeners w
  /\ ((forall name h b, c <> ExposeBinding name h b) ->
      bindings (snd (call host engine c w)) = bindings w).
Proof.
  intros Hc.
  destruct (call_cases host engine c w) as [[_ ->]|(e & _ & ->)];
    destruct c; try congruence; repeat split;
    intros Hb; now destruct (Hb name needsHandle handler).
Qed.

Lemma setSources_page (sources : list Source) (w : World) :
  let w1 := snd (call host engine (Eval (playwrightSetSources sources)) w) in
  let w' := snd (setSources host engine sources w) in
  emitted w' = emitted w1 /\ pageClosed w' = pageClosed w1
  /\ pageListeners w' = pageListeners w1 /\ bindings w' = bindings w1
  /\ interceptor w' = interceptor w1.
Proof.
  intros w1 w'. subst w1 w'. unfold setSources, bind.
  pose proof (swallow_resolves
                (call host engine (Eval (playwrightSetSources sources))) w) as Hs.
  pose proof (swallow_world
                (call host engine (Eval (playwrightSetSources sources))) w) as Hw.
  destruct (swallow _ w) as [r w']. simpl in Hs, Hw. subst r w'.
  destruct (truthy _ && _); [|repeat split].
  destruct (head sources); repeat split.
Qed.

(** What a subscription emits. *)
Lemma on_world (type : string) (l : Listener) (w : World) :
  outside (snd (on host type l w))
  = outside (match hearers w "newListener" with
             | [] => w
             | _ => logEmission (newListenerNote type l) w
             end).
Proof.
  destruct (hearers w "newListener") as [|h hs] eqn:Hn.
  - now rewrite (on_unannounced host type l w Hn).
  - rewrite on_announced by (rewrite Hn; discriminate).
    pose proof (emit_outside host "newListener" [JString type; listenerRef l] w)
      as Ho.
    now destruct (emit host "newListener" _ w) as [[b|e] w'].
Qed.

(** X4: of all the methods, only [close] bears on the lifecycle.  A push, a
    [bringToFront] or a subscription closes no page and leaves the listeners
    of the page, the bindings and the interceptor as they are, whether the
    engine resolves or rejects its call; and it emits nothing, but for the
    ['newListener'] that [on] emits, as in Node, when somebody listens to
    it. *)
Theorem only_close_touches_lifecycle (c : HostCall) (w : World) :
  c <> CallClose ->
  let w' := snd (method host engine c w) in
  pageClosed w' = pageClosed w
  /\ pageListeners w' = pageListeners w
  /\ bindings w' = bindings w
  /\ interceptor w' = interceptor w
  /\ emitted w'
     = emitted w
       ++ match c with
          | CallOn type l =>
              match hearers w "newListener" with
              | [] => []
              | _ => [newListenerNote type l]
              end
          | _ => []
          end.
Proof.
  intros Hc w'. subst w'.
  assert (Hpush : forall pc,
             let w1 := snd (call host engine (Eval pc) w) in
             pageClosed w1 = pageClosed w /\ pageListeners w1 = pageListeners w
             /\ bindings w1 = bindings w /\ interceptor w1 = interceptor w
             /\ emitted w1 = emitted w ++ []).
  { intros pc w1. subst w1.
    destruct (call_page (Eval pc) w) as (He & Hcl & Hp & Hb); [discriminate|].
    rewrite He, Hcl, Hp, Hb, call_interceptor, app_nil_r by discriminate.
    repeat split. }
  destruct c; simpl; try congruence;
    try (unfold setMode, setFile, setPaused, setSelector, updateCallLogs;
         rewrite swallow_world; apply Hpush).
  - destruct (setSources_page sources w) as (-> & -> & -> & -> & ->).
    apply Hpush.
  - unfold bringToFront.
    destruct (call_page BringToFront w) as (He & Hcl & Hp & Hb); [discriminate|].
    rewrite He, Hcl, Hp, Hb, call_interceptor, app_nil_r by discriminate.
    repeat split.
  - pose proof (on_world type listener w) as Ho. unfold outside in Ho.
    injection Ho as _ He Hp Hi Hb Hcl _ _ _.
    rewrite He, Hp, Hi, Hb, Hcl.
    destruct (hearers w "newListener"); simpl; rewrite ?app_nil_r; repeat split.
Qed.

(** The output stream is out of reach of the engine, of the window and of
    the listeners. *)
Lemma call_stdout (c : EngineCall) (w : World) :
  stdout (snd (call host engine c w)) = stdout w.
Proof.
  destruct (call_cases host engine c w) as [[_ ->]|(e & _ & ->)]; [|reflexivity].
  destruct c; try reflexivity.
  simpl. destruct (pageClosed w); [reflexivity|].
  now destruct (pageEmitClose_frame (logCall ContextClose w)) as (-> & _).
Qed.

Lemma pageEmitClose_stdout (w : World) :
  stdout (pageEmitClose host engine w) = stdout w.
Proof. apply pageEmitClose_frame. Qed.

Lemma emit_stdout (type : string) (args : list EventData) (w : World) :
  stdout (snd (emit host type args w)) = stdout w.
Proof.
  pose proof (emit_outside host type args w) as H.
  unfold outside in H. now injection H as _ _ _ _ _ _ _ -> _.
Qed.

Lemma on_stdout (type : string) (l : Listener) (w : World) :
  stdout (snd (on host type l w)) = stdout w.
Proof.
  pose proof (on_world type l w) as H. unfold outside in H.
  injection H as _ _ _ _ _ _ _ -> _.
  now destruct (hearers w "newListener").
Qed.

Lemma serveRequest_stdout (url : string) (w : World) :
  stdout (snd (serveRequest host engine url w)) = stdout w.
Proof.
  unfold serveRequest.
  destruct (String.prefix virtualPrefix url); [|apply call_stdout].
  unfold bind, settled.
  destruct (require_resolve host _) as [file|e]; [|reflexivity].
  destruct (readFile host file) as [buffer|e]; [|reflexivity].
  apply call_stdout.
Qed.

Lemma setSources_stdout (sources : list Source) (w : World) :
  stdout (snd (setSources host engine sources w))
  = stdout w ++ written host (FromHost (CallSetSources sources)).
Proof.
  unfold setSources, bind, written, diagnosticOutput.
  pose proof (swallow_resolves
                (call host engine (Eval (playwrightSetSources sources))) w) as Hs.
  pose proof (swallow_world
                (call host engine (Eval (playwrightSetSources sources))) w) as Hw.
  pose proof (call_stdout (Eval (playwrightSetSources sources)) w) as Ho.
  destruct (swallow _ w) as [r w']. simpl in Hs, Hw. subst r w'.
  destruct sources as [|first rest]; simpl.
  - rewrite andb_false_r. simpl. now rewrite app_nil_r.
  - rewrite andb_true_r.
    destruct (truthy (env host "PWTEST_CLI_EXIT")); simpl.
    + rewrite Ho. now rewrite <- !app_assoc.
    + now rewrite app_nil_r.
Qed.

Lemma turn_stdout (t : Turn) (w : World) :
  stdout (turn host engine t w) = stdout w ++ written host t.
Proof.
  destruct t as [[|data|url]|c]; simpl.
  - rewrite app_nil_r. apply pageEmitClose_stdout.
  - rewrite app_nil_r. destruct (bindings w !! "dispatch") as [[]|];
      [apply emit_stdout | reflexivity].
  - rewrite app_nil_r. destruct (interceptor w) as [[]|]; [|reflexivity].
    apply serveRequest_stdout.
  - destruct c; simpl; rewrite ?app_nil_r;
      try (unfold close, setMode, setFile, setPaused, setSelector,
             updateCallLogs, bringToFront;
           rewrite ?swallow_world; apply call_stdout);
      try apply on_stdout.
    apply setSources_stdout.
Qed.

(** X5: over any run of turns, what reaches the output stream is what the
    calls of [setSources] in the run write, in their order, and nothing else:
    no other method and no signal from the window writes to it. *)
Theorem stdout_only_from_setSources (ts : list Turn) (w : World) :
  stdout (run host engine ts w) = stdout w ++ flat_map (written host) ts.
Proof.
  revert w. induction ts as [|t ts IH]; intros w.
  - simpl. now rewrite app_nil_r.
  - rewrite run_cons, IH, turn_stdout. simpl. now rewrite <- app_assoc.
Qed.

End Frames.

(** A subscription while somebody listens to ['newListener']. *)
Lemma only_close_touches_lifecycle_witness :
  let w := run sampleHost strictEngine [FromHost (CallOn "newListener" 1%nat)]
             readyWorld in
  let w' := snd (method sampleHost brokenEngine (CallOn "event" 2%nat) w) in
  pageClosed w' = pageClosed w
  /\ pageListeners w' = pageListeners w
  /\ bindings w' = bindings w
  /\ interceptor w' = interceptor w
  /\ emitted w' = emitted w ++ [newListenerNote "event" 2%nat].
Proof.
  pose proof (only_close_touches_lifecycle sampleHost brokenEngine
                (CallOn "event" 2%nat)
                (run sampleHost strictEngine
                   [FromHost (CallOn "newListener" 1%nat)] readyWorld)
                ltac:(discriminate)) as H.
  vm_compute in H |- *. exact H.
Defined.

(* ===================================================================== *)
(** ** Further properties: who hears what *)
(* ===================================================================== *)

Section Counting.

(** What a listener receives from an audience. *)
Lemma received_from (l : Listener) (n : Notification) (ls : list Listener) :
  map snd (filter (fun d => d.1 = l) (map (fun l' => (l', n)) ls))
  = repeat n (times l ls).
Proof.
  unfold times. induction ls as [|l' ls IH]; [reflexivity|].
  simpl map. rewrite !filter_cons. simpl.
  destruct (decide (l' = l)); simpl; now rewrite IH.
Qed.

Lemma received_audience (l : Listener) (hs : string -> list Listener)
    (ns : list Notification) :
  map snd (filter (fun d => d.1 = l) (audience hs ns)) = share l hs ns.
Proof.
  unfold audience, share. induction ns as [|n ns IH]; [reflexivity|].
  simpl. rewrite filter_app, map_app, IH, received_from. reflexivity.
Qed.

Lemma times_app (l : Listener) (ls ls' : list Listener) :
  times l (ls ++ ls') = (times l ls + times l ls')%nat.
Proof. unfold times. now rewrite filter_app, length_app. Qed.

Lemma times_absent (l : Listener) (ls : list Listener) :
  ~ In l ls -> times l ls = 0%nat.
Proof.
  unfold times. induction ls as [|l' ls IH]; intros Hl; [reflexivity|].
  rewrite filter_cons.
  destruct (decide (l' = l)) as [->|_].
  - destruct Hl. now left.
  - apply IH. intros Hin. apply Hl. now right.
Qed.

Lemma times_take (l : Listener) (k : nat) (ls : list Listener) :
  (times l (take k ls) <= times l ls)%nat.
Proof.
  rewrite <- (take_drop k ls) at 2. rewrite times_app. lia.
Qed.

Lemma repeat_sublist {A} (x : A) (a b : nat) :
  (a <= b)%nat -> repeat x a `sublist_of` repeat x b.
Proof.
  intros Hab. replace b with (a + (b - a))%nat by lia.
  rewrite repeat_app. apply sublist_inserts_r. reflexivity.
Qed.

Lemma share_app (l : Listener) (hs : string -> list Listener)
    (ns ns' : list Notification) :
  share l hs (ns ++ ns') = share l hs ns ++ share l hs ns'.
Proof. unfold share. apply flat_map_app. Qed.

(** The share of a listener depends on how often it listens, and on no
    other listener. *)
Lemma share_ext (l : Listener) (hs hs' : string -> list Listener)
    (ns : list Notification) :
  (forall type, times l (hs type) = times l (hs' type)) ->
  share l hs ns = share l hs' ns.
Proof.
  intros Hh. unfold share. apply flat_map_ext. intros n. now rewrite Hh.
Qed.

Lemma share_sublist (l : Listener) (hs hs' : string -> list Listener)
    (ns : list Notification) :
  (forall type, (times l (hs type) <= times l (hs' type))%nat) ->
  share l hs ns `sublist_of` share l hs' ns.
Proof.
  intros Hh. unfold share. induction ns as [|n ns IH]; [reflexivity|].
  simpl. apply sublist_app; [now apply repeat_sublist | exact IH].
Qed.

Lemma deaf (l : Listener) (hs : string -> list Listener) (ns : list Notification) :
  (forall type, times l (hs type) = 0%nat) -> share l hs ns = [].
Proof.
  intros Hz. unfold share. induction ns as [|n ns IH]; [reflexivity|].
  simpl. now rewrite Hz, IH.
Qed.

Lemma tuned (l : Listener) (hs : string -> list Listener) (type : string)
    (ns : list Notification) :
  (forall type', times l (hs type') = if decide (type' = type) then 1%nat else 0%nat) ->
  share l hs ns = ofType type ns.
Proof.
  intros Ht. unfold share, ofType. induction ns as [|n ns IH]; [reflexivity|].
  simpl. rewrite Ht, filter_cons, IH.
  destruct (decide (n.1 = type)); reflexivity.
Qed.

Lemma audience_app (hs : string -> list Listener) (ns ns' : list Notification) :
  audience hs (ns ++ ns') = audience hs ns ++ audience hs ns'.
Proof. unfold audience. apply flat_map_app. Qed.

Lemma closeNotes_known (k : nat) : Forall knownNote (repeat closeNote k).
Proof. induction k; simpl; constructor; [now left | assumption]. Qed.

(** Among notifications the controller emits, those of [close] are all
    alike. *)
Lemma closes_of (ns : list Notification) :
  Forall knownNote ns ->
  ofType "close" ns = repeat closeNote (length (ofType "close" ns)).
Proof.
  unfold ofType. induction 1 as [|n ns Hn _ IH]; [reflexivity|].
  rewrite filter_cons.
  destruct Hn as [->|[[data ->]|(type & l & ->)]]; simpl; [|exact IH..].
  now rewrite <- IH.
Qed.

Lemma emittedSince_app (w w' : World) (ns : list Notification) :
  emitted w' = emitted w ++ ns -> emittedSince w w' = ns.
Proof. unfold emittedSince. intros ->. apply drop_app_length. Qed.

Lemma received_app (l : Listener) (w w' : World)
    (ds : list (Listener * Notification)) :
  delivered w' = delivered w ++ ds ->
  received l w' = received l w ++ map snd (filter (fun d => d.1 = l) ds).
Proof. unfold received. intros ->. now rewrite filter_app, map_app. Qed.

End Counting.

Section Hearing.
Context (host : Host) (engine : Engine).

Lemma heard_silent (w w' : World) :
  plain (app w) ->
  app w' = app w -> emitted w' = emitted w -> delivered w' = delivered w ->
  heard host w w' [].
Proof.
  intros Hp Ha He Hd. unfold heard, hearers. rewrite Ha, He, Hd.
  rewrite app_nil_r. repeat split; try assumption.
  exists []. rewrite app_nil_r. repeat split.
  intros l. reflexivity.
Qed.

Lemma heard_trans (w w1 w2 : World) (ns ns' : list Notification) :
  heard host w w1 ns -> heard host w1 w2 ns' -> heard host w w2 (ns ++ ns').
Proof.
  intros (He & _ & Hh & ds & Hd & Hsub & Hfull)
         (He' & Hp' & Hh' & ds' & Hd' & Hsub' & Hfull').
  assert (Hhs : forall l type,
             times l (hearers w1 type) = times l (hearers w type))
    by (intros l type; now rewrite Hh).
  unfold heard. rewrite He', He, <- app_assoc.
  split; [reflexivity|]. split; [exact Hp'|].
  split; [intros type; now rewrite Hh', Hh|].
  exists (ds ++ ds'). rewrite Hd', Hd, <- app_assoc.
  split; [reflexivity|]. split.
  - intros l. rewrite filter_app, map_app, share_app.
    apply sublist_app; [apply Hsub|].
    rewrite <- (share_ext l (hearers w1) (hearers w)) by apply Hhs.
    apply Hsub'.
  - intros Hc.
    assert (Hc' : polite host w1)
      by (intros type l Hin; apply (Hc type l); now rewrite <- Hh).
    rewrite (Hfull Hc), (Hfull' Hc'), audience_app. f_equal.
    unfold audience. apply flat_map_ext. intros n. now rewrite Hh.
Qed.

Lemma emit_heard (type : string) (args : list EventData) (w : World) :
  plain (app w) -> heard host w (snd (emit host type args w)) [(type, args)].
Proof.
  intros Hp.
  destruct (emit_plain host type args w Hp) as (k & Hk & Hw & _).
  unfold heard. rewrite Hw.
  split; [reflexivity|]. split; [exact Hp|]. split; [reflexivity|].
  exists (map (fun l => (l, (type, args))) (take k (hearers w type))).
  split; [reflexivity|]. split.
  - intros l. rewrite received_from. unfold share. simpl. rewrite app_nil_r.
    apply repeat_sublist, times_take.
  - intros Hc.
    assert (Hret : Forall (returns host (type, args)) (hearers w type)).
    { apply List.Forall_forall. intros l Hin w0. now apply (Hc type l). }
    pose proof (emit_returns_world host type args w Hp Hret) as He.
    rewrite He in Hw.
    unfold audience. simpl. rewrite app_nil_r.
    apply (f_equal delivered) in Hw. simpl in Hw.
    now apply app_inv_head in Hw.
Qed.

Lemma runPageListener_heard (l : PageListener) (w : World) :
  plain (app w) ->
  heard host w (snd (runPageListener host engine l w)) [closeNote].
Proof.
  intros Hp. rewrite runPageListener_cases.
  pose proof (emit_heard "close" [] w Hp) as H.
  destruct (emit host "close" [] w) as [[b|e] w1]; [|exact H].
  simpl in *.
  change [closeNote] with ([closeNote] ++ []).
  apply (heard_trans w w1); [exact H|].
  destruct H as (_ & Hp1 & _).
  destruct (closing_listener_world engine w1)
    as (He & _ & _ & _ & _ & _ & _ & _ & _ & Ha & Hd).
  now apply heard_silent.
Qed.

Lemma firePage_heard (ens : list (EventEmitter.entry PageListener)) (w : World) :
  plain (app w) ->
  exists k, heard host w
              (snd (fire pageListeners setPageListeners
                      (runPageListener host engine) "close" ens w))
              (repeat closeNote k).
Proof.
  revert w. induction ens as [|en rest IH]; intros w Hp.
  - exists 0%nat. now apply heard_silent.
  - rewrite fire_cons.
    set (w0 := leave pageListeners setPageListeners "close" en w).
    assert (H0 : heard host w w0 []).
    { apply heard_silent; [exact Hp|..]; unfold w0, leave;
        now destruct (EventEmitter.isOnce en). }
    assert (Hp0 : plain (app w0)) by now destruct H0 as (_ & Hp0 & _).
    pose proof (runPageListener_heard (EventEmitter.callback en) w0 Hp0) as H1.
    destruct (runPageListener host engine (EventEmitter.callback en) w0)
      as [[[]|e] w1]; simpl in H1.
    + assert (Hp1 : plain (app w1)) by now destruct H1 as (_ & Hp1 & _).
      destruct (IH w1 Hp1) as [k Hk].
      exists (S k).
      change (repeat closeNote (S k)) with ([] ++ [closeNote] ++ repeat closeNote k).
      apply (heard_trans w w0); [exact H0|].
      now apply (heard_trans w0 w1).
    + exists 1%nat.
      change (repeat closeNote 1) with ([] ++ [closeNote]).
      now apply (heard_trans w w0).
Qed.

Lemma pageEmitClose_heard (w : World) :
  plain (app w) ->
  exists k, heard host w (pageEmitClose host engine w) (repeat closeNote k).
Proof.
  intros Hp. unfold pageEmitClose.
  destruct (firePage_heard (EventEmitter.registered "close" (pageListeners w))
              (markPageClosed w) Hp) as [k Hk].
  exists k. change (repeat closeNote k) with ([] ++ repeat closeNote k).
  apply (heard_trans w (markPageClosed w)); [now apply heard_silent | exact Hk].
Qed.

Lemma call_heard (c : EngineCall) (w : World) :
  plain (app w) ->
  exists k, heard host w (snd (call host engine c w)) (repeat closeNote k).
Proof.
  intros Hp.
  destruct (call_cases host engine c w) as [[_ ->]|(e & _ & ->)];
    [|exists 0%nat; now apply heard_silent].
  destruct c; try (exists 0%nat; now apply heard_silent).
  simpl. destruct (pageClosed w); [exists 0%nat; now apply heard_silent|].
  destruct (pageEmitClose_heard (logCall ContextClose w) Hp) as [k Hk].
  exists k. change (repeat closeNote k) with ([] ++ repeat closeNote k).
  apply (heard_trans w (logCall ContextClose w));
    [now apply heard_silent | exact Hk].
Qed.

Lemma setSources_heard (sources : list Source) (w : World) :
  plain (app w) -> heard host w (snd (setSources host engine sources w)) [].
Proof.
  intros Hp.
  destruct (setSources_world host engine sources w)
    as (_ & _ & _ & Ha & Hd & _).
  destruct (setSources_page host engine sources w) as (He & _).
  destruct (call_cases host engine (Eval (playwrightSetSources sources)) w)
    as [[_ Hc]|(e & _ & Hc)]; rewrite Hc in Ha, Hd, He; simpl in Ha, Hd, He;
    now apply heard_silent.
Qed.

Lemma serveRequest_heard (url : string) (w : World) :
  plain (app w) ->
  exists k, heard host w (snd (serveRequest host engine url w)) (repeat closeNote k).
Proof.
  intros Hp. unfold serveRequest.
  destruct (String.prefix virtualPrefix url); [|now apply call_heard].
  unfold bind, settled.
  destruct (require_resolve host _) as [file|e];
    [|exists 0%nat; now apply heard_silent].
  destruct (readFile host file) as [buffer|e];
    [|exists 0%nat; now apply heard_silent].
  now apply call_heard.
Qed.

(** A subscription: what it emits is heard by the listeners that were there;
    then the listener is appended, unless [on] threw. *)
Lemma on_heard (type : string) (l : Listener) (w : World) :
  plain (app w) ->
  exists w1 notes,
    heard host w w1 notes
    /\ Forall knownNote notes
    /\ (snd (on host type l w) = setApp (EventEmitter.on type l (app w1)) w1
        \/ (snd (on host type l w) = w1 /\ exists e, fst (on host type l w) = Rejected e))
    /\ (polite host w ->
        snd (on host type l w) = setApp (EventEmitter.on type l (app w1)) w1).
Proof.
  intros Hp.
  destruct (hearers w "newListener") as [|h hs] eqn:Hn.
  - exists w, []. rewrite (on_unannounced host type l w Hn).
    split; [now apply heard_silent|]. split; [constructor|].
    split; [now left | reflexivity].
  - rewrite on_announced by (rewrite Hn; discriminate).
    pose proof (emit_heard "newListener" [JString type; listenerRef l] w Hp) as H.
    assert (Hfull : polite host w ->
              exists b, fst (emit host "newListener"
                               [JString type; listenerRef l] w) = Resolved b).
    { intros Hc.
      assert (Hret : Forall (returns host (newListenerNote type l))
                            (hearers w "newListener")).
      { apply List.Forall_forall. intros l0 Hin w0.
        apply (Hc "newListener" l0). exact Hin. }
      rewrite (emit_returns host "newListener" _ w Hp Hret)
        by (left; discriminate).
      eauto. }
    destruct (emit host "newListener" _ w) as [[b|e] w1]; simpl in *.
    + exists w1, [newListenerNote type l].
      split; [exact H|].
      split; [constructor; [right; right; eauto | constructor]|].
      split; [now left | reflexivity].
    + exists w1, [newListenerNote type l].
      split; [exact H|].
      split; [constructor; [right; right; eauto | constructor]|].
      split; [right; eauto|].
      intros Hc. destruct (Hfull Hc) as [b Hb]. discriminate Hb.
Qed.

(** What a turn emits, and to whom: every notification goes to listeners its
    event has when the turn starts; a subscription adds its listener at the
    end of the listeners of its event, after what it emits. *)
Lemma turn_heard (t : Turn) (w : World) :
  plain (app w) ->
  exists w1 notes,
    heard host w w1 notes
    /\ Forall knownNote notes
    /\ (turn host engine t w = w1
        \/ exists type l,
             t = FromHost (CallOn type l)
             /\ turn host engine t w = setApp (EventEmitter.on type l (app w1)) w1)
    /\ (polite host w -> forall type l,
          t = FromHost (CallOn type l) ->
          turn host engine t w = setApp (EventEmitter.on type l (app w1)) w1).
Proof.
  intros Hp.
  assert (Hfrom : forall ns,
             heard host w (turn host engine t w) ns ->
             Forall knownNote ns ->
             (forall type l, t <> FromHost (CallOn type l)) ->
             exists w1 notes,
               heard host w w1 notes
               /\ Forall knownNote notes
               /\ (turn host engine t w = w1
                   \/ exists type l,
                        t = FromHost (CallOn type l)
                        /\ turn host engine t w
                           = setApp (EventEmitter.on type l (app w1)) w1)
               /\ (polite host w -> forall type l,
                     t = FromHost (CallOn type l) ->
                     turn host engine t w
                     = setApp (EventEmitter.on type l (app w1)) w1)).
  { intros ns Hh Hns Hne. exists (turn host engine t w), ns.
    split; [exact Hh|]. split; [exact Hns|]. split; [now left|].
    intros _ type l Ht. now destruct (Hne type l). }
  destruct t as [[|data|url]|c].
  - destruct (pageEmitClose_heard w Hp) as [k Hk].
    apply (Hfrom _ Hk); [apply closeNotes_known | discriminate].
  - simpl in *. destruct (bindings w !! "dispatch") as [[]|] eqn:Hb.
    + apply (Hfrom _ (emit_heard "event" [data] w Hp));
        [constructor; [right; left; now exists data | constructor] | discriminate].
    + apply (Hfrom [] (heard_silent w w Hp eq_refl eq_refl eq_refl));
        [constructor | discriminate].
  - simpl in *. destruct (interceptor w) as [[]|] eqn:Hi.
    + destruct (serveRequest_heard url w Hp) as [k Hk].
      apply (Hfrom _ Hk); [apply closeNotes_known | discriminate].
    + apply (Hfrom [] (heard_silent w w Hp eq_refl eq_refl eq_refl));
        [constructor | discriminate].
  - destruct c; simpl in *;
      try (unfold close, setMode, setFile, setPaused, setSelector,
             updateCallLogs, bringToFront in *;
           rewrite ?swallow_world in *;
           match goal with
           | |- context [call host engine ?c w] =>
               destruct (call_heard c w Hp) as [k Hk];
               apply (Hfrom _ Hk); [apply closeNotes_known | discriminate]
           end).
    + apply (Hfrom _ (setSources_heard sources w Hp));
        [constructor | discriminate].
    + destruct (on_heard type listener w Hp) as (w1 & notes & Hh & Hn & Hw & Hc).
      exists w1, notes. split; [exact Hh|]. split; [exact Hn|]. split.
      * destruct Hw as [Hw|[Hw _]]; [right; eauto | now left].
      * intros Hfull type' l' [= <- <-]. now apply Hc.
Qed.

Lemma subscribing_cons (t : Turn) (ts : list Turn) :
  subscribing (t :: ts) = subscribing [t] ++ subscribing ts.
Proof. unfold subscribing. simpl. now rewrite app_nil_r, map_app. Qed.

(** What a turn means to a listener it does not subscribe. *)
Lemma turn_heard_by (l : Listener) (t : Turn) (w : World) :
  plain (app w) ->
  ~ In l (subscribing [t]) ->
  let w' := turn host engine t w in
  plain (app w')
  /\ (forall type, times l (hearers w' type) = times l (hearers w type))
  /\ emitted w' = emitted w ++ emittedSince w w'
  /\ Forall knownNote (emittedSince w w')
  /\ exists got,
       received l w' = received l w ++ got
       /\ got `sublist_of` share l (hearers w) (emittedSince w w')
       /\ (polite host w -> got = share l (hearers w) (emittedSince w w')).
Proof.
  intros Hp Hl w'. subst w'.
  destruct (turn_heard t w Hp)
    as (w1 & notes & (He & Hp1 & Hh & ds & Hd & Hsub & Hfull) & Hn & Hw & _).
  assert (Hgot : exists got,
             received l w1 = received l w ++ got
             /\ got `sublist_of` share l (hearers w) notes
             /\ (polite host w -> got = share l (hearers w) notes)).
  { exists (map snd (filter (fun d => d.1 = l) ds)).
    split; [now apply received_app|]. split; [apply Hsub|].
    intros Hc. rewrite (Hfull Hc). apply received_audience. }
  destruct Hw as [->|(type & l' & -> & ->)].
  - rewrite (emittedSince_app w w1 notes He).
    split; [exact Hp1|]. split; [intros type; now rewrite Hh|].
    split; [exact He|]. split; [exact Hn | exact Hgot].
  - assert (Hne : l' <> l).
    { intros ->. apply Hl. unfold subscribing. simpl. now left. }
    rewrite (emittedSince_app w (setApp (EventEmitter.on type l' (app w1)) w1)
               notes He).
    split; [now apply plain_on|].
    split.
    { intros type'. unfold hearers. simpl. rewrite listeners_on.
      fold (hearers w1 type'). rewrite Hh, times_app.
      destruct (decide (type = type')).
      - rewrite (times_absent l [l']); [unfold hearers; lia|].
        intros [Hin|[]]. now apply Hne.
      - change (times l []) with 0%nat. unfold hearers. lia. }
    split; [exact He|]. split; [exact Hn | exact Hgot].
Qed.

(** Turns keep the emitter of the controller free of one-shot listeners. *)
Lemma turn_plain (t : Turn) (w : World) :
  plain (app w) -> plain (app (turn host engine t w)).
Proof.
  intros Hp.
  destruct (turn_heard t w Hp)
    as (w1 & notes & (_ & Hp1 & _) & _ & [->|(type & l & _ & ->)] & _);
    [exact Hp1 | now apply plain_on].
Qed.

(** Turns keep the listeners from throwing when those they subscribe do
    not. *)
Lemma turn_polite (t : Turn) (w : World) :
  plain (app w) -> polite host w ->
  Forall (obliging host) (subscribing [t]) ->
  polite host (turn host engine t w).
Proof.
  intros Hp Hc Hobl.
  destruct (turn_heard t w Hp)
    as (w1 & notes & (_ & _ & Hh & _) & _ & [->|(type & l & -> & ->)] & _).
  - intros type l Hin. apply (Hc type l). now rewrite <- Hh.
  - intros type' l' Hin. unfold hearers in Hin. simpl in Hin.
    rewrite listeners_on in Hin. fold (hearers w1 type') in Hin.
    rewrite Hh in Hin. apply in_app_or in Hin. destruct Hin as [Hin|Hin].
    + now apply (Hc type' l').
    + destruct (decide (type = type')); [|destruct Hin].
      destruct Hin as [<-|[]]. unfold subscribing in Hobl. simpl in Hobl.
      now inversion Hobl.
Qed.

Lemma run_plain (ts : list Turn) (w : World) :
  plain (app w) -> plain (app (run host engine ts w)).
Proof.
  revert w. induction ts as [|t ts IH]; intros w Hp; [exact Hp|].
  rewrite run_cons. apply IH. now apply turn_plain.
Qed.

Lemma run_polite (ts : list Turn) (w : World) :
  plain (app w) -> polite host w ->
  Forall (obliging host) (subscribing ts) ->
  polite host (run host engine ts w).
Proof.
  revert w. induction ts as [|t ts IH]; intros w Hp Hc Hobl; [exact Hc|].
  rewrite subscribing_cons in Hobl.
  apply Forall_app in Hobl. destruct Hobl as [Hobl1 Hobl2].
  rewrite run_cons. apply IH; [now apply turn_plain | | exact Hobl2].
  now apply turn_polite.
Qed.

Lemma subscribing_app (ts ts' : list Turn) :
  subscribing (ts ++ ts') = subscribing ts ++ subscribing ts'.
Proof. unfold subscribing. now rewrite flat_map_app, map_app. Qed.

(** Over a run in which a listener does not subscribe, it is called with
    notifications emitted during the run, in the order of emission, for each
    at most as often as it listens to its event; and exactly as often when
    none of the listeners of the controller throws. *)
Lemma run_heard (l : Listener) (ts : list Turn) (w : World) :
  plain (app w) ->
  ~ In l (subscribing ts) ->
  let w' := run host engine ts w in
  plain (app w')
  /\ (forall type, times l (hearers w' type) = times l (hearers w type))
  /\ emitted w' = emitted w ++ emittedSince w w'
  /\ Forall knownNote (emittedSince w w')
  /\ exists got,
       received l w' = received l w ++ got
       /\ got `sublist_of` share l (hearers w) (emittedSince w w')
       /\ (polite host w -> Forall (obliging host) (subscribing ts) ->
           got = share l (hearers w) (emittedSince w w')).
Proof.
  revert w. induction ts as [|t ts IH]; intros w Hp Hl w'; subst w'.
  - simpl. unfold emittedSince. rewrite drop_all. rewrite !app_nil_r.
    repeat split; auto. exists []. rewrite app_nil_r.
    repeat split. reflexivity.
  - rewrite run_cons.
    rewrite subscribing_cons in Hl.
    assert (Hl1 : ~ In l (subscribing [t]))
      by (intros Hin; apply Hl, in_or_app; now left).
    assert (Hl2 : ~ In l (subscribing ts))
      by (intros Hin; apply Hl, in_or_app; now right).
    destruct (turn_heard_by l t w Hp Hl1)
      as (Hp1 & Hh1 & He1 & Hn1 & got1 & Hr1 & Hs1 & Hc1).
    set (w1 := turn host engine t w) in *.
    destruct (IH w1 Hp1 Hl2)
      as (Hp2 & Hh2 & He2 & Hn2 & got2 & Hr2 & Hs2 & Hc2).
    set (w2 := run host engine ts w1) in *.
    assert (Hsince : emittedSince w w2 = emittedSince w w1 ++ emittedSince w1 w2).
    { apply emittedSince_app. rewrite He2, He1. now rewrite <- app_assoc. }
    split; [exact Hp2|].
    split; [intros type; now rewrite Hh2|].
    split; [rewrite He2, He1, Hsince; now rewrite <- app_assoc|].
    split; [rewrite Hsince; apply Forall_app; now split|].
    exists (got1 ++ got2).
    rewrite Hr2, Hr1, Hsince, share_app, <- app_assoc.
    rewrite (share_ext l (hearers w1) (hearers w)) in Hs2, Hc2 by exact Hh1.
    split; [reflexivity|].
    split; [now apply sublist_app|].
    intros Hc Hobl. rewrite subscribing_cons in Hobl.
    apply Forall_app in Hobl. destruct Hobl as [Hobl1 Hobl2].
    rewrite (Hc1 Hc), (Hc2 (turn_polite t w Hp Hc Hobl1) Hobl2).
    reflexivity.
Qed.

End Hearing.

(* ===================================================================== *)
(** ** Further properties: the path of [open] *)
(* ===================================================================== *)

Section Staging.
Context (host : Host) (engine : Engine).

Lemma signals_cons (s : Signal) (ss : list Signal) (w : World) :
  signals host engine (s :: ss) w
  = signals host engine ss (signal host engine s w).
Proof. reflexivity. Qed.

(** The route handler issues one call at most, an answer to the request. *)
Lemma serveRequest_cases (url : string) (w : World) :
  snd (serveRequest host engine url w) = w
  \/ exists c, own c = false /\ c <> ContextClose
       /\ snd (serveRequest host engine url w) = logCall c w.
Proof.
  assert (Hcall : forall c, own c = false -> c <> ContextClose ->
            exists c', own c' = false /\ c' <> ContextClose
              /\ snd (call host engine c w) = logCall c' w).
  { intros c Ho Hc. exists c. split; [exact Ho|]. split; [exact Hc|].
    destruct (call_cases host engine c w) as [[_ ->]|(e & _ & ->)]; [|reflexivity].
    destruct c; try discriminate Ho; try reflexivity. now destruct Hc. }
  unfold serveRequest. destruct (String.prefix virtualPrefix url).
  - unfold bind, settled.
    destruct (require_resolve host _) as [file|e]; [|now left].
    destruct (readFile host file) as [buffer|e]; [|now left].
    right. apply Hcall; [reflexivity | discriminate].
  - right. apply Hcall; [reflexivity | discriminate].
Qed.

(** The calls a signal leads to are not among those [open] issues itself;
    a close of the context is among them only when the window closes while
    a listener waits. *)
Lemma signal_calls (s : Signal) (w : World) :
  exists cs, calls (signal host engine s w) = calls w ++ cs
    /\ Forall (fun c => own c = false) cs
    /\ (In ContextClose cs -> s = WindowClosed /\ pending w <> []).
Proof.
  assert (Hnone : forall w', calls w' = calls w ->
            exists cs, calls w' = calls w ++ cs
              /\ Forall (fun c => own c = false) cs
              /\ (In ContextClose cs -> s = WindowClosed /\ pending w <> [])).
  { intros w' ->. exists []. rewrite app_nil_r.
    split; [reflexivity|]. split; [constructor | intros []]. }
  destruct s as [|data|url]; simpl.
  - destruct (pending w) as [|en ens] eqn:Hp.
    + apply Hnone. now rewrite (pageEmitClose_idle host engine w Hp).
    + destruct (pageEmitClose_world host engine w) as (_ & [j Hj] & _).
      exists (repeat ContextClose j). split; [exact Hj|]. split.
      * apply List.Forall_forall. intros c Hc. apply repeat_spec in Hc. now subst.
      * intros _. split; [reflexivity | discriminate].
  - destruct (bindings w !! "dispatch") as [[]|]; simpl.
    + apply Hnone. apply emit_calls.
    + now apply Hnone.
  - destruct (interceptor w) as [[]|]; simpl.
    + destruct (serveRequest_cases url w) as [->|(c & Ho & Hc & ->)].
      * now apply Hnone.
      * exists [c]. split; [reflexivity|].
        split; [constructor; [exact Ho | constructor]|].
        intros [->|[]]. now destruct Hc.
    + now apply Hnone.
Qed.

Lemma signals_calls (ss : list Signal) (w : World) :
  exists cs, calls (signals host engine ss w) = calls w ++ cs
    /\ Forall (fun c => own c = false) cs
    /\ (In ContextClose cs -> In WindowClosed ss).
Proof.
  revert w. induction ss as [|s ss IH]; intros w.
  - exists []. simpl. rewrite app_nil_r.
    split; [reflexivity|]. split; [constructor | intros []].
  - rewrite signals_cons.
    destruct (signal_calls s w) as (cs & Hcs & Ho & Hc).
    destruct (IH (signal host engine s w)) as (cs' & Hcs' & Ho' & Hc').
    exists (cs ++ cs'). rewrite Hcs', Hcs, <- app_assoc.
    split; [reflexivity|]. split; [now apply Forall_app|].
    intros Hin. apply in_app_or in Hin. destruct Hin as [Hin|Hin].
    + left. now destruct (Hc Hin) as [-> _].
    + right. now apply Hc'.
Qed.

Lemma others_filtered (cs : list EngineCall) :
  Forall (fun c => own c = false) cs -> filter (fun c => own c = true) cs = [].
Proof.
  induction 1 as [|c cs Hc _ IH]; [reflexivity|].
  rewrite filter_cons_False by congruence. exact IH.
Qed.

(** Signals add nothing to the calls [open] issues itself. *)
Lemma signals_own (ss : list Signal) (w : World) :
  ownCalls (signals host engine ss w) = ownCalls w.
Proof.
  destruct (signals_calls ss w) as (cs & Hcs & Ho & _).
  unfold ownCalls. rewrite Hcs, filter_app, (others_filtered cs Ho).
  apply app_nil_r.
Qed.

(** Neither do they touch what is installed, the window or the output. *)
Lemma signal_settled (s : Signal) (w : World) :
  let w' := signal host engine s w in
  interceptor w' = interceptor w /\ bindings w' = bindings w
  /\ window w' = window w /\ stdout w' = stdout w.
Proof.
  destruct s as [|data|url]; simpl.
  - destruct (pageEmitClose_world host engine w)
      as (_ & _ & _ & Hb & Hi & Hw & Ho).
    now repeat split.
  - destruct (bindings w !! "dispatch") as [[]|]; simpl; [|now repeat split].
    pose proof (emit_outside host "event" [data] w) as H.
    unfold outside in H. injection H as _ _ _ Hi Hb _ Hw Ho _.
    now repeat split.
  - destruct (interceptor w) as [[]|] eqn:Hi; simpl; [|now repeat split].
    destruct (serveRequest_cases url w) as [->|(c & _ & _ & ->)];
      now repeat split.
Qed.

Lemma signals_settled (ss : list Signal) (w : World) :
  let w' := signals host engine ss w in
  interceptor w' = interceptor w /\ bindings w' = bindings w
  /\ window w' = window w /\ stdout w' = stdout w.
Proof.
  revert w. induction ss as [|s ss IH]; intros w; [now repeat split|].
  rewrite signals_cons.
  destruct (signal_settled s w) as (Hi & Hb & Hw & Ho).
  destruct (IH (signal host engine s w)) as (Hi' & Hb' & Hw' & Ho').
  cbv zeta. rewrite Hi', Hb', Hw', Ho'. now repeat split.
Qed.

(** A window that closes closes the page, and the page stays closed. *)
Lemma signals_closed (ss : list Signal) (w : World) :
  pageClosed w = true \/ In WindowClosed ss ->
  pageClosed (signals host engine ss w) = true.
Proof.
  revert w. induction ss as [|s ss IH]; intros w Hw.
  - destruct Hw as [Hc|[]]. exact Hc.
  - rewrite signals_cons. apply IH.
    destruct Hw as [Hc|[->|Hin]].
    + left. exact (turn_closed host engine (FromWindow s) w Hc).
    + left. simpl.
      now destruct (pageEmitClose_world host engine w) as (_ & _ & -> & _).
    + now right.
Qed.

(** While nobody listens to the controller, what the page does leaves its
    emitter alone and calls nobody. *)
Lemma firePage_unheard (ens : list (EventEmitter.entry PageListener)) (w : World) :
  (forall type, hearers w type = []) ->
  let w' := snd (fire pageListeners setPageListeners
                   (runPageListener host engine) "close" ens w) in
  app w' = app w /\ delivered w' = delivered w.
Proof.
  revert w. induction ens as [|en rest IH]; intros w Hn w'; subst w';
    [split; reflexivity|].
  rewrite fire_cons.
  set (w0 := leave pageListeners setPageListeners "close" en w).
  assert (H0 : app w0 = app w /\ delivered w0 = delivered w)
    by (unfold w0, leave; now destruct (EventEmitter.isOnce en)).
  destruct H0 as [Ha0 Hd0].
  assert (Hn0 : hearers w0 "close" = [])
    by (unfold hearers; rewrite Ha0; apply Hn).
  rewrite runPageListener_cases,
    (emit_nobody host "close" [] w0 ltac:(discriminate) Hn0).
  destruct (closing_listener_world engine (logEmission ("close", []) w0))
    as (_ & _ & _ & _ & _ & _ & _ & _ & _ & Ha1 & Hd1).
  set (w1 := snd (catch _ _ (logEmission ("close", []) w0))) in *.
  assert (Hn1 : forall type, hearers w1 type = []).
  { intros type. unfold hearers. rewrite Ha1. simpl. rewrite Ha0. apply Hn. }
  destruct (IH w1 Hn1) as [Ha2 Hd2].
  simpl. rewrite Ha2, Hd2, Ha1, Hd1. simpl. now split.
Qed.

Lemma signal_unheard (s : Signal) (w : World) :
  (forall type, hearers w type = []) ->
  app (signal host engine s w) = app w
  /\ delivered (signal host engine s w) = delivered w.
Proof.
  intros Hn. destruct s as [|data|url]; simpl.
  - unfold pageEmitClose.
    exact (firePage_unheard _ (markPageClosed w) Hn).
  - destruct (bindings w !! "dispatch") as [[]|]; simpl; [|now split].
    rewrite (emit_nobody host "event" [data] w ltac:(discriminate) (Hn "event")).
    now split.
  - destruct (interceptor w) as [[]|]; simpl; [|now split].
    destruct (serveRequest_cases url w) as [->|(c & _ & _ & ->)]; now split.
Qed.

Lemma signals_unheard (ss : list Signal) (w : World) :
  (forall type, hearers w type = []) ->
  app (signals host engine ss w) = app w
  /\ delivered (signals host engine ss w) = delivered w.
Proof.
  revert w. induction ss as [|s ss IH]; intros w Hn; [now split|].
  rewrite signals_cons.
  destruct (signal_unheard s w Hn) as [Ha Hd].
  assert (Hn' : forall type, hearers (signal host engine s w) type = []).
  { intros type. unfold hearers. rewrite Ha. apply Hn. }
  destruct (IH _ Hn') as [Ha' Hd'].
  rewrite Ha', Hd', Ha, Hd. now split.
Qed.

Lemma life_waiting (w w' : World) :
  life w' = life w ->
  pending w' = pending w /\ closeCount w' = closeCount w
  /\ pageClosed w' = pageClosed w.
Proof.
  unfold life. intros [= Hp Hc _ He _].
  unfold pending, closeCount. now rewrite Hp, Hc, He.
Qed.

(** A call of the binding or a request fires no close listener. *)
Lemma signal_keeps_listener (s : Signal) (w : World) :
  s <> WindowClosed ->
  pending (signal host engine s w) = pending w
  /\ closeCount (signal host engine s w) = closeCount w
  /\ pageClosed (signal host engine s w) = pageClosed w.
Proof.
  intros Hs.
  destruct s as [|data|url]; [congruence| |].
  - destruct (turn_life host engine (FromWindow (DispatchCalled data)) w)
      as [[Hl _]|[(Hd & _)|(data' & _ & _ & Hl)]].
    + now apply life_waiting.
    + discriminate Hd.
    + destruct (event_guarded _ _ _ Hl) as (Hc & Hp & Hcl). now repeat split.
  - apply life_waiting. simpl.
    destruct (interceptor w) as [[]|]; [|reflexivity].
    apply serveRequest_quiet.
Qed.

(** Once the listener has fired and left, no turn emits [close] again. *)
Lemma turn_fired (t : Turn) (w : World) :
  pending w = [] /\ closeCount w = 1%nat ->
  pending (turn host engine t w) = [] /\ closeCount (turn host engine t w) = 1%nat.
Proof.
  intros [Hp Hc].
  assert (Hlife : forall w', life w' = life w ->
                    pending w' = [] /\ closeCount w' = 1%nat).
  { intros w' Hl. destruct (life_waiting w w' Hl) as (Hp' & Hc' & _).
    now rewrite Hp', Hc'. }
  destruct (turn_life host engine t w)
    as [[Hl _]|[(_ & w0 & Hl & ->)|(data & _ & _ & Hl)]].
  - now apply Hlife.
  - destruct (Hlife w0 Hl) as [Hp0 Hc0].
    assert (Hg : guarded w0).
    { unfold guarded. rewrite Hp0, Hc0. split; [constructor | simpl; lia]. }
    destruct (pageEmitClose_guarded host engine w0 Hg) as (Hp1 & Hc1 & _).
    split; [exact Hp1|]. rewrite Hc1, Hp0, Hc0. reflexivity.
  - destruct (event_guarded _ _ _ Hl) as (Hc' & Hp' & _).
    now rewrite Hc', Hp'.
Qed.

Lemma run_fired (ts : list Turn) (w : World) :
  pending w = [] /\ closeCount w = 1%nat ->
  pending (run host engine ts w) = [] /\ closeCount (run host engine ts w) = 1%nat.
Proof.
  revert w. induction ts as [|t ts IH]; intros w Hf; [exact Hf|].
  rewrite run_cons. apply IH. now apply turn_fired.
Qed.

(** The close of the window fires the listener that waits; with nobody
    listening to the controller, the listener goes on to close the
    context. *)
Lemma window_close_fires (w : World) :
  pending w = [closeListener] /\ closeCount w = 0%nat ->
  pending (signal host engine WindowClosed w) = []
  /\ closeCount (signal host engine WindowClosed w) = 1%nat.
Proof.
  intros [Hp Hc].
  assert (Hg : guarded w).
  { unfold guarded. rewrite Hp, Hc. split; [repeat constructor | simpl; lia]. }
  destruct (pageEmitClose_guarded host engine w Hg) as (Hp1 & Hc1 & _).
  split; [exact Hp1|].
  change (signal host engine WindowClosed w) with (pageEmitClose host engine w).
  rewrite Hc1, Hp, Hc. reflexivity.
Qed.

Lemma window_close_unheard (w : World) :
  pending w = [closeListener] -> hearers w "close" = [] ->
  calls (pageEmitClose host engine w) = calls w ++ [ContextClose].
Proof.
  intros Hp Hh.
  rewrite (pageEmitClose_fires host engine w Hp), runPageListener_cases.
  rewrite (emit_nobody host "close" [] (firingWorld w) ltac:(discriminate) Hh).
  destruct (closing_listener_world engine
              (logEmission ("close", []) (firingWorld w))) as (_ & Hc & _).
  simpl. exact Hc.
Qed.

(** The signals that arrive while the navigation is pending, with the close
    listener waiting and nobody listening to the controller yet: either the
    window does not close and the listener goes on waiting, or it does, and
    the listener emits [close] and closes the context. *)
Lemma signals_navigation (ss : list Signal) (w : World) :
  pending w = [closeListener] -> closeCount w = 0%nat ->
  (forall type, hearers w type = []) ->
  ~ In ContextClose (calls w) ->
  let w' := signals host engine ss w in
  (~ In WindowClosed ss /\ pending w' = [closeListener] /\ closeCount w' = 0%nat
   /\ ~ In ContextClose (calls w') /\ pageClosed w' = pageClosed w)
  \/ (In WindowClosed ss /\ pending w' = [] /\ closeCount w' = 1%nat
      /\ In ContextClose (calls w') /\ pageClosed w' = true).
Proof.
  revert w. induction ss as [|s ss IH]; intros w Hp Hc Hn Hcc w'; subst w'.
  { left. repeat split; auto. }
  rewrite signals_cons.
  assert (Hs : s = WindowClosed \/ s <> WindowClosed)
    by (destruct s; [left | right | right]; congruence).
  destruct Hs as [->|Hs].
  - right. split; [now left|].
    destruct (window_close_fires w (conj Hp Hc)) as [Hp1 Hc1].
    pose proof (window_close_unheard w Hp (Hn "close")) as Hcalls.
    change (signal host engine WindowClosed w) with (pageEmitClose host engine w) in *.
    set (w1 := pageEmitClose host engine w) in *.
    rewrite signals_run.
    destruct (run_fired (map FromWindow ss) w1 (conj Hp1 Hc1)) as [Hp2 Hc2].
    split; [exact Hp2|]. split; [exact Hc2|]. rewrite <- signals_run. split.
    + destruct (signals_calls ss w1) as (cs & -> & _).
      rewrite Hcalls. apply in_or_app. left. apply in_or_app. right. now left.
    + apply signals_closed. left.
      now destruct (pageEmitClose_world host engine w) as (_ & _ & Hcl & _).
  - destruct (signal_keeps_listener s w Hs) as (Hp1 & Hc1 & Hcl1).
    destruct (signal_unheard s w Hn) as [Ha1 _].
    destruct (signal_calls s w) as (cs & Hcs & _ & Hclose).
    set (w1 := signal host engine s w) in *.
    assert (Hn1 : forall type, hearers w1 type = []).
    { intros type. unfold hearers. rewrite Ha1. apply Hn. }
    assert (Hcc1 : ~ In ContextClose (calls w1)).
    { rewrite Hcs. intros Hin. apply in_app_or in Hin.
      destruct Hin as [Hin|Hin]; [now apply Hcc|].
      now destruct (Hclose Hin) as [-> _]. }
    destruct (IH w1 (eq_trans Hp1 Hp) (eq_trans Hc1 Hc) Hn1 Hcc1)
      as [(Hno & H1 & H2 & H3 & H4)|(Hin & H1 & H2 & H3 & H4)].
    + left. split; [intros [->|Hin]; [now apply Hs | now apply Hno]|].
      repeat split; try assumption. now rewrite H4.
    + right. split; [now right|]. now repeat split.
Qed.

(** With no listener waiting, no signal leads to a close of the context. *)
Lemma signals_idle (ss : list Signal) (w : World) :
  pending w = [] -> closeCount w = 0%nat ->
  ~ In ContextClose (calls w) ->
  let w' := signals host engine ss w in
  pending w' = [] /\ closeCount w' = 0%nat /\ ~ In ContextClose (calls w').
Proof.
  revert w. induction ss as [|s ss IH]; intros w Hp Hc Hcc w'; subst w';
    [now repeat split|].
  rewrite signals_cons.
  destruct (turn_unarmed host engine (FromWindow s) w (conj Hp Hc)) as [Hp1 Hc1].
  destruct (signal_calls s w) as (cs & Hcs & _ & Hclose).
  apply IH; [exact Hp1 | exact Hc1|].
  change (turn host engine (FromWindow s) w) with (signal host engine s w) in *.
  rewrite Hcs. intros Hin. apply in_app_or in Hin.
  destruct Hin as [Hin|Hin]; [now apply Hcc|].
  destruct (Hclose Hin) as [_ Hne]. now apply Hne.
Qed.

(** [await] of a call of the engine, with the signals that arrive
    meanwhile. *)
Lemma await_call (ss : list Signal) (c : EngineCall) (w : World) :
  awaitWith host engine ss (call host engine c) w
  = match settle engine w c with
    | None =>
        (Resolved tt,
         signals host engine ss (engineEffect host engine c (logCall c w)))
    | Some e => (Rejected e, signals host engine ss (logCall c w))
    end.
Proof.
  unfold awaitWith.
  destruct (call_cases host engine c w) as [[Hs ->]|(e & Hs & ->)];
    now rewrite Hs.
Qed.

Ltac stage_stop k c :=
  exists k, c; split; [reflexivity|];
  split;
  [ let j := fresh "j" in
    let c' := fresh "c" in
    let Hj := fresh "Hj" in
    let Hjc := fresh "Hjc" in
    intros j c' Hj Hjc;
    repeat (destruct j as [|j];
            [cbn in Hjc; injection Hjc as <-; assumption|]);
    lia
  | split; [reflexivity|] ].

(** [open], call by call: it stops at the first call the engine rejects,
    with the engine's error and after the signals that arrived while the call
    was pending; when the engine carries out all six calls, it resolves with
    the controller. *)
Lemma openWith_stages (arrivals : nat -> list Signal)
    (inspectedContext : BrowserContext) :
  let r := openWith host engine arrivals inspectedContext pristine in
  let at_ := stage host engine arrivals inspectedContext in
  exists k c,
    openCalls host inspectedContext !! k = Some c
    /\ (forall j c', (j < k)%nat ->
          openCalls host inspectedContext !! j = Some c' ->
          settle engine (at_ j) c' = None)
    /\ snd r = signals host engine (arrivals k) (logCall c (at_ k))
    /\ fst r = match settle engine (at_ k) c with
               | Some e => Rejected e
               | None => Resolved {| wsEndpoint := browserWsEndpoint engine |}
               end
    /\ (settle engine (at_ k) c = None -> k = 5%nat).
Proof.
  intros r at_. subst r at_.
  unfold openWith, controller_run, _initWith, new_RecorderApp.
  unfold bind, effect, ret.
  rewrite await_call.
  destruct (settle engine pristine _) as [e|] eqn:H0.
  { stage_stop 0%nat (launchCall host inspectedContext).
    simpl stage. fold (launchCall host inspectedContext) in H0. rewrite H0.
    split; [reflexivity | discriminate]. }
  cbn beta iota. rewrite await_call.
  match goal with
  | |- context [settle engine ?w LoadDefaultContextAsIs] =>
      destruct (settle engine w LoadDefaultContextAsIs) as [e|] eqn:H1
  end.
  { stage_stop 1%nat LoadDefaultContextAsIs.
    assert (Hst : settle engine (stage host engine arrivals inspectedContext 1)
                    LoadDefaultContextAsIs = Some e) by exact H1.
    rewrite Hst. split; [reflexivity | discriminate]. }
  cbn beta iota. rewrite await_call.
  match goal with
  | |- context [settle engine ?w InstallAppIcon] =>
      destruct (settle engine w InstallAppIcon) as [e|] eqn:H2
  end.
  { stage_stop 2%nat InstallAppIcon.
    assert (Hst : settle engine (stage host engine arrivals inspectedContext 2)
                    InstallAppIcon = Some e) by exact H2.
    rewrite Hst. split; [reflexivity | discriminate]. }
  cbn beta iota. rewrite await_call.
  match goal with
  | |- context [settle engine ?w (SetServerRequestInterceptor ?h)] =>
      destruct (settle engine w (SetServerRequestInterceptor h)) as [e|] eqn:H3
  end.
  { stage_stop 3%nat (SetServerRequestInterceptor serveRecorderAssets).
    assert (Hst : settle engine (stage host engine arrivals inspectedContext 3)
                    (SetServerRequestInterceptor serveRecorderAssets) = Some e)
      by exact H3.
    rewrite Hst. split; [reflexivity | discriminate]. }
  cbn beta iota. rewrite await_call.
  match goal with
  | |- context [settle engine ?w (ExposeBinding ?n ?b ?h)] =>
      destruct (settle engine w (ExposeBinding n b h)) as [e|] eqn:H4
  end.
  { stage_stop 4%nat (ExposeBinding "dispatch" false relayDispatch).
    assert (Hst : settle engine (stage host engine arrivals inspectedContext 4)
                    (ExposeBinding "dispatch" false relayDispatch) = Some e)
      by exact H4.
    rewrite Hst. split; [reflexivity | discriminate]. }
  cbn beta iota. rewrite await_call.
  match goal with
  | |- context [settle engine ?w (Goto ?u)] =>
      destruct (settle engine w (Goto u)) as [e|] eqn:H5
  end.
  { stage_stop 5%nat (Goto entryAddress).
    assert (Hst : settle engine (stage host engine arrivals inspectedContext 5)
                    (Goto entryAddress) = Some e) by exact H5.
    rewrite Hst. split; [reflexivity | discriminate]. }
  stage_stop 5%nat (Goto entryAddress).
  assert (Hst : settle engine (stage host engine arrivals inspectedContext 5)
                  (Goto entryAddress) = None) by exact H5.
  rewrite Hst. split; reflexivity.
Qed.

(** One call of [open] that the engine carries out before the close listener
    is subscribed, and the signals that arrive while it is pending. *)
Lemma step_facts (inspectedContext : BrowserContext) (ss : list Signal)
    (c : EngineCall) (w : World) :
  In c (openCalls host inspectedContext) ->
  pending w = [] -> closeCount w = 0%nat ->
  ~ In ContextClose (calls w) ->
  (forall type, hearers w type = []) ->
  let w1 := engineEffect host engine c (logCall c w) in
  let w' := signals host engine ss w1 in
  ownCalls w' = ownCalls w ++ [c]
  /\ ~ In ContextClose (calls w')
  /\ app w' = app w /\ delivered w' = delivered w
  /\ stdout w' = stdout w /\ window w' = window w
  /\ interceptor w' = interceptor w1 /\ bindings w' = bindings w1
  /\ pending w' = [] /\ closeCount w' = 0%nat.
Proof.
  intros Hin Hp Hc Hcc Hn w1 w'.
  assert (H1 : calls w1 = calls w ++ [c] /\ own c = true /\ c <> ContextClose
               /\ app w1 = app w /\ delivered w1 = delivered w
               /\ stdout w1 = stdout w /\ window w1 = window w
               /\ pending w1 = pending w /\ closeCount w1 = closeCount w).
  { unfold openCalls, initCalls, launchCall in Hin. simpl in Hin.
    decompose [or] Hin; try contradiction; subst c w1;
      repeat split; discriminate. }
  destruct H1 as (Hcalls & Hown & Hne & Ha & Hd & Ho & Hw & Hp1 & Hc1).
  assert (Hcc1 : ~ In ContextClose (calls w1)).
  { rewrite Hcalls. intros H. apply in_app_or in H.
    destruct H as [H|[H|[]]]; [now apply Hcc | now apply Hne]. }
  assert (Hn1 : forall type, hearers w1 type = []).
  { intros type. unfold hearers. rewrite Ha. apply Hn. }
  destruct (signals_idle ss w1 (eq_trans Hp1 Hp) (eq_trans Hc1 Hc) Hcc1)
    as (Hp' & Hc' & Hcc').
  destruct (signals_unheard ss w1 Hn1) as [Ha' Hd'].
  destruct (signals_settled ss w1) as (Hi' & Hb' & Hw' & Ho').
  fold w' in Hp', Hc', Hcc', Ha', Hd', Hi', Hb', Hw', Ho'.
  split.
  { unfold w'. rewrite signals_own. unfold ownCalls.
    rewrite Hcalls, filter_app. f_equal.
    now rewrite filter_cons_True by exact Hown. }
  split; [exact Hcc'|].
  split; [now rewrite Ha'|]. split; [now rewrite Hd'|].
  split; [now rewrite Ho'|]. split; [now rewrite Hw'|].
  now repeat split.
Qed.

(** The world in which [open] issues each of its calls: the calls before it
    and no close of the context have been issued, nobody listens to the
    controller and nobody has been called, nothing has been pushed or
    written, [close] has not been emitted; the interceptor is there from
    the fifth call on, and the binding and the close listener for the
    sixth. *)
Lemma stage_facts (arrivals : nat -> list Signal)
    (inspectedContext : BrowserContext) (k : nat) :
  (k <= 5)%nat ->
  let w := stage host engine arrivals inspectedContext k in
  ownCalls w = take k (openCalls host inspectedContext)
  /\ ~ In ContextClose (calls w)
  /\ app w = (if decide (2 <= k)%nat
              then EventEmitter.setMaxListeners 0 EventEmitter.create
              else EventEmitter.create)
  /\ delivered w = []
  /\ stdout w = [] /\ window w = []
  /\ interceptor w = (if decide (4 <= k)%nat then Some serveRecorderAssets else None)
  /\ bindings w !! "dispatch"
     = (if decide (5 <= k)%nat then Some relayDispatch else None)
  /\ pending w = (if decide (k = 5%nat) then [closeListener] else [])
  /\ closeCount w = 0%nat.
Proof.
  induction k as [|k IH]; intros Hk.
  { simpl. repeat split. intros []. }
  assert (Hk' : (k <= 4)%nat) by lia.
  specialize (IH ltac:(lia)). cbv zeta in IH.
  set (w := stage host engine arrivals inspectedContext k) in *.
  destruct IH as (Hown & Hcc & Ha & Hd & Ho & Hw & Hi & Hb & Hp & Hc).
  assert (Hlook : exists c, openCalls host inspectedContext !! k = Some c
                            /\ In c (openCalls host inspectedContext)).
  { destruct k as [|[|[|[|[|k]]]]]; [..|lia]; eexists; (split; [reflexivity|]);
      simpl; tauto. }
  destruct Hlook as (c & Hlook & Hin).
  assert (Hn : forall type, hearers w type = []).
  { intros type. unfold hearers. rewrite Ha.
    destruct (decide (2 <= k)%nat); reflexivity. }
  rewrite decide_False in Hp by lia.
  destruct (step_facts inspectedContext (arrivals k) c w Hin Hp Hc Hcc Hn)
    as (Hown' & Hcc' & Ha' & Hd' & Ho' & Hw' & Hi' & Hb' & Hp' & Hc').
  cbv zeta.
  assert (Hst : stage host engine arrivals inspectedContext (S k)
                = betweenCalls (S k)
                    (signals host engine (arrivals k)
                       (engineEffect host engine c (logCall c w)))).
  { simpl. now rewrite Hlook. }
  rewrite Hst. clear Hst.
  set (w' := signals host engine (arrivals k) _) in *.
  assert (Hfinal :
            ownCalls (betweenCalls (S k) w') = ownCalls w'
            /\ calls (betweenCalls (S k) w') = calls w'
            /\ delivered (betweenCalls (S k) w') = delivered w'
            /\ stdout (betweenCalls (S k) w') = stdout w'
            /\ window (betweenCalls (S k) w') = window w'
            /\ interceptor (betweenCalls (S k) w') = interceptor w'
            /\ bindings (betweenCalls (S k) w') = bindings w'
            /\ closeCount (betweenCalls (S k) w') = closeCount w').
  { destruct k as [|[|[|[|[|k]]]]]; repeat split. }
  destruct Hfinal as (-> & -> & -> & -> & -> & -> & -> & ->).
  rewrite Hown', Hown, Hd', Hd, Ho', Ho, Hw', Hw, Hi', Hb', Hc'.
  split; [symmetry; now apply take_S_r|].
  split; [exact Hcc'|].
  destruct k as [|[|[|[|[|k]]]]]; [..|lia];
    cbn in Hlook; injection Hlook as <-; simpl;
    rewrite ?Ha', ?Ha, ?Hi, ?Hb; simpl; repeat split; try assumption.
  - apply lookup_insert_eq.
  - unfold pending. simpl. unfold EventEmitter.once.
    rewrite registered_addListener_eq. fold (pending w'). now rewrite Hp'.
Qed.

(** Where [open] ends, whatever arrives while it is in flight. *)
Lemma openWith_paths (arrivals : nat -> list Signal)
    (inspectedContext : BrowserContext) :
  let r := openWith host engine arrivals inspectedContext pristine in
  let w' := snd r in
  exists k c,
    (k <= 5)%nat
    /\ openCalls host inspectedContext !! k = Some c
    /\ fst r = match settle engine
                       (stage host engine arrivals inspectedContext k) c with
               | Some e => Rejected e
               | None => Resolved {| wsEndpoint := browserWsEndpoint engine |}
               end
    /\ (settle engine (stage host engine arrivals inspectedContext k) c = None ->
        k = 5%nat)
    /\ (forall j c', (j < k)%nat ->
          openCalls host inspectedContext !! j = Some c' ->
          settle engine (stage host engine arrivals inspectedContext j) c' = None)
    /\ ownCalls w' = take (S k) (openCalls host inspectedContext)
    /\ app w' = (if decide (2 <= k)%nat
                 then EventEmitter.setMaxListeners 0 EventEmitter.create
                 else EventEmitter.create)
    /\ delivered w' = []
    /\ stdout w' = [] /\ window w' = []
    /\ interceptor w'
       = (if decide (4 <= k)%nat then Some serveRecorderAssets else None)
    /\ bindings w' !! "dispatch"
       = (if decide (5 <= k)%nat then Some relayDispatch else None)
    /\ ((k < 5)%nat -> unarmed w' /\ ~ In ContextClose (calls w'))
    /\ (k = 5%nat ->
        (~ In WindowClosed (arrivals 5%nat)
         /\ pending w' = [closeListener] /\ closeCount w' = 0%nat
         /\ ~ In ContextClose (calls w'))
        \/ (In WindowClosed (arrivals 5%nat)
            /\ pending w' = [] /\ closeCount w' = 1%nat
            /\ In ContextClose (calls w') /\ pageClosed w' = true)).
Proof.
  intros r w'. subst w'.
  destruct (openWith_stages arrivals inspectedContext)
    as (k & c & Hlook & Hbefore & Hw & Hr & Hk5).
  fold r in Hw, Hr.
  assert (Hk : (k <= 5)%nat).
  { apply lookup_lt_Some in Hlook. simpl in Hlook. lia. }
  exists k, c. split; [exact Hk|]. split; [exact Hlook|].
  split; [exact Hr|]. split; [exact Hk5|]. split; [exact Hbefore|].
  destruct (stage_facts arrivals inspectedContext k Hk)
    as (Hown & Hcc & Ha & Hd & Ho & Hwin & Hi & Hb & Hp & Hc).
  set (w := stage host engine arrivals inspectedContext k) in *.
  assert (Hn : forall type, hearers (logCall c w) type = []).
  { intros type. unfold hearers. simpl. rewrite Ha.
    destruct (decide (2 <= k)%nat); reflexivity. }
  assert (Hcc1 : ~ In ContextClose (calls (logCall c w))).
  { simpl. intros H. apply in_app_or in H. destruct H as [H|[H|[]]];
      [now apply Hcc|]. subst c.
    destruct k as [|[|[|[|[|[|k]]]]]]; discriminate Hlook. }
  assert (Hown1 : own c = true).
  { destruct k as [|[|[|[|[|[|k]]]]]]; cbn in Hlook; try discriminate Hlook;
      now injection Hlook as <-. }
  destruct (signals_unheard (arrivals k) (logCall c w) Hn) as [Ha' Hd'].
  destruct (signals_settled (arrivals k) (logCall c w)) as (Hi' & Hb' & Hw' & Ho').
  rewrite Hw, Ha', Hd', Hi', Hb', Hw', Ho', signals_own.
  split.
  { unfold ownCalls. change (calls (logCall c w)) with (calls w ++ [c]).
    rewrite filter_app. fold (ownCalls w).
    rewrite Hown, filter_cons_True by exact Hown1.
    symmetry. now apply take_S_r. }
  split; [exact Ha|]. split; [exact Hd|]. split; [exact Ho|].
  split; [exact Hwin|]. split; [exact Hi|]. split; [exact Hb|].
  split.
  - intros Hlt. rewrite decide_False in Hp by lia.
    destruct (signals_idle (arrivals k) (logCall c w) Hp Hc Hcc1)
      as (Hp' & Hc' & Hcc').
    now repeat split.
  - intros ->. rewrite decide_True in Hp by reflexivity.
    destruct (signals_navigation (arrivals 5%nat) (logCall c w) Hp Hc Hn Hcc1)
      as [(H1 & H2 & H3 & H4 & _)|H]; [left | right]; now repeat split.
Qed.

End Staging.

(* ===================================================================== *)
(** ** Further properties: closing *)
(* ===================================================================== *)

Section Closing.
Context (host : Host) (engine : Engine).

Lemma armed_open_listener (w : World) :
  armed w -> pageClosed w = false ->
  pending w = [closeListener] /\ closeCount w = 0%nat.
Proof.
  intros [[Honce Hle] Ha] Hc. rewrite Hc in Ha.
  destruct (pending w) as [|[[] once] [|? ?]]; try discriminate.
  inversion Honce as [|? ? Ho _]. simpl in Ho. subst once.
  split; [reflexivity | simpl in Hle; lia].
Qed.

(** A controller that [open] handed out, whatever arrived while [open] was in
    flight and whatever turns followed, as long as its window is open: the
    close listener waits, [close] has not been emitted, the binding is in
    place, and no listener of the controller is one-shot. *)
Lemma opened_ready (arrivals : nat -> list Signal)
    (inspectedContext : BrowserContext) (ts : list Turn) (result : RecorderApp) :
  fst (openWith host engine arrivals inspectedContext pristine) = Resolved result ->
  let w0 := snd (openWith host engine arrivals inspectedContext pristine) in
  let w := run host engine ts w0 in
  pageClosed w = false ->
  armed w0 /\ plain (app w0) /\ (forall type, hearers w0 type = [])
  /\ delivered w0 = []
  /\ bindings w0 !! "dispatch" = Some relayDispatch
  /\ armed w /\ pending w = [closeListener] /\ closeCount w = 0%nat
  /\ plain (app w).
Proof.
  intros Hres w0 w Hopen.
  destruct (openWith_paths host engine arrivals inspectedContext)
    as (k & c & _ & _ & Hr & Hk5 & _ & _ & Ha & Hd & _ & _ & _ & Hb & _ & Hnav).
  fold w0 in Ha, Hd, Hb, Hnav.
  assert (Hk : k = 5%nat).
  { apply Hk5. rewrite Hres in Hr.
    now destruct (settle engine _ c). }
  subst k. simpl in Ha, Hb.
  assert (Hopen0 : pageClosed w0 = false).
  { destruct (pageClosed w0) eqn:Hc0; [|reflexivity].
    unfold w in Hopen. now rewrite (run_closed host engine ts w0 Hc0) in Hopen. }
  destruct (Hnav eq_refl) as [(_ & Hp & Hc & _)|(_ & _ & _ & _ & Hcl)];
    [|congruence].
  assert (Ha0 : armed w0).
  { unfold armed, guarded. rewrite Hopen0, Hp, Hc.
    repeat split; [repeat constructor | simpl; lia]. }
  assert (Hp0 : plain (app w0)) by (rewrite Ha; apply plain_new).
  assert (Haw : armed w) by now apply run_armed.
  destruct (armed_open_listener w Haw Hopen) as [Hpw Hcw].
  split; [exact Ha0|]. split; [exact Hp0|].
  split; [intros type; unfold hearers; now rewrite Ha|].
  split; [exact Hd|]. split; [exact Hb|].
  split; [exact Haw|]. split; [exact Hpw|]. split; [exact Hcw|].
  now apply run_plain.
Qed.

(** The window closes while the close listener waits.  The listener emits
    [close] (line 79); it goes on to close the context (line 80) when the
    listeners of [close] return, and not when one of them throws. *)
Lemma window_closing (w : World) :
  pending w = [closeListener] -> plain (app w) ->
  let w' := pageEmitClose host engine w in
  emitted w' = emitted w ++ [closeNote]
  /\ pageClosed w' = true /\ pending w' = [] /\ stdout w' = stdout w
  /\ (exists k, delivered w'
                = delivered w
                  ++ map (fun l => (l, closeNote)) (take k (hearers w "close")))
  /\ (Forall (returns host closeNote) (hearers w "close") ->
      calls w' = calls w ++ [ContextClose]
      /\ stderr w'
         = stderr w ++ reported (settle engine (snd (closeEmission host w))
                                   ContextClose)
      /\ delivered w'
         = delivered w ++ map (fun l => (l, closeNote)) (hearers w "close"))
  /\ (Exists (throws host closeNote) (hearers w "close") ->
      calls w' = calls w /\ stderr w' = stderr w)
  /\ (calls w' = calls w ++ [ContextClose] \/ calls w' = calls w).
Proof.
  intros Hp Hpl w'. subst w'.
  destruct (pageEmitClose_waiting host engine w Hp) as (Hp' & Hcl & He & _).
  destruct (pageEmitClose_world host engine w) as (_ & _ & _ & _ & _ & _ & Ho).
  split; [exact He|]. split; [exact Hcl|]. split; [exact Hp'|].
  split; [exact Ho|]. clear Hp' Hcl He Ho.
  rewrite (pageEmitClose_fires host engine w Hp), runPageListener_cases.
  unfold closeEmission.
  assert (Hplf : plain (app (firingWorld w))) by exact Hpl.
  change (hearers w "close") with (hearers (firingWorld w) "close").
  destruct (emit_plain host "close" [] (firingWorld w) Hplf) as (k & _ & Hw & _).
  pose proof (fun HF => emit_returns host "close" [] (firingWorld w) Hplf HF
                          ltac:(left; discriminate)) as Hret.
  pose proof (emit_throws host "close" [] (firingWorld w) Hplf) as Hthr.
  pose proof (emit_outside host "close" [] (firingWorld w)) as Hout.
  unfold outside in Hout. injection Hout as Hcalls _ _ _ _ _ _ _ Herr.
  destruct (emit host "close" [] (firingWorld w)) as [[b|e] w1];
    simpl in Hw, Hcalls, Herr |- *.
  - destruct (closing_listener_world engine w1)
      as (_ & Hc1 & He1 & _ & _ & _ & _ & _ & _ & _ & Hd1).
    rewrite Hc1, He1, Hd1, Hcalls, Herr.
    split; [exists k; now rewrite Hw|].
    split.
    + intros HF. specialize (Hret HF). injection Hret as _ Hw1.
      repeat split. now rewrite Hw1.
    + split; [|now left].
      intros HE. destruct (Hthr HE) as [e He]. discriminate He.
  - rewrite Hcalls, Herr.
    split; [exists k; now rewrite Hw|].
    split.
    + intros HF. specialize (Hret HF). discriminate Hret.
    + split; [intros _; split; reflexivity | now right].
Qed.

(** X6: an explicit [close] on a controller whose window is open, whatever
    arrived while [open] was in flight and whatever turns came since.  When
    the engine carries it out, [close] resolves, the page is closed, the
    close listener fires and is used up, and [close] is emitted once.  The
    listener closes the context a second time when the listeners of [close]
    return; when one of them throws, line 80 is not reached and the close of
    the method is the only one.  When the engine rejects it, [close] rejects
    with that error after its single call and changes nothing else: the page
    stays open and the listener keeps waiting. *)
Theorem explicit_close_outcomes (arrivals : nat -> list Signal)
    (inspectedContext : BrowserContext) (ts : list Turn) (result : RecorderApp) :
  fst (openWith host engine arrivals inspectedContext pristine) = Resolved result ->
  let w := run host engine ts
             (snd (openWith host engine arrivals inspectedContext pristine)) in
  pageClosed w = false ->
  (settle engine w ContextClose = None ->
     let w' := snd (close host engine w) in
     fst (close host engine w) = Resolved tt
     /\ emitted w' = emitted w ++ [closeNote]
     /\ pageClosed w' = true
     /\ pending w' = []
     /\ (Forall (returns host closeNote) (hearers w "close") ->
         issuedSince w w' = [ContextClose; ContextClose])
     /\ (Exists (throws host closeNote) (hearers w "close") ->
         issuedSince w w' = [ContextClose])
     /\ (issuedSince w w' = [ContextClose; ContextClose]
         \/ issuedSince w w' = [ContextClose]))
  /\ (forall e, settle engine w ContextClose = Some e ->
        close host engine w = (Rejected e, logCall ContextClose w)
        /\ pending (logCall ContextClose w) = [closeListener]).
Proof.
  intros Hres w Hc.
  destruct (opened_ready arrivals inspectedContext ts result Hres Hc)
    as (_ & _ & _ & _ & _ & _ & Hp & _ & Hpl).
  fold w in Hp, Hpl.
  split.
  - intros Hs w'. subst w'. unfold close.
    destruct (call_cases host engine ContextClose w) as [[_ ->]|(e & He & _)];
      [|congruence].
    simpl. rewrite Hc.
    destruct (window_closing (logCall ContextClose w) Hp Hpl)
      as (He & Hcl & Hp' & _ & _ & Hret & Hthr & Hcalls).
    split; [reflexivity|]. split; [exact He|]. split; [exact Hcl|].
    split; [exact Hp'|].
    split; [|split].
    + intros HF. destruct (Hret HF) as (Hcs & _).
      apply issuedSince_app. rewrite Hcs. simpl. now rewrite <- app_assoc.
    + intros HE. destruct (Hthr HE) as (Hcs & _).
      apply issuedSince_app. now rewrite Hcs.
    + destruct Hcalls as [Hcs|Hcs]; [left | right];
        apply issuedSince_app; rewrite Hcs; simpl; now rewrite <- ?app_assoc.
  - intros e He. unfold close.
    destruct (call_cases host engine ContextClose w) as [[Hs _]|(e' & He' & ->)];
      [congruence|].
    split; [congruence | exact Hp].
Qed.

(** X7: the window of a controller closes by itself, whatever arrived while
    [open] was in flight and whatever turns came since.  The listener emits
    [close]; when the listeners of [close] return, it issues one close of
    the context without awaiting it, and a rejection of that call goes to
    [console.error], and only there; when one of them throws, it issues no
    call and reports nothing.  In either case [close] has been emitted, the
    page is closed, and the output stream is not written to. *)
Theorem window_close_reports_rejection (arrivals : nat -> list Signal)
    (inspectedContext : BrowserContext) (ts : list Turn) (result : RecorderApp) :
  fst (openWith host engine arrivals inspectedContext pristine) = Resolved result ->
  let w := run host engine ts
             (snd (openWith host engine arrivals inspectedContext pristine)) in
  pageClosed w = false ->
  let w' := turn host engine (FromWindow WindowClosed) w in
  emitted w' = emitted w ++ [closeNote]
  /\ pageClosed w' = true
  /\ stdout w' = stdout w
  /\ (Forall (returns host closeNote) (hearers w "close") ->
      issuedSince w w' = [ContextClose]
      /\ stderr w'
         = stderr w ++ reported (settle engine (snd (closeEmission host w))
                                   ContextClose))
  /\ (Exists (throws host closeNote) (hearers w "close") ->
      issuedSince w w' = [] /\ stderr w' = stderr w).
Proof.
  intros Hres w Hc w'. subst w'.
  destruct (opened_ready arrivals inspectedContext ts result Hres Hc)
    as (_ & _ & _ & _ & _ & _ & Hp & _ & Hpl).
  fold w in Hp, Hpl. simpl.
  destruct (window_closing w Hp Hpl)
    as (He & Hcl & _ & Ho & _ & Hret & Hthr & _).
  split; [exact He|]. split; [exact Hcl|]. split; [exact Ho|].
  split.
  - intros HF. destruct (Hret HF) as (Hcs & Herr & _).
    split; [now apply issuedSince_app | exact Herr].
  - intros HE. destruct (Hthr HE) as (Hcs & Herr).
    split; [now apply issuedSince_refl | exact Herr].
Qed.

End Closing.

Lemma explicit_close_outcomes_witness :
  (let w := run sampleHost strictEngine [FromHost (CallOn "close" 7%nat)]
              (snd (openWith sampleHost strictEngine busyArrivals
                      sampleContext pristine)) in
   issuedSince w (snd (close sampleHost strictEngine w))
   = [ContextClose; ContextClose])
  /\ (let w := run touchyHost strictEngine [FromHost (CallOn "close" 13%nat)]
                 (snd (openWith touchyHost strictEngine busyArrivals
                         sampleContext pristine)) in
      issuedSince w (snd (close touchyHost strictEngine w)) = [ContextClose])
  /\ (let w := run sampleHost stubbornEngine []
                 (snd (openWith sampleHost stubbornEngine busyArrivals
                         sampleContext pristine)) in
      close sampleHost stubbornEngine w
      = (Rejected "Browser has been closed", logCall ContextClose w)
      /\ pending (logCall ContextClose w) = [closeListener]).
Proof.
  split; [|split].
  - pose proof (explicit_close_outcomes sampleHost strictEngine busyArrivals
                  sampleContext [FromHost (CallOn "close" 7%nat)]
                  {| wsEndpoint := Some "ws://127.0.0.1:9222/devtools" |}
                  ltac:(vm_compute; reflexivity) ltac:(vm_compute; reflexivity))
      as [H _].
    destruct (H ltac:(vm_compute; reflexivity)) as (_ & _ & _ & _ & Hret & _).
    apply Hret.
    match goal with
    | |- Forall _ ?l => replace l with [7%nat] by (vm_compute; reflexivity)
    end.
    repeat constructor.
  - pose proof (explicit_close_outcomes touchyHost strictEngine busyArrivals
                  sampleContext [FromHost (CallOn "close" 13%nat)]
                  {| wsEndpoint := Some "ws://127.0.0.1:9222/devtools" |}
                  ltac:(vm_compute; reflexivity) ltac:(vm_compute; reflexivity))
      as [H _].
    destruct (H ltac:(vm_compute; reflexivity)) as (_ & _ & _ & _ & _ & Hthr & _).
    apply Hthr.
    match goal with
    | |- Exists _ ?l => replace l with [13%nat] by (vm_compute; reflexivity)
    end.
    apply Exists_cons_hd. intros w0. discriminate.
  - exact (proj2 (explicit_close_outcomes sampleHost stubbornEngine busyArrivals
                    sampleContext [] {| wsEndpoint := None |}
                    ltac:(vm_compute; reflexivity) ltac:(vm_compute; reflexivity))
             "Browser has been closed" ltac:(vm_compute; reflexivity)).
Defined.

Lemma window_close_reports_rejection_witness :
  (let w := run sampleHost stubbornEngine [FromHost (CallOn "close" 7%nat)]
              (snd (openWith sampleHost stubbornEngine busyArrivals
                      sampleContext pristine)) in
   let w' := turn sampleHost stubbornEngine (FromWindow WindowClosed) w in
   issuedSince w w' = [ContextClose]
   /\ stderr w'
      = stderr w ++ reported (settle stubbornEngine
                                (snd (closeEmission sampleHost w)) ContextClose))
  /\ (let w := run touchyHost stubbornEngine [FromHost (CallOn "close" 13%nat)]
                 (snd (openWith touchyHost stubbornEngine busyArrivals
                         sampleContext pristine)) in
      let w' := turn touchyHost stubbornEngine (FromWindow WindowClosed) w in
      issuedSince w w' = [] /\ stderr w' = stderr w).
Proof.
  split.
  - pose proof (window_close_reports_rejection sampleHost stubbornEngine
                  busyArrivals sampleContext [FromHost (CallOn "close" 7%nat)]
                  {| wsEndpoint := None |}
                  ltac:(vm_compute; reflexivity) ltac:(vm_compute; reflexivity))
      as (_ & _ & _ & Hret & _).
    apply Hret.
    match goal with
    | |- Forall _ ?l => replace l with [7%nat] by (vm_compute; reflexivity)
    end.
    repeat constructor.
  - pose proof (window_close_reports_rejection touchyHost stubbornEngine
                  busyArrivals sampleContext [FromHost (CallOn "close" 13%nat)]
                  {| wsEndpoint := None |}
                  ltac:(vm_compute; reflexivity) ltac:(vm_compute; reflexivity))
      as (_ & _ & _ & _ & Hthr).
    apply Hthr.
    match goal with
    | |- Exists _ ?l => replace l with [13%nat] by (vm_compute; reflexivity)
    end.
    apply Exists_cons_hd. intros w0. discriminate.
Defined.

(** The report of the rejected close, and its absence, computed. *)
Example window_close_reported :
  let w := run sampleHost stubbornEngine [FromHost (CallOn "close" 7%nat)]
             (snd (openWith sampleHost stubbornEngine busyArrivals
                     sampleContext pristine)) in
  stderr (turn sampleHost stubbornEngine (FromWindow WindowClosed) w)
  = ["Browser has been closed"]
  /\ received 7%nat (turn sampleHost stubbornEngine (FromWindow WindowClosed) w)
     = [closeNote].
Proof. vm_compute. split; reflexivity. Qed.

Example window_close_unreported :
  let w := run touchyHost stubbornEngine
             [FromHost (CallOn "close" 13%nat); FromHost (CallOn "close" 7%nat)]
             (snd (openWith touchyHost stubbornEngine busyArrivals
                     sampleContext pristine)) in
  let w' := turn touchyHost stubbornEngine (FromWindow WindowClosed) w in
  stderr w' = [] /\ calls w' = calls w
  /\ received 13%nat w' = [closeNote] /\ received 7%nat w' = [].
Proof. vm_compute. repeat split; reflexivity. Qed.

(* ===================================================================== *)
(** ** Further properties: subscribers *)
(* ===================================================================== *)

Section Subscribers.
Context (host : Host) (engine : Engine).


(** A controller fresh from [open] has no listener. *)
Lemma opened_fresh (arrivals : nat -> list Signal)
    (inspectedContext : BrowserContext) (result : RecorderApp) :
  fst (openWith host engine arrivals inspectedContext pristine) = Resolved result ->
  plain (app (snd (openWith host engine arrivals inspectedContext pristine)))
  /\ polite host (snd (openWith host engine arrivals inspectedContext pristine)).
Proof.
  intros Hres.
  destruct (openWith_paths host engine arrivals inspectedContext)
    as (k & c & _ & _ & Hr & Hk5 & _ & _ & Ha & _).
  assert (Hk : k = 5%nat).
  { apply Hk5. rewrite Hres in Hr. now destruct (settle engine _ c). }
  subst k. simpl in Ha. split; [rewrite Ha; apply plain_new|].
  intros type l Hin. unfold hearers in Hin. now rewrite Ha in Hin.
Qed.

(** The state of the listeners when [l], new to the controller, has just
    asked to be subscribed to [type] after the turns [ts1]: it has not been
    called, and it listens to [type], once, and to nothing else; unless the
    subscription threw, and it listens to nothing. *)
Lemma just_subscribed (arrivals : nat -> list Signal)
    (inspectedContext : BrowserContext) (l : Listener) (type : string)
    (ts1 : list Turn) (result : RecorderApp) :
  fst (openWith host engine arrivals inspectedContext pristine) = Resolved result ->
  ~ In l (subscribing ts1) ->
  let w := turn host engine (FromHost (CallOn type l))
             (run host engine ts1
                (snd (openWith host engine arrivals inspectedContext pristine))) in
  plain (app w)
  /\ received l w = []
  /\ (forall type',
        (times l (hearers w type')
         <= if decide (type' = type) then 1 else 0)%nat)
  /\ (Forall (obliging host) (subscribing ts1) ->
      forall type',
        times l (hearers w type') = if decide (type' = type) then 1%nat else 0%nat).
Proof.
  intros Hres Hl w. subst w.
  set (w0 := snd (openWith host engine arrivals inspectedContext pristine)).
  destruct (openWith_paths host engine arrivals inspectedContext)
    as (k & c & _ & _ & Hr & Hk5 & _ & _ & Ha & Hd & _).
  fold w0 in Ha, Hd.
  assert (Hk : k = 5%nat).
  { apply Hk5. rewrite Hres in Hr. now destruct (settle engine _ c). }
  subst k. simpl in Ha.
  assert (Hp0 : plain (app w0)) by (rewrite Ha; apply plain_new).
  assert (Hz0 : forall type', times l (hearers w0 type') = 0%nat).
  { intros type'. unfold hearers. now rewrite Ha. }
  destruct (run_heard host engine l ts1 w0 Hp0 Hl)
    as (Hpa & Hta & _ & _ & gota & Hra & Hsa & _).
  set (wa := run host engine ts1 w0) in *.
  rewrite (deaf l (hearers w0) _ Hz0) in Hsa.
  apply sublist_nil_r in Hsa. subst gota.
  unfold received at 2 in Hra. rewrite Hd in Hra. simpl in Hra.
  assert (Hza : forall type', times l (hearers wa type') = 0%nat).
  { intros type'. now rewrite Hta. }
  destruct (turn_heard host engine (FromHost (CallOn type l)) wa Hpa)
    as (w1 & notes & (_ & Hp1 & Hh1 & ds & Hd1 & Hsub & _) & _ & Hw & Hfull).
  assert (Hr1 : received l w1 = []).
  { rewrite (received_app l wa w1 ds Hd1), Hra. simpl.
    specialize (Hsub l). rewrite (deaf l (hearers wa) _ Hza) in Hsub.
    now apply sublist_nil_r in Hsub. }
  assert (Hon : forall type',
            times l (hearers (setApp (EventEmitter.on type l (app w1)) w1) type')
            = if decide (type' = type) then 1%nat else 0%nat).
  { intros type'. unfold hearers. simpl. rewrite listeners_on.
    fold (hearers w1 type'). rewrite Hh1, times_app, Hza.
    destruct (decide (type = type')) as [<-|Hne].
    - rewrite decide_True by reflexivity.
      unfold times. now rewrite filter_cons_True.
    - rewrite decide_False by congruence. reflexivity. }
  split; [|split; [|split]].
  - destruct Hw as [->|(type0 & l0 & [= <- <-] & ->)];
      [exact Hp1 | now apply plain_on].
  - destruct Hw as [->|(type0 & l0 & _ & ->)]; exact Hr1.
  - intros type'.
    destruct Hw as [->|(type0 & l0 & [= <- <-] & ->)].
    + rewrite Hh1, Hza. lia.
    + now rewrite Hon.
  - intros Hobl type'.
    assert (Hc : polite host wa).
    { apply run_polite; [exact Hp0 | | exact Hobl].
      intros type0 l0 Hin. unfold hearers in Hin. now rewrite Ha in Hin. }
    rewrite (Hfull Hc type l eq_refl). apply Hon.
Qed.

(** What [l] is called with after such a subscription is part of the
    notifications of [type] emitted since, in their order; and all of them
    when none of the listeners the host subscribes throws. *)
Lemma subscriber_hears (arrivals : nat -> list Signal)
    (inspectedContext : BrowserContext) (l : Listener) (type : string)
    (ts1 ts2 : list Turn) (result : RecorderApp) :
  fst (openWith host engine arrivals inspectedContext pristine) = Resolved result ->
  ~ In l (subscribing ts1) ->
  ~ In l (subscribing ts2) ->
  let wb := turn host engine (FromHost (CallOn type l))
              (run host engine ts1
                 (snd (openWith host engine arrivals inspectedContext pristine))) in
  let wc := run host engine ts2 wb in
  emitted wc = emitted wb ++ emittedSince wb wc
  /\ Forall knownNote (emittedSince wb wc)
  /\ received l wc `sublist_of` ofType type (emittedSince wb wc)
  /\ (Forall (obliging host)
        (subscribing (ts1 ++ FromHost (CallOn type l) :: ts2)) ->
      received l wc = ofType type (emittedSince wb wc)).
Proof.
  intros Hres Hl1 Hl2 wb wc.
  destruct (just_subscribed arrivals inspectedContext l type ts1 result Hres Hl1)
    as (Hp & Hr & Hle & Heq).
  fold wb in Hp, Hr, Hle, Heq.
  destruct (run_heard host engine l ts2 wb Hp Hl2)
    as (_ & _ & He & Hn & got & Hrec & Hsub & Hfull).
  fold wc in He, Hn, Hrec, Hsub, Hfull.
  rewrite Hr in Hrec. simpl in Hrec. subst got.
  split; [exact He|]. split; [exact Hn|]. split.
  - etransitivity; [exact Hsub|].
    rewrite <- (tuned l (fun type' => if decide (type' = type) then [l] else [])
                  type).
    + apply share_sublist. intros type'. etransitivity; [apply Hle|].
      destruct (decide (type' = type)); [|lia].
      unfold times. now rewrite filter_cons_True.
    + intros type'. destruct (decide (type' = type)); [|reflexivity].
      unfold times. now rewrite filter_cons_True.
  - intros Hobl. rewrite subscribing_app, subscribing_cons in Hobl.
    apply Forall_app in Hobl. destruct Hobl as [Hobl1 Hobl].
    apply Forall_app in Hobl. destruct Hobl as [Hobl0 Hobl2].
    destruct (opened_fresh arrivals inspectedContext result Hres) as [Hp0 Hc0].
    assert (Hcb : polite host wb).
    { apply turn_polite; [now apply run_plain | | exact Hobl0].
      now apply run_polite. }
    rewrite (Hfull Hcb Hobl2). apply tuned. now apply Heq.
Qed.



End Subscribers.


(** A listener of [event] that throws keeps the listeners after it from
    being called. *)
Example late_subscriber_behind_thrower :
  let w' := run touchyHost strictEngine
              [FromHost (CallOn "event" 13%nat); FromHost (CallOn "event" 7%nat);
               FromWindow (DispatchCalled (JString "late"))]
              (snd (openWith touchyHost strictEngine busyArrivals
                      sampleContext pristine)) in
  received 13%nat w' = [eventNote (JString "late")] /\ received 7%nat w' = [].
Proof. vm_compute. split; reflexivity. Qed.

(** One of ['newListener'] that throws keeps the subscription from
    happening. *)
Example subscription_refused :
  let w' := run touchyHost strictEngine
              [FromHost (CallOn "newListener" 13%nat);
               FromHost (CallOn "event" 7%nat);
               FromWindow (DispatchCalled (JString "late"))]
              (snd (openWith touchyHost strictEngine busyArrivals
                      sampleContext pristine)) in
  hearers w' "event" = []
  /\ received 13%nat w' = [newListenerNote "event" 7%nat]
  /\ received 7%nat w' = [].
Proof. vm_compute. repeat split; reflexivity. Qed.


(* ===================================================================== *)
(** ** Further properties: bootstrap *)
(* ===================================================================== *)

Section BootstrapEdges.
Context (host : Host) (engine : Engine) (inspectedContext : BrowserContext).

(** X10: the debugging port and the web socket transport go together.  When
    [PWTEST_RECORDER_PORT] is set and not empty, the launch uses the web
    socket and passes the three fixed arguments followed by
    [--remote-debugging-port=] and the port; when it is unset or empty, the
    launch does not use the web socket and passes the three fixed arguments
    alone.  So the web socket is used only with a port, and the fixed
    arguments are alone only without it. *)
Theorem launch_debug_port :
  let options := launchOptions host inspectedContext in
  (forall port,
      env host "PWTEST_RECORDER_PORT" = Some port -> port <> EmptyString ->
      useWebSocket options = true
      /\ args options = baseArgs ++ [("--remote-debugging-port=" ++ port)%string])
  /\ (env host "PWTEST_RECORDER_PORT" = None
      \/ env host "PWTEST_RECORDER_PORT" = Some EmptyString ->
      useWebSocket options = false /\ args options = baseArgs)
  /\ (useWebSocket options = true ->
      exists port,
        env host "PWTEST_RECORDER_PORT" = Some port
        /\ port <> EmptyString
        /\ args options = baseArgs ++ [("--remote-debugging-port=" ++ port)%string])
  /\ (useWebSocket options = false -> args options = baseArgs).
Proof.
  unfold launchOptions, launchArgs, baseArgs. simpl.
  destruct (env host "PWTEST_RECORDER_PORT") as [[|c port]|]; simpl.
  - split; [intros port [= <-] Hne; now destruct Hne|].
    split; [intros _; split; reflexivity|].
    split; [discriminate | reflexivity].
  - split; [intros port' [= <-] _; split; reflexivity|].
    split; [intros [H|H]; discriminate H|].
    split; [|discriminate].
    intros _. exists (String c port). repeat split. discriminate.
  - split; [intros port H; discriminate H|].
    split; [intros _; split; reflexivity|].
    split; [discriminate | reflexivity].
Qed.

(** X11: the launch names an executable only as a fallback: when the
    inspected browser is Chromium and the default executable of its channel
    is not on disk, and then it is the custom executable of the inspected
    browser.  For a browser that is not Chromium neither a channel nor an
    executable is passed; for Chromium the channel is the inspected one. *)
Theorem launch_executable_fallback :
  let options := launchOptions host inspectedContext in
  (forall path,
      executablePath options = Some path ->
      isChromium inspectedContext = true
      /\ existsAsync host
           (defaultExecutablePath host (browserChannel inspectedContext)) = false
      /\ customExecutablePath inspectedContext = Some path)
  /\ (isChromium inspectedContext = false ->
      channel options = None /\ executablePath options = None)
  /\ (isChromium inspectedContext = true ->
      channel options = browserChannel inspectedContext
      /\ (existsAsync host
            (defaultExecutablePath host (browserChannel inspectedContext)) = true ->
          executablePath options = None)).
Proof.
  unfold launchOptions. simpl.
  destruct (isChromium inspectedContext); simpl.
  - destruct (existsAsync host _) eqn:Hex; repeat split; try discriminate; auto.
  - repeat split; try discriminate.
Qed.

Lemma own_issued (c : EngineCall) (w : World) :
  own c = true -> In c (calls w) <-> In c (ownCalls w).
Proof.
  intros Ho. unfold ownCalls. rewrite <- !list_elem_of_In, list_elem_of_filter.
  tauto.
Qed.

(** X12: when [open] resolves, whatever arrived while it was in flight, the
    calls it has issued itself are six: the launch, the loading of the
    default context, and the four calls of [_init], in this order.  The
    controller it returns carries the endpoint of the launched browser and
    starts with a listener limit of zero and no listener; no listener has
    been called, nothing has been pushed or written; the interceptor and the
    binding are in place.  The close listener waits; unless the window
    closed while the navigation was pending: then it has fired, [close] has
    been emitted to nobody, and the listener has closed the context. *)
Theorem open_success_trace (arrivals : nat -> list Signal) (result : RecorderApp) :
  fst (openWith host engine arrivals inspectedContext pristine) = Resolved result ->
  let w' := snd (openWith host engine arrivals inspectedContext pristine) in
  ownCalls w'
  = [ launchCall host inspectedContext;
      LoadDefaultContextAsIs;
      InstallAppIcon;
      SetServerRequestInterceptor serveRecorderAssets;
      ExposeBinding "dispatch" false relayDispatch;
      Goto entryAddress ]
  /\ wsEndpoint result = browserWsEndpoint engine
  /\ app w' = EventEmitter.setMaxListeners 0 EventEmitter.create
  /\ delivered w' = []
  /\ window w' = []
  /\ stdout w' = []
  /\ interceptor w' = Some serveRecorderAssets
  /\ bindings w' !! "dispatch" = Some relayDispatch
  /\ ((~ In WindowClosed (arrivals 5%nat)
       /\ pending w' = [closeListener] /\ closeCount w' = 0%nat
       /\ ~ In ContextClose (calls w'))
      \/ (In WindowClosed (arrivals 5%nat)
          /\ pending w' = [] /\ closeCount w' = 1%nat
          /\ In ContextClose (calls w') /\ pageClosed w' = true)).
Proof.
  intros Hres w'. subst w'.
  destruct (openWith_paths host engine arrivals inspectedContext)
    as (k & c & _ & _ & Hr & Hk5 & _ & Hown & Ha & Hd & Ho & Hw & Hi & Hb
        & _ & Hnav).
  rewrite Hres in Hr.
  assert (Hk : k = 5%nat).
  { apply Hk5. now destruct (settle engine _ c). }
  subst k.
  split; [exact Hown|].
  split; [destruct (settle engine _ c); [discriminate | now injection Hr as ->]|].
  split; [exact Ha|]. split; [exact Hd|]. split; [exact Hw|]. split; [exact Ho|].
  split; [exact Hi|]. split; [exact Hb|].
  now apply Hnav.
Qed.

(** X13: [open] never cleans up, whatever arrives while it is in flight.
    The calls it issues itself are a non-empty prefix of the six calls of a
    successful [open], each but the last one carried out by the engine in
    the world it was issued in.  When [open] rejects, its error is the
    engine's rejection of the last of them, in the world in which that call
    was issued.  A close of the context is issued only by the close
    listener, when the window closes while the navigation is pending: a
    session that was launched stays up when a step before the navigation
    fails. *)
Theorem open_never_closes_session (arrivals : nat -> list Signal) :
  let r := openWith host engine arrivals inspectedContext pristine in
  let at_ := stage host engine arrivals inspectedContext in
  exists k c,
    (k <= 5)%nat
    /\ openCalls host inspectedContext !! k = Some c
    /\ ownCalls (snd r) = take (S k) (openCalls host inspectedContext)
    /\ (forall j c', (j < k)%nat ->
          openCalls host inspectedContext !! j = Some c' ->
          settle engine (at_ j) c' = None)
    /\ (forall e, fst r = Rejected e <-> settle engine (at_ k) c = Some e)
    /\ (In ContextClose (calls (snd r))
        <-> k = 5%nat /\ In WindowClosed (arrivals 5%nat)).
Proof.
  intros r at_. subst r at_.
  destruct (openWith_paths host engine arrivals inspectedContext)
    as (k & c & Hk & Hlook & Hr & _ & Hbefore & Hown & _ & _ & _ & _ & _ & _
        & Hidle & Hnav).
  exists k, c. split; [exact Hk|]. split; [exact Hlook|].
  split; [exact Hown|]. split; [exact Hbefore|]. split.
  - intros e. rewrite Hr.
    destruct (settle engine _ c) as [e'|]; split; congruence.
  - split.
    + intros Hin. destruct (decide (k = 5%nat)) as [->|Hne].
      * split; [reflexivity|].
        destruct (Hnav eq_refl) as [(_ & _ & _ & Hno)|(Hyes & _)];
          [now destruct Hno | exact Hyes].
      * destruct (Hidle ltac:(lia)) as [_ Hno]. now destruct Hno.
    + intros [-> Hin].
      destruct (Hnav eq_refl) as [(Hno & _)|(_ & _ & _ & Hyes & _)];
        [now destruct Hno | exact Hyes].
Qed.

(** X14: [open] does not undo what it has done, whatever arrives while it is
    in flight and whether or not the navigation succeeds.  Once the binding
    is asked for, the interceptor is installed.  Once the navigation is
    issued, the interceptor and the binding are installed and the close
    listener has been subscribed: it waits, or the window closed meanwhile
    and it has fired.  Before that point the page has no listener, [close]
    has not been emitted, and [open] rejects. *)
Theorem init_keeps_what_it_installed (arrivals : nat -> list Signal) :
  let r := openWith host engine arrivals inspectedContext pristine in
  let w' := snd r in
  (In (ExposeBinding "dispatch" false relayDispatch) (calls w') ->
   interceptor w' = Some serveRecorderAssets)
  /\ (In (Goto entryAddress) (calls w') ->
      interceptor w' = Some serveRecorderAssets
      /\ bindings w' !! "dispatch" = Some relayDispatch
      /\ ((pending w' = [closeListener] /\ closeCount w' = 0%nat
           /\ ~ In WindowClosed (arrivals 5%nat))
          \/ (pending w' = [] /\ closeCount w' = 1%nat
              /\ In WindowClosed (arrivals 5%nat))))
  /\ (~ In (Goto entryAddress) (calls w') ->
      unarmed w' /\ exists e, fst r = Rejected e).
Proof.
  intros r w'. subst r w'.
  destruct (openWith_paths host engine arrivals inspectedContext)
    as (k & c & Hk & Hlook & Hr & Hk5 & _ & Hown & _ & _ & _ & _ & Hi & Hb
        & Hidle & Hnav).
  rewrite !own_issued by reflexivity. rewrite Hown.
  assert (Hcases : (k = 0 \/ k = 1 \/ k = 2 \/ k = 3 \/ k = 4 \/ k = 5)%nat) by lia.
  split; [|split].
  - intros Hin. rewrite Hi.
    decompose [or] Hcases; subst k; simpl in Hin; try reflexivity;
      exfalso; intuition discriminate.
  - intros Hin.
    assert (Hk' : k = 5%nat).
    { decompose [or] Hcases; subst k; simpl in Hin; try reflexivity;
        exfalso; intuition discriminate. }
    subst k. split; [exact Hi|]. split; [exact Hb|].
    destruct (Hnav eq_refl) as [(Hno & Hp & Hc & _)|(Hyes & Hp & Hc & _)];
      [left | right]; now repeat split.
  - intros Hnot.
    assert (Hk' : (k < 5)%nat).
    { destruct (decide (k = 5%nat)) as [->|]; [|lia].
      destruct Hnot. simpl. tauto. }
    split; [now apply Hidle|].
    destruct (settle engine _ c) as [e|]; [eauto|].
    specialize (Hk5 eq_refl). lia.
Qed.

End BootstrapEdges.

Lemma open_success_trace_witness :
  let w' := snd (openWith sampleHost strictEngine busyArrivals
                   sampleContext pristine) in
  ownCalls w'
  = [ launchCall sampleHost sampleContext;
      LoadDefaultContextAsIs;
      InstallAppIcon;
      SetServerRequestInterceptor serveRecorderAssets;
      ExposeBinding "dispatch" false relayDispatch;
      Goto entryAddress ]
  /\ interceptor w' = Some serveRecorderAssets
  /\ bindings w' !! "dispatch" = Some relayDispatch.
Proof.
  pose proof (open_success_trace sampleHost strictEngine sampleContext
                busyArrivals
                {| wsEndpoint := Some "ws://127.0.0.1:9222/devtools" |}
                ltac:(vm_compute; reflexivity))
    as (Hown & _ & _ & _ & _ & _ & Hi & Hb & _).
  split; [exact Hown|]. split; [exact Hi | exact Hb].
Defined.

(** What arrived while [open] was in flight shows in the calls and in what
    was emitted, to nobody. *)
Example open_busy_trace :
  let w' := snd (openWith sampleHost strictEngine busyArrivals
                   sampleContext pristine) in
  issuedSince pristine w'
  = openCalls sampleHost sampleContext
    ++ [RouteFulfill {| status := 200;
                        headers := [("Content-Type", Some "text/html")];
                        body := "PHA+";
                        isBase64 := true |}]
  /\ emitted w' = [eventNote JNull]
  /\ delivered w' = [].
Proof. vm_compute. repeat split; reflexivity. Qed.

Section Outcomes.
Context (host : Host) (engine : Engine).

(** [setSources] resolves whether or not it writes. *)
Lemma setSources_resolves (sources : list Source) (w : World) :
  fst (setSources host engine sources w) = Resolved tt.
Proof.
  unfold setSources, bind.
  pose proof (swallow_resolves
                (call host engine (Eval (playwrightSetSources sources))) w) as Hs.
  destruct (swallow _ w) as [r w']. simpl in Hs. subst r.
  destruct (truthy _); simpl; [|reflexivity].
  destruct (Nat.eqb (length sources) 0) eqn:Hlen; simpl; [reflexivity|].
  destruct (head_nonempty _ Hlen) as [first ->].
  reflexivity.
Qed.

(** X16: what makes a method of the controller reject.  [close] and
    [bringToFront] reject exactly when the engine rejects their call, with
    the engine's error: neither has a [catch].  The six pushes always
    resolve.  [on] throws exactly when a listener of ['newListener'] throws,
    with its exception, and then the listener is not added; it returns when
    the listeners of ['newListener'] return. *)
Theorem method_rejections (c : HostCall) (w : World) :
  (forall e,
      fst (method host engine c w) = Rejected e
      <-> (c = CallClose /\ settle engine w ContextClose = Some e)
          \/ (c = CallBringToFront /\ settle engine w BringToFront = Some e)
          \/ (exists type l,
                c = CallOn type l
                /\ hearers w "newListener" <> []
                /\ fst (emit host "newListener" [JString type; listenerRef l] w)
                   = Rejected e))
  /\ (forall type l,
        c = CallOn type l -> plain (app w) ->
        (Forall (returns host (newListenerNote type l)) (hearers w "newListener") ->
         fst (method host engine c w) = Resolved tt
         /\ hearers (snd (method host engine c w)) type = hearers w type ++ [l])
        /\ (forall e, fst (method host engine c w) = Rejected e ->
            forall type', hearers (snd (method host engine c w)) type'
                          = hearers w type')).
Proof.
  split.
  - intros e. split.
    + destruct c; cbn [method]; intros Hrej;
        try (unfold setMode, setFile, setPaused, setSelector, updateCallLogs in Hrej;
             rewrite swallow_resolves in Hrej; discriminate Hrej);
        try (rewrite setSources_resolves in Hrej; discriminate Hrej).
      * left. split; [reflexivity|]. unfold close in Hrej.
        destruct (call_cases host engine ContextClose w)
          as [[_ Hc]|(e' & He' & Hc)]; rewrite Hc in Hrej; [discriminate Hrej|].
        injection Hrej as <-. exact He'.
      * right; left. split; [reflexivity|]. unfold bringToFront in Hrej.
        destruct (call_cases host engine BringToFront w)
          as [[_ Hc]|(e' & He' & Hc)]; rewrite Hc in Hrej; [discriminate Hrej|].
        injection Hrej as <-. exact He'.
      * right; right. exists type, listener. split; [reflexivity|].
        destruct (hearers w "newListener") as [|h hs] eqn:Hn.
        { rewrite (on_unannounced host type listener w Hn) in Hrej.
          discriminate Hrej. }
        split; [discriminate|].
        rewrite on_announced in Hrej by (rewrite Hn; discriminate).
        destruct (emit host "newListener" _ w) as [[b|e'] w1]; simpl in *;
          [discriminate Hrej | congruence].
    + intros [[-> He]|[[-> He]|(type & l & -> & Hn & He)]]; cbn [method].
      * unfold close.
        destruct (call_cases host engine ContextClose w)
          as [[Hn _]|(e' & He' & ->)]; simpl; congruence.
      * unfold bringToFront.
        destruct (call_cases host engine BringToFront w)
          as [[Hn _]|(e' & He' & ->)]; simpl; congruence.
      * rewrite on_announced by exact Hn.
        destruct (emit host "newListener" _ w) as [[b|e'] w1]; simpl in *;
          [discriminate He | congruence].
  - intros type l -> Hp. cbn [method]. split.
    + intros Hret. destruct (on_returns host type l w Hp Hret) as [Hr Ha].
      split; [exact Hr|]. unfold hearers. rewrite Ha, listeners_on.
      now rewrite decide_True.
    + intros e Hrej type'.
      destruct (on_plain host type l w Hp) as [[Hr _]|(_ & _ & Ha)];
        [congruence|].
      unfold hearers. now rewrite Ha.
Qed.

End Outcomes.

(** A listener of ['newListener'] that throws makes [on] throw. *)
Example on_throws :
  let w := run touchyHost obligingEngine
             [FromHost (CallOn "newListener" 13%nat)] readyWorld in
  fst (method touchyHost obligingEngine (CallOn "event" 7%nat) w) = Rejected "boom"
  /\ hearers (snd (method touchyHost obligingEngine (CallOn "event" 7%nat) w))
       "event" = [].
Proof. vm_compute. split; reflexivity. Qed.

(* ===================================================================== *)
(** ** Further properties: the window closes during bootstrap *)
(* ===================================================================== *)

Section BootstrapRaces.
Context (host : Host) (engine : Engine).

(** When [open] resolves although the window closed while the navigation was
    pending, the close listener has fired by the time [open] ends. *)
Lemma navigation_close_fired (arrivals : nat -> list Signal)
    (inspectedContext : BrowserContext) (result : RecorderApp) :
  fst (openWith host engine arrivals inspectedContext pristine) = Resolved result ->
  In WindowClosed (arrivals 5%nat) ->
  pending (snd (openWith host engine arrivals inspectedContext pristine)) = []
  /\ closeCount (snd (openWith host engine arrivals inspectedContext pristine))
     = 1%nat.
Proof.
  intros Hres Hin.
  destruct (openWith_paths host engine arrivals inspectedContext)
    as (k & c & _ & _ & Hr & Hk5 & _ & _ & _ & _ & _ & _ & _ & _ & _ & Hnav).
  rewrite Hres in Hr.
  assert (Hk' : k = 5%nat).
  { apply Hk5. now destruct (settle engine _ c). }
  destruct (Hnav Hk') as [(Hno & _)|(_ & Hp & Hc & _)];
    [now destruct Hno | now split].
Qed.

(** X15: the listener for the closing of the window is subscribed only right
    before the navigation.  Whatever the window does during the five waits
    of [open] that come before, no [close] is emitted by the time [open]
    ends: a window that closes then goes unnoticed.  When [open] resolves
    although the window closed while the navigation was pending, [close] has
    been emitted already, once, and the listener is gone.  In either case no
    listener of the controller has been called by the time [open] ends. *)
Theorem close_during_bootstrap (arrivals : nat -> list Signal)
    (inspectedContext : BrowserContext) :
  let r := openWith host engine arrivals inspectedContext pristine in
  (~ In WindowClosed (arrivals 5%nat) -> closeCount (snd r) = 0%nat)
  /\ (forall result,
        fst r = Resolved result -> In WindowClosed (arrivals 5%nat) ->
        closeCount (snd r) = 1%nat /\ pending (snd r) = [])
  /\ delivered (snd r) = [].
Proof.
  intros r. subst r.
  destruct (openWith_paths host engine arrivals inspectedContext)
    as (k & c & Hk & _ & Hr & Hk5 & _ & _ & _ & Hd & _ & _ & _ & _
        & Hidle & Hnav).
  split; [|split; [|exact Hd]].
  - intros Hno. destruct (decide (k = 5%nat)) as [->|Hne].
    + destruct (Hnav eq_refl) as [(_ & _ & Hc & _)|(Hyes & _)];
        [exact Hc | now destruct Hno].
    + now destruct (Hidle ltac:(lia)) as [[_ Hc] _].
  - intros result Hres Hin. rewrite Hres in Hr.
    assert (Hk' : k = 5%nat).
    { apply Hk5. now destruct (settle engine _ c). }
    destruct (Hnav Hk') as [(Hno & _)|(_ & Hp & Hc & _)];
      [now destruct Hno | now split].
Qed.

(** X17: a close of the window that falls into the navigation of a
    successful [open] is lost to the host.  The host can subscribe only once
    [open] has returned; a listener it subscribes to [close] then is never
    called, whatever follows, and [close] is not emitted a second time. *)
Theorem close_during_navigation_is_missed
    (arrivals : nat -> list Signal) (inspectedContext : BrowserContext)
    (result : RecorderApp) (l : Listener) (ts : list Turn) :
  fst (openWith host engine arrivals inspectedContext pristine) = Resolved result ->
  In WindowClosed (arrivals 5%nat) ->
  ~ In l (subscribing ts) ->
  let w' := run host engine (FromHost (CallOn "close" l) :: ts)
              (snd (openWith host engine arrivals inspectedContext pristine)) in
  received l w' = [] /\ closeCount w' = 1%nat.
Proof.
  intros Hres Hin Hl w'. subst w'.
  destruct (navigation_close_fired arrivals inspectedContext result Hres Hin)
    as [Hp1 Hc1].
  destruct (subscriber_hears host engine arrivals inspectedContext l "close"
              [] ts result Hres ltac:(intros []) Hl) as (He & Hn & Hsub & _).
  rewrite run_cons.
  change (run host engine []
            (snd (openWith host engine arrivals inspectedContext pristine)))
    with (snd (openWith host engine arrivals inspectedContext pristine)) in *.
  set (w1 := snd (openWith host engine arrivals inspectedContext pristine)) in *.
  destruct (turn_fired host engine (FromHost (CallOn "close" l)) w1 (conj Hp1 Hc1))
    as [Hp2 Hc2].
  set (w2 := turn host engine (FromHost (CallOn "close" l)) w1) in *.
  destruct (run_fired host engine ts w2 (conj Hp2 Hc2)) as [_ Hc3].
  set (w3 := run host engine ts w2) in *.
  split; [|exact Hc3].
  pose proof (closeCount_app w2 w3 _ He) as Hcount.
  rewrite Hc2, Hc3 in Hcount.
  assert (Hz : length (ofType "close" (emittedSince w2 w3)) = 0%nat) by lia.
  rewrite (closes_of _ Hn), Hz in Hsub.
  now apply sublist_nil_r in Hsub.
Qed.

End BootstrapRaces.

Lemma close_during_navigation_is_missed_witness :
  let w' := run sampleHost strictEngine
              (FromHost (CallOn "close" 7%nat)
               :: [FromWindow WindowClosed; FromHost CallClose;
                   FromWindow (DispatchCalled JNull)])
              (snd (openWith sampleHost strictEngine
                      (fun k => if Nat.eqb k 5 then [WindowClosed] else [])
                      sampleContext pristine)) in
  received 7%nat w' = [] /\ closeCount w' = 1%nat.
Proof.
  refine (close_during_navigation_is_missed sampleHost strictEngine
            (fun k => if Nat.eqb k 5 then [WindowClosed] else [])
            sampleContext
            {| wsEndpoint := Some "ws://127.0.0.1:9222/devtools" |}
            7%nat
            [FromWindow WindowClosed; FromHost CallClose;
             FromWindow (DispatchCalled JNull)] _ _ _).
  - vm_compute; reflexivity.
  - simpl. tauto.
  - simpl. tauto.
Defined.
